(** * CyberDropDownloader: the completion ledger, the Coomer crawler and the
      content hasher, embedded in Rocq.

    Sources:
    - [src/cyberdrop_dl/utils/database/tables/history_table.py]
    - [src/cyberdrop_dl/scraper/crawlers/coomer_crawler.py]
    - [src/cyberdrop_dl/managers/hash_manager.py]

    Python coroutines are run to completion one at a time: an [await] is
    an ordinary call here.  State that survives an exception in Python
    (the rows of the database, the cookie jar, the tasks already spawned)
    survives it here too: every effectful function returns its outcome
    together with the state it leaves behind. *)

From Stdlib Require Import List String Ascii ZArith Bool Lia PeanoNat.
From Stdlib Require Import DecimalString Sorted Permutation.
From Equations Require Import Equations.
Import ListNotations.

Local Open Scope string_scope.
Local Open Scope list_scope.

(** ** Python string operations used by the sources *)

Module PyStr.

(** [s.startswith(sub)] *)
Fixpoint startswith (sub s : string) : bool :=
  match sub, s with
  | EmptyString, _ => true
  | String _ _, EmptyString => false
  | String a sub', String b s' => Ascii.eqb a b && startswith sub' s'
  end.

(** [sub in s] *)
Fixpoint contains (sub s : string) : bool :=
  startswith sub s ||
  match s with
  | EmptyString => false
  | String _ s' => contains sub s'
  end.

(** [s.split(sep)[0]] for a non-empty separator: the text before the
    first occurrence of [sep], or all of [s] when there is none. *)
Fixpoint split_head (sep s : string) : string :=
  if startswith sep s then EmptyString
  else match s with
       | EmptyString => EmptyString
       | String c s' => String c (split_head sep s')
       end.

(** [s[:-1]]: all but the last character; the empty string stays empty. *)
Fixpoint drop_last (s : string) : string :=
  match s with
  | EmptyString => EmptyString
  | String c s' =>
      match s' with
      | EmptyString => EmptyString
      | String _ _ => String c (drop_last s')
      end
  end.

(** [sep.join(l)] *)
Fixpoint join (sep : string) (l : list string) : string :=
  match l with
  | [] => EmptyString
  | [x] => x
  | x :: rest => (x ++ sep ++ join sep rest)%string
  end.

(** [s.replace(a, b)] for single characters. *)
Fixpoint replace_char (a b : ascii) (s : string) : string :=
  match s with
  | EmptyString => EmptyString
  | String c s' => String (if Ascii.eqb c a then b else c) (replace_char a b s')
  end.

End PyStr.

(** ** Outcomes of effectful code *)

Inductive Result (E A : Type) : Type :=
| Ok (a : A)
| Raise (e : E).
Arguments Ok {E A} a.
Arguments Raise {E A} e.

(** A computation over a state [S] that may raise an exception of type
    [E]: the final state is returned in both cases, as a Python exception
    does not undo the assignments made before it. *)
Definition M (S E A : Type) : Type := S -> Result E A * S.

Definition ret {S E A} (a : A) : M S E A := fun s => (Ok a, s).

Definition bind {S E A B} (m : M S E A) (k : A -> M S E B) : M S E B :=
  fun s =>
    match m s with
    | (Ok a, s') => k a s'
    | (Raise e, s') => (Raise e, s')
    end.

Definition raise {S E A} (e : E) : M S E A := fun s => (Raise e, s).

Definition get {S E} : M S E S := fun s => (Ok s, s).

Definition modify {S E} (f : S -> S) : M S E unit := fun s => (Ok tt, f s).

(** [try: m  except <exceptions h accepts>: h e] *)
Definition try_except {S E A} (m : M S E A) (h : E -> option (M S E A))
  : M S E A :=
  fun s =>
    match m s with
    | (Ok a, s') => (Ok a, s')
    | (Raise e, s') =>
        match h e with
        | Some k => k s'
        | None => (Raise e, s')
        end
    end.

(** [for x in l: body x] *)
Fixpoint for_each {S E A} (l : list A) (body : A -> M S E unit) : M S E unit :=
  match l with
  | [] => ret tt
  | x :: rest => bind (body x) (fun _ => for_each rest body)
  end.

Declare Scope eff_scope.
Delimit Scope eff_scope with eff.
Notation "x <- c1 ;; c2" := (bind c1 (fun x => c2))
  (at level 61, c1 at next level, right associativity) : eff_scope.
Notation "c1 ;; c2" := (bind c1 (fun _ => c2))
  (at level 61, right associativity) : eff_scope.

(** ** The completion ledger ([history_table.py]) *)

Module HistoryTable.

(** A value held in a column.  SQLite is dynamically typed, and so are the
    rows Python reads back. *)
Inductive Value : Type :=
| VNull
| VInt (z : Z)
| VText (s : string).

Definition Value_eqb (a b : Value) : bool :=
  match a, b with
  | VNull, VNull => true
  | VInt x, VInt y => Z.eqb x y
  | VText x, VText y => String.eqb x y
  | _, _ => false
  end.

(** The columns of table [media], in the order of the INSERT statement of
    [insert_incompleted] (the last one is the column [add_filesize]
    writes). *)
Inductive Col : Type :=
| Domain | UrlPath | Referer | AlbumId | DownloadPath | DownloadFilename
| OriginalFilename | Completed | CreatedAt | CompletedAt | FileSize.

Definition Col_eqb (a b : Col) : bool :=
  match a, b with
  | Domain, Domain | UrlPath, UrlPath | Referer, Referer
  | AlbumId, AlbumId | DownloadPath, DownloadPath
  | DownloadFilename, DownloadFilename
  | OriginalFilename, OriginalFilename | Completed, Completed
  | CreatedAt, CreatedAt | CompletedAt, CompletedAt
  | FileSize, FileSize => true
  | _, _ => false
  end.

(** The name of a column, as [pragma table_info] reports it. *)
Definition col_name (c : Col) : string :=
  match c with
  | Domain => "domain" | UrlPath => "url_path" | Referer => "referer"
  | AlbumId => "album_id" | DownloadPath => "download_path"
  | DownloadFilename => "download_filename"
  | OriginalFilename => "original_filename" | Completed => "completed"
  | CreatedAt => "created_at" | CompletedAt => "completed_at"
  | FileSize => "file_size"
  end.

(** A row of [media].  A column the table does not have (yet) reads as
    NULL. *)
Record Row : Type := mkRow {
  domain : Value;
  url_path : Value;
  referer : Value;
  album_id : Value;
  download_path : Value;
  download_filename : Value;
  original_filename : Value;
  completed : Value;
  created_at : Value;
  completed_at : Value;
  file_size : Value
}.

Definition cell (c : Col) (r : Row) : Value :=
  match c with
  | Domain => domain r | UrlPath => url_path r | Referer => referer r
  | AlbumId => album_id r | DownloadPath => download_path r
  | DownloadFilename => download_filename r
  | OriginalFilename => original_filename r | Completed => completed r
  | CreatedAt => created_at r | CompletedAt => completed_at r
  | FileSize => file_size r
  end.

Definition set_cell (c : Col) (v : Value) (r : Row) : Row :=
  match c with
  | Domain => mkRow v (url_path r) (referer r) (album_id r) (download_path r) (download_filename r) (original_filename r) (completed r) (created_at r) (completed_at r) (file_size r)
  | UrlPath => mkRow (domain r) v (referer r) (album_id r) (download_path r) (download_filename r) (original_filename r) (completed r) (created_at r) (completed_at r) (file_size r)
  | Referer => mkRow (domain r) (url_path r) v (album_id r) (download_path r) (download_filename r) (original_filename r) (completed r) (created_at r) (completed_at r) (file_size r)
  | AlbumId => mkRow (domain r) (url_path r) (referer r) v (download_path r) (download_filename r) (original_filename r) (completed r) (created_at r) (completed_at r) (file_size r)
  | DownloadPath => mkRow (domain r) (url_path r) (referer r) (album_id r) v (download_filename r) (original_filename r) (completed r) (created_at r) (completed_at r) (file_size r)
  | DownloadFilename => mkRow (domain r) (url_path r) (referer r) (album_id r) (download_path r) v (original_filename r) (completed r) (created_at r) (completed_at r) (file_size r)
  | OriginalFilename => mkRow (domain r) (url_path r) (referer r) (album_id r) (download_path r) (download_filename r) v (completed r) (created_at r) (completed_at r) (file_size r)
  | Completed => mkRow (domain r) (url_path r) (referer r) (album_id r) (download_path r) (download_filename r) (original_filename r) v (created_at r) (completed_at r) (file_size r)
  | CreatedAt => mkRow (domain r) (url_path r) (referer r) (album_id r) (download_path r) (download_filename r) (original_filename r) (completed r) v (completed_at r) (file_size r)
  | CompletedAt => mkRow (domain r) (url_path r) (referer r) (album_id r) (download_path r) (download_filename r) (original_filename r) (completed r) (created_at r) v (file_size r)
  | FileSize => mkRow (domain r) (url_path r) (referer r) (album_id r) (download_path r) (download_filename r) (original_filename r) (completed r) (created_at r) (completed_at r) v
  end.

(** The row with every column NULL. *)
Definition null_row : Row :=
  mkRow VNull VNull VNull VNull VNull VNull VNull VNull VNull VNull VNull.

(** A table: its columns in declaration order, the columns of its primary
    key in key order (empty when the table declares none), and its rows in
    insertion order. *)
Record Table : Type := mkTable {
  cols : list Col;
  pk_cols : list Col;
  rows : list Row
}.

(** A row of table [hash], as far as the ledger's join reads it. *)
Record HashRow : Type := mkHashRow {
  h_hash : Value;
  h_download_filename : Value
}.

(** The database behind the connection: [media] (which [startup] creates
    before anything else runs), [media_copy] while a rebuild is under way,
    and [hash], which another class creates. *)
Record Database : Type := mkDatabase {
  media : Table;
  media_copy : option Table;
  hash : option (list HashRow)
}.

(** The exceptions the statements of this file can raise. *)
Inductive Exn : Type :=
| IntegrityError          (* UNIQUE / PRIMARY KEY constraint failed *)
| OperationalError        (* wrong number of values, no such table, ... *)
| ProgrammingError        (* wrong number of bindings supplied *)
| IndexError              (* Python: list index out of range *)
| FileNotFoundError.      (* [Path.stat] on a missing file *)

(** *** SQL, as far as the statements of the file need it *)

(** [column = ?] with a text argument; NULL and integers never match. *)
Definition sql_eq_text (v : Value) (s : string) : bool :=
  match v with
  | VText t => String.eqb t s
  | _ => false
  end.

(** [column = n] with an integer literal. *)
Definition sql_eq_int (v : Value) (n : Z) : bool :=
  match v with
  | VInt z => Z.eqb z n
  | _ => false
  end.

(** Two values collide in a unique index when they are equal and not NULL
    (SQLite treats NULLs as distinct from each other there). *)
Definition uniq_eqb (a b : Value) : bool :=
  match a with
  | VNull => false
  | _ => Value_eqb a b
  end.

(** Two rows collide on the primary key [pk]; a table without a primary
    key has no collisions. *)
Definition conflicts (pk : list Col) (r1 r2 : Row) : bool :=
  match pk with
  | [] => false
  | _ => forallb (fun c => uniq_eqb (cell c r1) (cell c r2)) pk
  end.

(** pk field of [pragma table_info]: the 1-based position of the column in
    the primary key, 0 when it is not part of it. *)
Fixpoint pk_index_from (n : Z) (c : Col) (pk : list Col) : Z :=
  match pk with
  | [] => 0
  | k :: rest => if Col_eqb k c then n else pk_index_from (n + 1) c rest
  end.

Definition pk_index (c : Col) (t : Table) : Z := pk_index_from 1 c (pk_cols t).

(** [fetchall] of a SELECT with a WHERE clause that SQLite answers by
    walking the table: the matching rows in table order. *)
Definition select_where (p : Row -> bool) (t : Table) : list Row :=
  filter p (rows t).

(** The order SQLite puts values in: NULL, then integers, then text
    (byte by byte). *)
Definition sql_compare (a b : Value) : comparison :=
  match a, b with
  | VNull, VNull => Eq
  | VNull, _ => Lt
  | _, VNull => Gt
  | VInt x, VInt y => Z.compare x y
  | VInt _, VText _ => Lt
  | VText _, VInt _ => Gt
  | VText x, VText y => String.compare x y
  end.

Definition sql_le (a b : Value) : bool :=
  match sql_compare a b with
  | Gt => false
  | _ => true
  end.

(** Two rows compared on the columns of the primary key, one column
    after the other. *)
Fixpoint key_compare (pk : list Col) (a b : Row) : comparison :=
  match pk with
  | [] => Eq
  | c :: rest =>
      match sql_compare (cell c a) (cell c b) with
      | Eq => key_compare rest a b
      | o => o
      end
  end.

(** The place of a row among rows in key order; among rows with equal
    keys the one stored first comes first. *)
Fixpoint insert_by_key (pk : list Col) (r : Row) (sorted : list Row) : list Row :=
  match sorted with
  | [] => [r]
  | x :: rest =>
      match key_compare pk r x with
      | Gt => x :: insert_by_key pk r rest
      | _ => r :: sorted
      end
  end.

Definition in_key_order (pk : list Col) (l : list Row) : list Row :=
  fold_right (insert_by_key pk) [] l.

(** [fetchall] of a SELECT whose WHERE clause fixes the columns [fixed]
    by equality.  When the first column of the primary key is among
    them, SQLite answers from the index of the key, and the matching
    rows come in key order; otherwise it walks the table. *)
Definition select_by (fixed : list Col) (p : Row -> bool) (t : Table) : list Row :=
  match pk_cols t with
  | c :: _ =>
      if existsb (Col_eqb c) fixed then in_key_order (pk_cols t) (select_where p t)
      else select_where p t
  | [] => select_where p t
  end.

(** [fetchone]: the first row of the result, if it has one. *)
Definition fetchone {A} (l : list A) : option A := hd_error l.

(** Plain INSERT of one row: the statement fails when the row collides
    with a stored one. *)
Definition insert_row (r : Row) (t : Table) : Result Exn Table :=
  if existsb (conflicts (pk_cols t) r) (rows t) then Raise IntegrityError
  else Ok (mkTable (cols t) (pk_cols t) (rows t ++ [r])).

(** INSERT OR IGNORE: a colliding row is skipped. *)
Definition insert_or_ignore (r : Row) (t : Table) : Table :=
  if existsb (conflicts (pk_cols t) r) (rows t) then t
  else mkTable (cols t) (pk_cols t) (rows t ++ [r]).

(** INSERT OR REPLACE: the stored rows the new one collides with are
    deleted first. *)
Definition insert_or_replace (r : Row) (t : Table) : Table :=
  mkTable (cols t) (pk_cols t)
          (filter (fun x => negb (conflicts (pk_cols t) r x)) (rows t) ++ [r]).

(** DELETE ... WHERE *)
Definition delete_where (p : Row -> bool) (t : Table) : Table :=
  mkTable (cols t) (pk_cols t) (filter (fun r => negb (p r)) (rows t)).

(** UPDATE ... SET ... WHERE, row by row in table order.  A changed row
    that collides with another row of the table (as it stands at that
    moment) aborts the statement: [None]. *)
Fixpoint update_rows (pk : list Col) (p : Row -> bool) (f : Row -> Row)
         (done todo : list Row) : option (list Row) :=
  match todo with
  | [] => Some done
  | r :: rest =>
      if p r then
        if existsb (conflicts pk (f r)) (done ++ rest) then None
        else update_rows pk p f (done ++ [f r]) rest
      else update_rows pk p f (done ++ [r]) rest
  end.

(** Does the SET clause assign a column of the primary key? *)
Definition touches_pk (assigned pk : list Col) : bool :=
  existsb (fun c => existsb (Col_eqb c) pk) assigned.

(** UPDATE: the uniqueness check runs only when the statement assigns a
    key column; an aborted statement leaves the table as it was. *)
Definition update_where (assigned : list Col) (p : Row -> bool)
           (f : Row -> Row) (t : Table) : Result Exn Table :=
  if touches_pk assigned (pk_cols t) then
    match update_rows (pk_cols t) p f [] (rows t) with
    | Some rs => Ok (mkTable (cols t) (pk_cols t) rs)
    | None => Raise IntegrityError
    end
  else Ok (mkTable (cols t) (pk_cols t)
                   (map (fun r => if p r then f r else r) (rows t))).

(** *** What Python sees of a result row *)

#[warnings="-register-all"]
Inductive PyObj : Type :=
| PyNone
| PyBool (b : bool)
| PyInt (z : Z)
| PyStr (s : string)
| PyTuple (l : list PyObj).

Definition to_py (v : Value) : PyObj :=
  match v with
  | VNull => PyNone
  | VInt z => PyInt z
  | VText s => PyStr s
  end.

(** Python's [==] on these values ([True == 1] and [False == 0] hold;
    values of different kinds are otherwise unequal). *)
Fixpoint py_eq (a b : PyObj) : bool :=
  match a, b with
  | PyNone, PyNone => true
  | PyBool x, PyBool y => Bool.eqb x y
  | PyBool x, PyInt y => Z.eqb (if x then 1 else 0) y
  | PyInt x, PyBool y => Z.eqb x (if y then 1 else 0)
  | PyInt x, PyInt y => Z.eqb x y
  | PyStr x, PyStr y => String.eqb x y
  | PyTuple l1, PyTuple l2 =>
      (fix go (l1 l2 : list PyObj) : bool :=
         match l1, l2 with
         | [], [] => true
         | x :: l1', y :: l2' => py_eq x y && go l1' l2'
         | _, _ => false
         end) l1 l2
  | _, _ => false
  end.

(** The tuple a cursor yields for a row: the selected columns in order. *)
Definition project (cs : list Col) (r : Row) : list Value :=
  map (fun c => cell c r) cs.

(** [row[i]] on such a tuple, for an index within it. *)
Definition item (t : list Value) (i : nat) : PyObj := to_py (nth i t VNull).

(** Truth value of a Python [str]. *)
Definition truthy (s : string) : bool :=
  match s with
  | EmptyString => false
  | String _ _ => true
  end.

(** What the ledger reads of a [yarl.URL]: its [path] and [name]. *)
Record URL : Type := mkURL {
  path : string;
  name : string
}.

(** What the ledger reads of a [MediaItem]; [referer] and
    [download_folder] are given as their [str()], and a
    [download_filename] that is not a [str] as [None]. *)
Module MediaItem.
Record t : Type := mk {
  url : URL;
  referer : string;
  album_id : option string;
  download_folder : string;
  download_filename : option string;
  original_filename : string;
  complete_file : string
}.
End MediaItem.

(** A Python argument that may be [None] binds as NULL. *)
Definition bind_opt (o : option string) : Value :=
  match o with
  | Some s => VText s
  | None => VNull
  end.

Definition get_db_path (url : URL) (referer : string) : string :=
  let url_path := path url in
  let url_path :=
    if truthy referer && PyStr.contains "e-hentai" referer
    then PyStr.drop_last (PyStr.split_head "keystamp" url_path)
    else url_path in
  let url_path :=
    if truthy referer && PyStr.contains "mediafire" referer
    then name url
    else url_path in
  url_path.

Definition sharex_domains : list string :=
  ["img.kiwi"; "jpg.church"; "jpg.homes"; "jpg.fish"; "jpg.fishing";
   "jpg.pet"; "jpeg.pet"; "jpg1.su"; "jpg2.su"; "jpg3.su"].

Definition get_db_domain (domain : string) : string :=
  if existsb (String.eqb domain) sharex_domains then "sharex" else domain.

(** *** The [HistoryTable] object *)

Record Self : Type := mkSelf {
  db_conn : Database;
  ignore_history : bool
}.

Definition Op (A : Type) : Type := M Self Exn A.

Definition set_media (t : Table) (s : Self) : Self :=
  mkSelf (mkDatabase t (media_copy (db_conn s)) (hash (db_conn s)))
         (ignore_history s).

(** Run a statement that changes [media]. *)
Definition execute (stmt : Table -> Result Exn Table) : Op unit :=
  fun s =>
    match stmt (media (db_conn s)) with
    | Ok t => (Ok tt, set_media t s)
    | Raise e => (Raise e, s)
    end.

(** Run a SELECT on [media]. *)
Definition query {A} (q : Table -> A) : Op A :=
  fun s => (Ok (q (media (db_conn s))), s).

(** [db_conn.commit()]: one connection, never rolled back, so there is
    nothing to do. *)
Definition commit : Op unit := ret tt.

(** [WHERE domain = ? and url_path = ?] *)
Definition at_key (d p : string) (r : Row) : bool :=
  sql_eq_text (cell Domain r) d && sql_eq_text (cell UrlPath r) p.

Local Open Scope eff_scope.

Definition check_complete (domain : string) (url : URL) (referer : string)
  : Op bool :=
  self <- get ;;
  if ignore_history self then ret false
  else
    let domain := get_db_domain domain in
    let url_path := get_db_path url domain in
    result <- query (fun t => map (project [Referer; Completed])
                                  (select_by [Domain; UrlPath]
                                             (at_key domain url_path) t)) ;;
    match fetchone result with
    | Some sql_file_check =>
        if negb (py_eq (item sql_file_check 1) (PyInt 0)) then
          (if negb (py_eq (PyStr referer) (item sql_file_check 0)) then
             execute (update_where [Referer] (at_key domain url_path)
                                   (set_cell Referer (VText referer))) ;;
             commit
           else ret tt) ;;
          ret true
        else ret false
    | None => ret false
    end.

(** A Python dict built by a comprehension: a later pair with a key that
    is already there replaces its value in place. *)
Fixpoint dict_set (k v : Value) (d : list (Value * Value)) : list (Value * Value) :=
  match d with
  | [] => [(k, v)]
  | (k', v') :: rest =>
      if Value_eqb k' k then (k', v) :: rest else (k', v') :: dict_set k v rest
  end.

Definition dict_of (l : list (list Value)) : list (Value * Value) :=
  fold_left (fun d row => dict_set (nth 0 row VNull) (nth 1 row VNull) d) l [].

(** [check_album] returns [False] or a dict. *)
Inductive AlbumStatus : Type :=
| AlbumFalse
| AlbumDict (d : list (Value * Value)).

Definition check_album (domain : string) (album_id : string) : Op AlbumStatus :=
  self <- get ;;
  if ignore_history self then ret AlbumFalse
  else
    let domain := get_db_domain domain in
    result <- query (fun t =>
      map (project [UrlPath; Completed])
          (select_by [Domain; AlbumId]
                     (fun r => sql_eq_text (cell Domain r) domain &&
                               sql_eq_text (cell AlbumId r) album_id) t)) ;;
    ret (AlbumDict (dict_of result)).

Definition set_album_id (domain : string) (media_item : MediaItem.t) : Op unit :=
  let domain := get_db_domain domain in
  let url_path := get_db_path (MediaItem.url media_item) (MediaItem.referer media_item) in
  execute (update_where [AlbumId] (at_key domain url_path)
                        (set_cell AlbumId (bind_opt (MediaItem.album_id media_item)))) ;;
  commit.

(** [sql_file_check and sql_file_check[0] != 0]: [None] when there is no
    row, a [bool] otherwise. *)
Definition check_complete_by_referer (domain : string) (referer : string)
  : Op PyObj :=
  self <- get ;;
  if ignore_history self then ret (PyBool false)
  else
    let domain := get_db_domain domain in
    result <- query (fun t =>
      map (project [Completed])
          (select_by [Domain; Referer]
                     (fun r => sql_eq_text (cell Domain r) domain &&
                               sql_eq_text (cell Referer r) referer) t)) ;;
    match fetchone result with
    | None => ret PyNone
    | Some sql_file_check =>
        ret (PyBool (negb (py_eq (item sql_file_check 0) (PyInt 0))))
    end.

(** The row [insert_incompleted] offers to INSERT OR IGNORE; [now] is the
    value of CURRENT_TIMESTAMP. *)
Definition incompleted_row (now : string) (domain url_path download_filename : string)
           (media_item : MediaItem.t) : Row :=
  mkRow (VText domain) (VText url_path) (VText (MediaItem.referer media_item))
        (bind_opt (MediaItem.album_id media_item))
        (VText (MediaItem.download_folder media_item))
        (VText download_filename)
        (VText (MediaItem.original_filename media_item))
        (VInt 0) (VText now) VNull VNull.

Definition insert_incompleted (now : string) (domain : string)
           (media_item : MediaItem.t) : Op unit :=
  let domain := get_db_domain domain in
  let url_path := get_db_path (MediaItem.url media_item) (MediaItem.referer media_item) in
  let download_filename :=
    match MediaItem.download_filename media_item with
    | Some s => s
    | None => ""
    end in
  try_except
    (execute (update_where [Domain; AlbumId]
       (fun r => sql_eq_text (cell Domain r) "no_crawler" &&
                 sql_eq_text (cell UrlPath r) url_path &&
                 sql_eq_text (cell Referer r) (MediaItem.referer media_item))
       (fun r => set_cell AlbumId (bind_opt (MediaItem.album_id media_item))
                          (set_cell Domain (VText domain) r))))
    (fun e =>
       match e with
       | IntegrityError =>
           Some (execute (fun t => Ok (delete_where
                   (fun r => sql_eq_text (cell Domain r) "no_crawler" &&
                             sql_eq_text (cell UrlPath r) url_path) t)))
       | _ => None
       end) ;;
  execute (fun t => Ok (insert_or_ignore
             (incompleted_row now domain url_path download_filename media_item) t)) ;;
  execute (update_where [DownloadFilename] (at_key domain url_path)
                        (set_cell DownloadFilename (VText download_filename))) ;;
  commit.

Definition mark_complete (now : string) (domain : string)
           (media_item : MediaItem.t) : Op unit :=
  let domain := get_db_domain domain in
  let url_path := get_db_path (MediaItem.url media_item) (MediaItem.referer media_item) in
  execute (update_where [Completed; CompletedAt] (at_key domain url_path)
             (fun r => set_cell CompletedAt (VText now)
                                (set_cell Completed (VInt 1) r))) ;;
  commit.

(** [check_filename_exists]: SELECT EXISTS(...) yields one row holding 1
    or 0; the method compares that row with the integer 1. *)
Definition check_filename_exists (filename : string) : Op bool :=
  result <- query (fun t =>
    [[VInt (if existsb (fun r => sql_eq_text (cell DownloadFilename r) filename)
                       (rows t)
            then 1 else 0)]]) ;;
  match fetchone result with
  | Some sql_file_check => ret (py_eq (PyTuple (map to_py sql_file_check)) (PyInt 1))
  | None => ret (py_eq PyNone (PyInt 1))
  end.

Definition get_downloaded_filename (domain : string) (media_item : MediaItem.t)
  : Op PyObj :=
  let domain := get_db_domain domain in
  let url_path := get_db_path (MediaItem.url media_item) (MediaItem.referer media_item) in
  result <- query (fun t => map (project [DownloadFilename])
                                (select_by [Domain; UrlPath]
                                           (at_key domain url_path) t)) ;;
  match fetchone result with
  | Some sql_file_check => ret (item sql_file_check 0)
  | None => ret PyNone
  end.

Definition get_failed_items : Op (list (list Value)) :=
  query (fun t => map (project [Referer; DownloadPath; CompletedAt; CreatedAt])
                      (select_where (fun r => sql_eq_int (cell Completed r) 0) t)).

(** SELECT DISTINCT: the first row of each value, in table order. *)
Fixpoint distinct (l : list Value) : list Value :=
  match l with
  | [] => []
  | v :: rest => v :: filter (fun w => negb (Value_eqb v w)) (distinct rest)
  end.

Definition get_unique_download_paths : Op (list (list Value)) :=
  query (fun t => map (fun v => [v]) (distinct (map (cell DownloadPath) (rows t)))).

(** The two handlers below call [log(...)] without [await]: [log] is a
    coroutine function of [utilities], so the call only builds a
    coroutine that is dropped, and nothing is written to the log. *)
Definition get_all_bunkr_failed_via_size : Op (list (list Value)) :=
  try_except
    (query (fun t => map (project [Referer; DownloadPath; CompletedAt; CreatedAt])
                         (select_where (fun r => sql_eq_int (cell FileSize r) 322509) t)))
    (fun e => Some (ret [])).

(** [a = b] between two columns: NULL equals nothing. *)
Definition sql_eq (a b : Value) : bool := uniq_eqb a b.

(** The digests of the placeholder files, from the query of
    [get_all_bunkr_failed_via_hash]. *)
Definition bunkr_failed_hashes : list string :=
  ["848248acc7a1b72ea1e90430848badcc354aa0988c01da58642cd857cbb44dc4cbf790991434ffbc6ec04e37061ef07d2f56166fc93205efea9c7333742b5e33";
   "4bb7e09f649a22ba7992780deec38ca5963c2528ea9a2f6aa5429e853df7d691a3f694d65ef303e46e8b125bd88a397a8ec2d127fac47b6f92af6c9088b0b95f";
   "5dbbc6c65608369dcb5bc550ac8d72aff84e934304fa3ed5727d87c379fff2dd81c618221a7ad1d3417a36e8a202f1b32f23a3cf334a22b8d253232646697474";
   "6429f8cc13842d2a340aac32f2071580000085de3ca7d1ca8ba5ef0c4f694ea5849044db4ac79770ac36cbdd10ec7c4407fc4d22ea6d413712c23ea54d478000";
   "adc0ee3bd1a7e8466a699e895ed9b8345715c45489142f351fcb0bdd0a5d2962253c001d78c21302af158521a832ab334d385f7d942351d618f59b9872179d45";
   "e14e0c594596fcdb83cb8e64a8403f09a52bc1d1e2c0cdf4eb0317ca9fe5c012bf8328ee02ce033b01a802c83b61b945fbea2af8be615b3bf713b9b6080a102b";
   "6f3c5fb74a9e3a60b8f7150e2139341af06019a28f4415d55e19a2d9b2c7706375f880b676b7f5b1cddda673231c795245ccb2eb588dd09aaa0112bafe3627a4";
   "cde6f84226773d68d4e4f95d6faa99845a5088ea0ec0e41e5ff58f3262bce1bb727098a58b52a3bb67355e12c9012fcc671ba28c0a1773c0e455a57e9a1b2854";
   "1fa8256928d10dec6bc3f94e9c337c3d723b47a7e658ab492e3a27622bd7acb26a8dbf14526a31a865fb3405063ff9d9bdc3c5fd27f479d32f80e9c9ed6d2e7d"].

(** FROM hash h INNER JOIN media m ON h.download_filename =
    m.download_filename WHERE h.hash IN (...); a database without table
    [hash] makes the statement fail. *)
Definition join_hash_media (db : Database) : Result Exn (list (list Value)) :=
  match hash db with
  | None => Raise OperationalError
  | Some hs =>
      Ok (flat_map
            (fun h =>
               if existsb (sql_eq_text (h_hash h)) bunkr_failed_hashes then
                 map (project [Referer; DownloadPath; CompletedAt; CreatedAt])
                     (filter (fun m => sql_eq (h_download_filename h)
                                              (cell DownloadFilename m))
                             (rows (media db)))
               else [])
            hs)
  end.

Definition get_all_bunkr_failed_via_hash : Op (list (list Value)) :=
  try_except
    (fun s => (join_hash_media (db_conn s), s))
    (fun e => Some (ret [])).

Definition get_all_bunkr_failed : Op (list (list Value)) :=
  hash_list <- get_all_bunkr_failed_via_hash ;;
  size_list <- get_all_bunkr_failed_via_size ;;
  ret (hash_list ++ size_list).

(** [COALESCE(v, d)] *)
Definition coalesce (v d : Value) : Value :=
  match v with
  | VNull => d
  | _ => v
  end.

(** ORDER BY completed_at DESC, as an insertion sort that keeps rows with
    equal values in table order. *)
Fixpoint insert_desc (r : Row) (sorted : list Row) : list Row :=
  match sorted with
  | [] => [r]
  | x :: rest =>
      if sql_le (cell CompletedAt r) (cell CompletedAt x)
      then x :: insert_desc r rest
      else r :: sorted
  end.

Definition order_by_completed_at_desc (l : list Row) : list Row :=
  fold_right insert_desc [] l.

(** [get_all_items]; [after] and [before] are the two dates already
    formatted as YYYY-MM-DD. *)
Definition get_all_items (after before : string) : Op (list (list Value)) :=
  query (fun t =>
    map (project [Referer; DownloadPath; CompletedAt; CreatedAt])
        (order_by_completed_at_desc
           (select_where
              (fun r =>
                 let v := coalesce (cell CompletedAt r) (VText "1970-01-01") in
                 sql_le (VText after) v && sql_le v (VText before))
              t))).

(** [add_filesize]; [stat] gives the size of the file at a path, if there
    is one. *)
Definition add_filesize (stat : string -> option Z) (domain : string)
           (media_item : MediaItem.t) : Op unit :=
  let domain := get_db_domain domain in
  let url_path := get_db_path (MediaItem.url media_item) (MediaItem.referer media_item) in
  match stat (MediaItem.complete_file media_item) with
  | None => raise FileNotFoundError
  | Some file_size =>
      execute (update_where [FileSize] (at_key domain url_path)
                            (set_cell FileSize (VInt file_size))) ;;
      commit
  end.

(** *** Migrations *)

(** A row built from values given by position for the columns [cs]; the
    other columns are NULL. *)
Definition row_of_values (cs : list Col) (vs : list Value) : Row :=
  fold_left (fun r cv => set_cell (fst cv) (snd cv) r) (combine cs vs) null_row.

(** INSERT or REPLACE INTO media VALUES (?, ... eleven times): the table
    must have eleven columns and the binding eleven values. *)
Definition insert_or_replace_values (vs : list Value) (t : Table)
  : Result Exn Table :=
  if negb (Nat.eqb (List.length (cols t)) 11) then Raise OperationalError
  else if negb (Nat.eqb (List.length vs) 11) then Raise ProgrammingError
  else Ok (insert_or_replace (row_of_values (cols t) vs) t).

Definition fix_bunkr_v4_entries : Op unit :=
  bunkr_entries <- query (fun t =>
    map (project (cols t))                                   (* SELECT * *)
        (select_where (fun r => sql_eq_text (cell Domain r) "bunkr" &&
                                sql_eq_int (cell Completed r) 1) t)) ;;
  for_each bunkr_entries
    (fun entry =>
       match entry with
       | [] => raise IndexError
       | _ :: rest =>
           let entry := VText "bunkrr" :: rest in            (* entry[0] = "bunkrr" *)
           execute (insert_or_replace_values entry)
       end) ;;
  commit ;;
  execute (fun t => Ok (delete_where (fun r => sql_eq_text (cell Domain r) "bunkr") t)) ;;
  commit.

(** A row of [pragma table_info]: fields 0 (cid), 1 (name) and 5 (pk). *)
Record ColumnInfo : Type := mkColumnInfo {
  info_cid : Z;
  info_name : string;
  info_pk : Z
}.

Fixpoint table_info_from (n : Z) (cs : list Col) (t : Table) : list ColumnInfo :=
  match cs with
  | [] => []
  | c :: rest =>
      mkColumnInfo n (col_name c) (pk_index c t) :: table_info_from (n + 1) rest t
  end.

Definition table_info (t : Table) : list ColumnInfo :=
  table_info_from 0 (cols t) t.

(** What a CREATE TABLE statement fixes of a table. *)
Record Schema : Type := mkSchema {
  schema_cols : list Col;
  schema_pk : list Col
}.

(** The columns the rebuild names in its INSERT INTO media_copy (...). *)
Definition legacy_columns : list Col :=
  [Domain; UrlPath; Referer; DownloadPath; DownloadFilename;
   OriginalFilename; Completed].

(** GROUP BY domain, url_path, original_filename: NULLs fall in one
    group. *)
Definition same_group (r1 r2 : Row) : bool :=
  forallb (fun c => Value_eqb (cell c r1) (cell c r2))
          [Domain; UrlPath; OriginalFilename].

(** The groups, each as its first row and its later rows, in the order of
    their first rows; [seen] holds the first rows of the groups already
    opened. *)
Fixpoint group_by (seen l : list Row) : list (Row * list Row) :=
  match l with
  | [] => []
  | r :: rest =>
      if existsb (same_group r) seen then group_by seen rest
      else (r, filter (same_group r) rest) :: group_by (r :: seen) rest
  end.

(** Plain INSERT of several rows as one statement. *)
Fixpoint insert_rows (rs : list Row) (t : Table) : Result Exn Table :=
  match rs with
  | [] => Ok t
  | r :: rest =>
      match insert_row r t with
      | Ok t' => insert_rows rest t'
      | Raise e => Raise e
      end
  end.

Definition set_media_copy (c : option Table) (s : Self) : Self :=
  mkSelf (mkDatabase (media (db_conn s)) c (hash (db_conn s)))
         (ignore_history s).

Definition add_column (c : Col) (t : Table) : Table :=
  mkTable (cols t ++ [c]) (pk_cols t) (map (set_cell c VNull) (rows t)).

(** ALTER TABLE media ADD COLUMN, when [pragma table_info] did not list
    the column. *)
Definition add_column_if_missing (current_cols : list string) (c : Col)
  : Op unit :=
  if negb (existsb (String.eqb (col_name c)) current_cols) then
    execute (fun t => Ok (add_column c t)) ;; commit
  else ret tt.

Definition add_columns_media : Op unit :=
  result <- query table_info ;;
  let current_cols := map info_name result in
  add_column_if_missing current_cols AlbumId ;;
  add_column_if_missing current_cols CreatedAt ;;
  add_column_if_missing current_cols CompletedAt ;;
  add_column_if_missing current_cols FileSize.

Section Rebuild.

(** [table_definitions.create_fixed_history] is not among the sources: the
    columns and the primary key it gives [media_copy] are a parameter. *)
Variable create_fixed_history : Schema.

(** SQLite evaluates the bare columns of a GROUP BY query on a row of the
    group that it chooses; the choice is a parameter. *)
Variable choose : Row -> list Row -> Row.

(** SELECT * FROM media GROUP BY domain, url_path, original_filename *)
Definition select_grouped (t : Table) : list (list Value) :=
  map (fun g => project (cols t) (choose (fst g) (snd g)))
      (group_by [] (rows t)).

(** INSERT INTO media_copy (the seven legacy columns) SELECT * FROM media
    GROUP BY ...: the target must have the seven columns and the source
    must yield seven values per row. *)
Definition copy_grouped (src dst : Table) : Result Exn Table :=
  if negb (forallb (fun c => existsb (Col_eqb c) (cols dst)) legacy_columns)
  then Raise OperationalError
  else if negb (Nat.eqb (List.length (cols src)) 7) then Raise OperationalError
  else insert_rows (map (row_of_values legacy_columns) (select_grouped src)) dst.

(** CREATE TABLE IF NOT EXISTS media_copy *)
Definition create_media_copy : Op unit :=
  modify (fun s =>
    match media_copy (db_conn s) with
    | Some _ => s
    | None => set_media_copy (Some (mkTable (schema_cols create_fixed_history)
                                            (schema_pk create_fixed_history) [])) s
    end).

Definition copy_media : Op unit :=
  fun s =>
    match media_copy (db_conn s) with
    | None => (Raise OperationalError, s)
    | Some dst =>
        match copy_grouped (media (db_conn s)) dst with
        | Ok dst' => (Ok tt, set_media_copy (Some dst') s)
        | Raise e => (Raise e, s)
        end
    end.

(** DROP TABLE media, then ALTER TABLE media_copy RENAME TO media. *)
Definition replace_media : Op unit :=
  fun s =>
    match media_copy (db_conn s) with
    | None => (Raise OperationalError, s)
    | Some dst =>
        (Ok tt, mkSelf (mkDatabase dst None (hash (db_conn s)))
                       (ignore_history s))
    end.

Definition fix_primary_keys : Op unit :=
  result <- query table_info ;;
  match result with
  | [] => raise IndexError
  | first :: _ =>
      if Z.eqb (info_pk first) 0 then
        create_media_copy ;; commit ;;
        copy_media ;; commit ;;
        replace_media ;; commit
      else ret tt
  end.

(** [startup]; its first statement, CREATE TABLE IF NOT EXISTS media,
    finds the table of this model in place. *)
Definition startup : Op unit :=
  commit ;;
  fix_primary_keys ;;
  add_columns_media ;;
  fix_bunkr_v4_entries.

End Rebuild.

(** *** Well-formed tables *)

(** No two rows of the list collide on the key [pk]: what SQLite's
    uniqueness check maintains. *)
Fixpoint unique_rows (pk : list Col) (l : list Row) : Prop :=
  match l with
  | [] => True
  | r :: rest =>
      (forall x, In x rest -> conflicts pk r x = false) /\ unique_rows pk rest
  end.

Definition unique_table (t : Table) : Prop := unique_rows (pk_cols t) (rows t).

(** The rows stored under the key [(d, p)]. *)
Definition records_at (d p : string) (s : Self) : list Row :=
  select_where (at_key d p) (media (db_conn s)).

End HistoryTable.

(** ** The Coomer crawler ([coomer_crawler.py]) *)

Module CoomerCrawler.

(** *** URLs, as far as the crawler uses [yarl.URL] *)

(** An absolute URL: host, path segments (decoded, none of them holding a
    slash) and query. *)
Record URL : Type := mkURL {
  host : string;
  segments : list string;
  query : list (string * string)
}.

(** [url.parts]: the root, then the segments. *)
Definition parts (u : URL) : list string := "/" :: segments u.

(** [url.name]: the last segment, empty for the root path. *)
Definition name (u : URL) : string := last (segments u) "".

(** [s.split("/")] *)
Fixpoint split_slash (s : string) : list string :=
  match s with
  | EmptyString => [EmptyString]
  | String c s' =>
      if Ascii.eqb c "/" then EmptyString :: split_slash s'
      else match split_slash s' with
           | [] => [String c EmptyString]
           | x :: rest => String c x :: rest
           end
  end.

(** The segments without a trailing empty one (a path that ends in a
    slash). *)
Fixpoint strip_trailing_empty (l : list string) : list string :=
  match l with
  | [] => []
  | [x] => if String.eqb x "" then [] else [x]
  | x :: rest => x :: strip_trailing_empty rest
  end.

(** The exceptions of the crawler. *)
Inductive Exn : Type :=
| ScrapeFailure (status : Z) (message : string)
| KeyError (key : string)
| IndexError
| AttributeError
| ValueError
| NoExtensionFailure.

(** A character that stands for itself in a path: a letter, a digit or
    one of [- . _ ~]. *)
Definition unreserved (c : ascii) : bool :=
  let n := nat_of_ascii c in
  (Nat.leb 48 n && Nat.leb n 57) || (Nat.leb 65 n && Nat.leb n 90) ||
  (Nat.leb 97 n && Nat.leb n 122) ||
  Nat.eqb n 45 || Nat.eqb n 46 || Nat.eqb n 95 || Nat.eqb n 126.

Fixpoint all_unreserved (s : string) : bool :=
  match s with
  | EmptyString => true
  | String c s' => unreserved c && all_unreserved s'
  end.

(** A name that is one path segment and reads the same once yarl has
    encoded it, resolved the path and decoded it again: made of such
    characters, and none of the empty name, [.] and [..]. *)
Definition plain_name (s : string) : bool :=
  all_unreserved s && negb (String.eqb s "") &&
  negb (String.eqb s ".") && negb (String.eqb s "..").

(** [url / name]: the segments of [name] are appended and the query is
    dropped; a name that starts with a slash is refused.  This is what
    yarl makes of names made of plain segments; it also resolves [.] and
    [..] segments and decodes [%] escapes, which is not modelled. *)
Definition truediv (u : URL) (name : string) : Result Exn URL :=
  if PyStr.startswith "/" name then Raise ValueError
  else Ok (mkURL (host u) (strip_trailing_empty (segments u) ++ split_slash name) []).

(** [url.with_query(q)]; an integer value is stored as its decimal
    text ([str_of_int]). *)
Definition with_query (u : URL) (q : list (string * string)) : URL :=
  mkURL (host u) (segments u) q.

Definition str_of_int (z : Z) : string := NilZero.string_of_int (Z.to_int z).

(** [url.query[key]] *)
Fixpoint query_get (key : string) (q : list (string * string))
  : option string :=
  match q with
  | [] => None
  | (k, v) :: rest => if String.eqb k key then Some v else query_get key rest
  end.

(** [x in url.parts] *)
Definition in_parts (x : string) (u : URL) : bool :=
  existsb (String.eqb x) (parts u).

(** *** What the remote API answers *)

(** An entry of the favourites listing. *)
Record User : Type := mkUser {
  user_id : string;
  user_name : string;
  user_service : string
}.

(** A file of a post. *)
Record FileObj : Type := mkFileObj {
  file_path : string;
  file_name : string
}.

(** A post.  An absent or null member is [None]; so is a [file] that is an
    empty object. *)
Record Post : Type := mkPost {
  content : string;
  published : option string;
  added : option string;
  post_id : string;
  title : option string;
  file : option FileObj;
  attachments : list FileObj
}.

(** The parsed page, as the text of the element a selector finds. *)
Definition Soup : Type := string -> option string.

(** The HTTP client: each request is answered from the cookie the shared
    session carries and the URL. *)
Record Client : Type := mkClient {
  get_json_users : string -> URL -> Result Exn (list User);
  get_json_posts : string -> URL -> Result Exn (list Post);
  get_json_post : string -> URL -> Result Exn Post;
  get_BS4 : string -> URL -> Result Exn Soup
}.

(** *** Scrape items *)

(** Modelled from the spec: [ScrapeItem] ([url_objects], not among the
    sources) has a target URL, a parent chain used for titles, an album
    identifier, a flag for membership in a collection and an optional
    timestamp. *)
Record ScrapeItem : Type := mkScrapeItem {
  url : URL;
  parent_title : string;
  part_of_album : bool;
  album_id : option string;
  possible_datetime : option Z;
  parents : list URL
}.

(** What the configuration holds for this crawler. *)
Record Config : Type := mkConfig {
  session : string;     (* authentication_data['Coomer']['session'] *)
  ignore_coomer_ads : bool;
  separate_posts : bool;
  include_album_id_in_folder_name : bool
}.

(** A request that went out, with the session cookie it carried. *)
Record Request : Type := mkRequest {
  request_url : URL;
  request_cookie : string
}.

(** The state a call works on: the scrape item it was given (a mutable
    object), the session cookie of the shared client, and what the call
    has caused so far. *)
Record World : Type := mkWorld {
  scrape_item : ScrapeItem;
  session_cookie : string;
  limiter_entries : nat;                       (* async with request_limiter *)
  requests : list Request;
  tasks : list ScrapeItem;                     (* task_group.create_task(run(item)) *)
  handled : list (URL * string * string);      (* handle_file(url, item, filename, ext) *)
  progress : list (nat * URL);                 (* scraping_progress: tasks shown *)
  next_task_id : nat;                          (* ... and the next task id *)
  logged : list Exn
}.

Definition Eff (A : Type) : Type := M World Exn A.

Local Open Scope eff_scope.

Section Crawler.

Variable config : Config.
Variable client : Client.

(** Methods of the base class [Crawler] and helpers of [utilities], none
    of them among the sources. *)
Variable create_scrape_item :
  ScrapeItem -> URL -> option string -> bool -> option string -> option Z ->
  option URL -> ScrapeItem.
Variable create_title : string -> string.
Variable add_to_parent_title : ScrapeItem -> option string -> ScrapeItem.
Variable get_filename_and_ext : string -> Result Exn (string * string).

(** [datetime.strptime(date, "%Y-%m-%d %H:%M:%S")] followed by
    [calendar.timegm]; a string of another shape raises [ValueError]. *)
Variable strptime_timegm : string -> option Z.

Definition primary_base_domain : URL := mkURL "coomer.su" [] [].
Definition api_url : URL := mkURL "coomer.su" ["api"; "v1"] [].

Definition lift {A} (r : Result Exn A) : Eff A := fun w => (r, w).

Definition set_scrape_item (i : ScrapeItem) (w : World) : World :=
  mkWorld i (session_cookie w) (limiter_entries w) (requests w) (tasks w)
          (handled w) (progress w) (next_task_id w) (logged w).

(** [async with self.request_limiter] *)
Definition enter_limiter : Eff unit :=
  modify (fun w => mkWorld (scrape_item w) (session_cookie w)
                           (S (limiter_entries w)) (requests w) (tasks w)
                           (handled w) (progress w) (next_task_id w) (logged w)).

(** [cookies.update_cookies({"session": v}, response_url=...)] *)
Definition update_cookies (v : string) : Eff unit :=
  modify (fun w => mkWorld (scrape_item w) v (limiter_entries w) (requests w)
                           (tasks w) (handled w) (progress w) (next_task_id w) (logged w)).

(** A request through the shared client. *)
Definition request {A} (call : string -> URL -> Result Exn A) (u : URL) : Eff A :=
  fun w =>
    (call (session_cookie w) u,
     mkWorld (scrape_item w) (session_cookie w) (limiter_entries w)
             (requests w ++ [mkRequest u (session_cookie w)]) (tasks w)
             (handled w) (progress w) (next_task_id w) (logged w)).

(** [self.manager.task_group.create_task(self.run(item))] *)
Definition spawn (i : ScrapeItem) : Eff unit :=
  modify (fun w => mkWorld (scrape_item w) (session_cookie w) (limiter_entries w)
                           (requests w) (tasks w ++ [i]) (handled w)
                           (progress w) (next_task_id w) (logged w)).

(** [self.handle_file(url, scrape_item, filename, ext)] of the base
    class. *)
Definition handle_file (u : URL) (filename ext : string) : Eff unit :=
  modify (fun w => mkWorld (scrape_item w) (session_cookie w) (limiter_entries w)
                           (requests w) (tasks w) (handled w ++ [(u, filename, ext)])
                           (progress w) (next_task_id w) (logged w)).

Definition log_error (e : Exn) (w : World) : World :=
  mkWorld (scrape_item w) (session_cookie w) (limiter_entries w) (requests w)
          (tasks w) (handled w) (progress w) (next_task_id w) (logged w ++ [e]).

(** Modelled from the spec: [error_handling_wrapper] ([utilities], not
    among the sources) is the uniform error boundary: a failure of the
    wrapped call, typed or not, is caught and logged, and the call
    returns. *)
Definition error_handling_wrapper (m : Eff unit) : Eff unit :=
  fun w =>
    match m w with
    | (Ok tt, w') => (Ok tt, w')
    | (Raise e, w') => (Ok tt, log_error e w')
    end.

Definition the_scrape_item : Eff ScrapeItem := fun w => (Ok (scrape_item w), w).

Definition favorites_body : Eff unit :=
  if negb (HistoryTable.truthy (session config)) then
    raise (ScrapeFailure 401
      "No session cookie found in the config file, cannot scrape favorites")
  else
    enter_limiter ;;
    update_cookies (session config) ;;
    favourites_api_url <- lift (truediv api_url "account/favorites") ;;
    let favourites_api_url := with_query favourites_api_url [("type", "artist")] in
    JSON_Resp <- request (get_json_users client) favourites_api_url ;;
    update_cookies "" ;;
    for_each JSON_Resp
      (fun user =>
         let id := user_id user in
         let service := user_service user in
         u <- lift (truediv primary_base_domain service) ;;
         u <- lift (truediv u "user") ;;
         u <- lift (truediv u id) ;;
         scrape_item <- the_scrape_item ;;
         let new_scrape_item :=
           create_scrape_item scrape_item u None true None None None in
         spawn new_scrape_item).

Definition favorites : Eff unit := error_handling_wrapper favorites_body.

(** [create_new_scrape_item] *)
Definition create_new_scrape_item (link : URL) (user : string) (title : string)
           (post_id : string) (date : string) (add_parent : option URL)
  : Eff unit :=
  let post_title : option string := None in
  let post_title :=
    if separate_posts config then
      let t := (date ++ " - " ++ title)%string in
      if include_album_id_in_folder_name config
      then Some (post_id ++ " - " ++ t)%string
      else Some t
    else post_title in
  let new_title := create_title user in
  match strptime_timegm date with
  | None => raise ValueError
  | Some stamp =>
      old_scrape_item <- the_scrape_item ;;
      let new_scrape_item :=
        create_scrape_item old_scrape_item link (Some new_title) true None
                           (Some stamp) add_parent in
      let new_scrape_item := add_to_parent_title new_scrape_item post_title in
      spawn new_scrape_item
  end.

(** [a or b] on optional strings. *)
Definition py_or (a b : option string) : option string :=
  match a with
  | Some s => if HistoryTable.truthy s then Some s else b
  | None => b
  end.

(** The inner [handle_file] of [handle_post_content]. *)
Definition handle_file_obj (user_str post_title post_id date : string)
           (file_obj : FileObj) : Eff unit :=
  link <- lift (truediv primary_base_domain ("data" ++ file_path file_obj)) ;;
  let link := with_query link [("f", file_name file_obj)] in
  scrape_item <- the_scrape_item ;;
  parent <- lift (truediv (url scrape_item) "post") ;;
  parent <- lift (truediv parent post_id) ;;
  create_new_scrape_item link user_str post_title post_id date (Some parent).

Definition handle_post_content_body (post : Post) (user user_str : string)
  : Eff unit :=
  if PyStr.contains "#ad" (content post) && ignore_coomer_ads config then ret tt
  else
    match py_or (published post) (added post) with
    | None => raise AttributeError              (* None.replace *)
    | Some date =>
        let date := PyStr.replace_char "T" " " date in
        let post_id := post_id post in
        let post_title := title post in
        modify (fun w =>
          set_scrape_item
            (mkScrapeItem (url (scrape_item w)) (parent_title (scrape_item w))
                          true (Some post_id)
                          (possible_datetime (scrape_item w))
                          (parents (scrape_item w))) w) ;;
        let post_title :=
          match post_title with
          | Some t => if HistoryTable.truthy t then t else "Untitled"
          | None => "Untitled"
          end in
        match file post with
        | Some f => handle_file_obj user_str post_title post_id date f
        | None => ret tt
        end ;;
        for_each (attachments post)
                 (handle_file_obj user_str post_title post_id date)
    end.

Definition handle_post_content (post : Post) (user user_str : string) : Eff unit :=
  error_handling_wrapper (handle_post_content_body post user user_str).

(** [url.parts[i]] *)
Definition part (i : nat) (u : URL) : Eff string :=
  match nth_error (parts u) i with
  | Some x => ret x
  | None => raise IndexError
  end.

Definition get_service_and_user : Eff (string * string) :=
  scrape_item <- the_scrape_item ;;
  user <- part 3 (url scrape_item) ;;
  service <- part 1 (url scrape_item) ;;
  ret (service, user).

Definition get_service_user_and_post : Eff (string * string * string) :=
  scrape_item <- the_scrape_item ;;
  user <- part 3 (url scrape_item) ;;
  service <- part 1 (url scrape_item) ;;
  post <- part 5 (url scrape_item) ;;
  ret (service, user, post).

(** [soup.select_one(selector).text] *)
Definition select_text (soup : Soup) (selector : string) : Eff string :=
  match soup selector with
  | Some t => ret t
  | None => raise AttributeError
  end.

Definition get_user_str_from_post : Eff string :=
  enter_limiter ;;
  scrape_item <- the_scrape_item ;;
  soup <- request (get_BS4 client) (url scrape_item) ;;
  select_text soup "a[class=post__user-name]".

Definition get_user_str_from_profile : Eff string :=
  enter_limiter ;;
  scrape_item <- the_scrape_item ;;
  soup <- request (get_BS4 client) (url scrape_item) ;;
  select_text soup "span[itemprop=name]".

(** The [while True] loop of [profile]; [None] when [fuel] turns do not
    reach the [break]. *)
Fixpoint profile_pages (fuel : nat) (api_call : URL) (user user_str : string)
         (offset : Z) (w : World) : option (Result Exn unit * World) :=
  match fuel with
  | O => None
  | S fuel' =>
      match (enter_limiter ;;
             request (get_json_posts client)
                     (with_query api_call [("o", str_of_int offset)])) w with
      | (Raise e, w') => Some (Raise e, w')
      | (Ok JSON_Resp, w') =>
          let offset := (offset + 50)%Z in
          match JSON_Resp with
          | [] => Some (Ok tt, w')                               (* break *)
          | _ :: _ =>
              match for_each JSON_Resp
                      (fun post => handle_post_content post user user_str) w' with
              | (Raise e, w'') => Some (Raise e, w'')
              | (Ok _, w'') => profile_pages fuel' api_call user user_str offset w''
              end
          end
      end
  end.

Definition profile_body (fuel : nat) (w : World) : option (Result Exn unit * World) :=
  let offset := 0%Z in
  match (service_user <- get_service_and_user ;;
         user_str <- get_user_str_from_profile ;;
         u <- lift (truediv api_url (fst service_user)) ;;
         u <- lift (truediv u "user") ;;
         api_call <- lift (truediv u (snd service_user)) ;;
         ret (snd service_user, user_str, api_call)) w with
  | (Raise e, w') => Some (Raise e, w')
  | (Ok (user, user_str, api_call), w') =>
      profile_pages fuel api_call user user_str offset w'
  end.

(** The error boundary around a call that may not return. *)
Definition profile (fuel : nat) (w : World) : option (Result Exn unit * World) :=
  match profile_body fuel w with
  | None => None
  | Some (Ok tt, w') => Some (Ok tt, w')
  | Some (Raise e, w') => Some (Ok tt, log_error e w')
  end.

Definition post_body : Eff unit :=
  sup <- get_service_user_and_post ;;
  let '(service, user, post_id) := sup in
  user_str <- get_user_str_from_post ;;
  u <- lift (truediv api_url service) ;;
  u <- lift (truediv u "user") ;;
  u <- lift (truediv u user) ;;
  u <- lift (truediv u "post") ;;
  api_call <- lift (truediv u post_id) ;;
  enter_limiter ;;
  post <- request (get_json_post client) api_call ;;
  handle_post_content post user user_str.

Definition post : Eff unit := error_handling_wrapper post_body.

Definition handle_direct_link_body : Eff unit :=
  scrape_item <- the_scrape_item ;;
  fe <- try_except
          (match query_get "f" (query (url scrape_item)) with
           | Some f => lift (get_filename_and_ext f)
           | None => raise (KeyError "f")
           end)
          (fun e =>
             match e with
             | KeyError _ => Some (lift (get_filename_and_ext (name (url scrape_item))))
             | _ => None
             end) ;;
  handle_file (url scrape_item) (fst fe) (snd fe).

Definition handle_direct_link : Eff unit :=
  error_handling_wrapper handle_direct_link_body.

(** [scraping_progress.add_task] and [remove_task]: a task shown under a
    fresh id, and taken away by that id. *)
Definition add_task (u : URL) : Eff nat :=
  fun w => (Ok (next_task_id w),
            mkWorld (scrape_item w) (session_cookie w) (limiter_entries w)
                    (requests w) (tasks w) (handled w)
                    (progress w ++ [(next_task_id w, u)]) (S (next_task_id w))
                    (logged w)).

Definition remove_task (task_id : nat) : Eff unit :=
  modify (fun w => mkWorld (scrape_item w) (session_cookie w) (limiter_entries w)
                           (requests w) (tasks w) (handled w)
                           (filter (fun t => negb (Nat.eqb (fst t) task_id)) (progress w))
                           (next_task_id w) (logged w)).

(** The four ways [fetch] can send a scrape item. *)
Inductive Route : Type :=
| RouteThumbnail
| RoutePost
| RouteProfile
| RouteFavorites
| RouteDirect.

(** The [if]/[elif] chain of [fetch]. *)
Definition route (u : URL) : Route :=
  if in_parts "thumbnails" u then RouteThumbnail
  else if in_parts "post" u then RoutePost
  else if in_parts "onlyfans" u || in_parts "fansly" u then RouteProfile
  else if in_parts "favorites" u then RouteFavorites
  else RouteDirect.

(** [s.partition(c)] without the separator: the text before the first
    [c], and the text after it when there is one. *)
Fixpoint partition (c : ascii) (s : string) : string * option string :=
  match s with
  | EmptyString => (EmptyString, None)
  | String a s' =>
      if Ascii.eqb a c then (EmptyString, Some s')
      else (String a (fst (partition c s')), snd (partition c s'))
  end.

(** [s.split(c)] *)
Fixpoint split_char (c : ascii) (s : string) : list string :=
  match s with
  | EmptyString => [EmptyString]
  | String a s' =>
      if Ascii.eqb a c then EmptyString :: split_char c s'
      else match split_char c s' with
           | [] => [String a EmptyString]
           | x :: rest => String a x :: rest
           end
  end.

(** The pairs of a query string [k=v&k=v]: empty fields are skipped, and
    a field without [=] has the empty value. *)
Definition parse_query (q : string) : list (string * string) :=
  map (fun f => (fst (partition "=" f),
                 match snd (partition "=" f) with
                 | Some v => v
                 | None => EmptyString
                 end))
      (filter (fun f => negb (String.eqb f "")) (split_char "&" q)).

(** [URL(f"https://{host}/{text}")]: the text is parsed, so that what
    follows the first [#] is the fragment, what follows the first [?]
    before it is the query, and the rest is the path, split at its
    slashes.  Dot segments, which yarl resolves, and [%] escapes, which it
    decodes, are not modelled. *)
Definition parse_link (host text : string) : URL :=
  let before_fragment := fst (partition "#" text) in
  let path_text := fst (partition "?" before_fragment) in
  mkURL host
        (if String.eqb path_text "" then [] else split_slash path_text)
        (match snd (partition "?" before_fragment) with
         | Some q => parse_query q
         | None => []
         end).

(** The link the thumbnail branch builds:
    [URL(f"https://{host}/{'/'.join(parts)}")] with [parts] the parts of
    the URL other than "thumbnail" and "/".  The parts, which are decoded
    text, are written into a string that is parsed again. *)
Definition thumbnail_link (u : URL) : URL :=
  parse_link (host u)
    (PyStr.join "/"
       (filter (fun x => negb (existsb (String.eqb x) ["thumbnail"; "/"])) (parts u))).

Definition some_result (r : Result Exn unit * World)
  : option (Result Exn unit * World) := Some r.

Definition fetch (fuel : nat) (w : World) : option (Result Exn unit * World) :=
  match (scrape_item <- the_scrape_item ;; add_task (url scrape_item)) w with
  | (Raise e, w') => Some (Raise e, w')
  | (Ok task_id, w1) =>
      let dispatched :=
        match route (url (scrape_item w1)) with
        | RouteThumbnail =>
            let link := thumbnail_link (url (scrape_item w1)) in
            let w2 := set_scrape_item
                        (mkScrapeItem link (parent_title (scrape_item w1))
                                      (part_of_album (scrape_item w1))
                                      (album_id (scrape_item w1))
                                      (possible_datetime (scrape_item w1))
                                      (parents (scrape_item w1))) w1 in
            some_result (handle_direct_link w2)
        | RoutePost => some_result (post w1)
        | RouteProfile => profile fuel w1
        | RouteFavorites => some_result (favorites w1)
        | RouteDirect => some_result (handle_direct_link w1)
        end in
      match dispatched with
      | None => None
      | Some (Raise e, w3) => Some (Raise e, w3)
      | Some (Ok _, w3) => Some (remove_task task_id w3)
      end
  end.

End Crawler.

End CoomerCrawler.

(** ** The content hasher ([hash_manager.py]) *)

Module HashManager.

(** What opening a file can raise. *)
Inductive Exn : Type :=
| FileNotFoundError
| PermissionError
| IsADirectoryError.

(** The files on disk at the time of a call: what opening a path for
    reading gives. *)
Definition FileSystem : Type := string -> Result Exn (list Byte.byte).

(** An incremental hash, as [hashlib] offers it: [hashlib.blake2b()],
    [update] and [hexdigest]. *)
Record Hasher : Type := mkHasher {
  hash_state : Type;
  new : hash_state;
  update : hash_state -> list Byte.byte -> hash_state;
  hexdigest : hash_state -> string
}.

(** [os.path.join(a, b)] on a POSIX system. *)
Definition ends_with_slash (s : string) : bool :=
  match String.get (String.length s - 1) s with
  | Some c => Ascii.eqb c "/"
  | None => false
  end.

Definition os_path_join (a b : string) : string :=
  if PyStr.startswith "/" b then b
  else if negb (HistoryTable.truthy a) || ends_with_slash a then (a ++ b)%string
  else (a ++ "/" ++ b)%string.

(** [fp.read(n)]: the next [n] bytes at most, and what is left after
    them. *)
Fixpoint take (n : N) (l : list Byte.byte) : list Byte.byte :=
  match l with
  | [] => []
  | x :: rest => if N.eqb n 0 then [] else x :: take (N.pred n) rest
  end.

Fixpoint drop (n : N) (l : list Byte.byte) : list Byte.byte :=
  match l with
  | [] => []
  | x :: rest => if N.eqb n 0 then l else drop (N.pred n) rest
  end.

Definition CHUNK_SIZE : N := 1024 * 1024.

Lemma take_drop_length n l :
  List.length (take n l) + List.length (drop n l) = List.length l.
Proof.
  revert n; induction l as [|x l IH]; intros n; simpl; [reflexivity|].
  destruct (N.eqb n 0); simpl; [reflexivity|]. now rewrite IH.
Qed.

Section Hashing.

Variable hasher : Hasher.

(** The [while filedata:] loop: [filedata] is the chunk just read, [rest]
    what the file still holds. *)
Equations? hash_loop (chunk : N) (h : hash_state hasher)
           (filedata rest : list Byte.byte) : hash_state hasher
  by wf (List.length filedata + List.length rest) lt :=
  hash_loop chunk h [] rest := h;
  hash_loop chunk h (b :: bs) rest :=
    hash_loop chunk (update hasher h (b :: bs)) (take chunk rest) (drop chunk rest).
Proof.
  rewrite take_drop_length. simpl. lia.
Qed.

Definition hash_file (fs : FileSystem) (cwd filename : string)
  : Result Exn string :=
  let file_path := os_path_join cwd filename in
  match fs file_path with
  | Raise e => Raise e
  | Ok bytes =>
      let filedata := take CHUNK_SIZE bytes in
      let h := new hasher in
      Ok (hexdigest hasher
            (hash_loop CHUNK_SIZE h filedata (drop CHUNK_SIZE bytes)))
  end.

End Hashing.

End HashManager.

(** * Properties *)

(** ** Sequencing *)

Module EffFacts.

Lemma bind_ok {S E A B} (m : M S E A) (k : A -> M S E B) s a s' :
  m s = (Ok a, s') -> bind m k s = k a s'.
Proof. intros H. unfold bind. now rewrite H. Qed.

Lemma bind_raise {S E A B} (m : M S E A) (k : A -> M S E B) s e s' :
  m s = (Raise e, s') -> bind m k s = (Raise e, s').
Proof. intros H. unfold bind. now rewrite H. Qed.

End EffFacts.

(** ** Python string operations *)

Module PyStrFacts.
Import PyStr.

Lemma startswith_app sub post : startswith sub (sub ++ post) = true.
Proof.
  induction sub as [|a sub IH]; simpl; [reflexivity|].
  now rewrite Ascii.eqb_refl, IH.
Qed.

Lemma startswith_inv sub s :
  startswith sub s = true -> exists post, s = (sub ++ post)%string.
Proof.
  revert s; induction sub as [|a sub IH]; intros s H; simpl in *.
  - now exists s.
  - destruct s as [|b s]; [discriminate|].
    apply andb_true_iff in H as [Hab Hs].
    apply Ascii.eqb_eq in Hab; subst b.
    destruct (IH _ Hs) as [post ->]. now exists post.
Qed.

Lemma contains_startswith sub s : startswith sub s = true -> contains sub s = true.
Proof. intros H. destruct s; simpl; rewrite H; reflexivity. Qed.

Lemma contains_app sub pre post : contains sub (pre ++ sub ++ post) = true.
Proof.
  induction pre as [|c pre IH].
  - change (contains sub (sub ++ post) = true).
    apply contains_startswith, startswith_app.
  - change (contains sub (String c (pre ++ sub ++ post)) = true).
    simpl. rewrite IH. apply orb_true_r.
Qed.

Lemma contains_inv sub s :
  contains sub s = true -> exists pre post, s = (pre ++ sub ++ post)%string.
Proof.
  induction s as [|c s IH]; simpl; intros H.
  - rewrite orb_false_r in H. apply startswith_inv in H as [post ->].
    now exists EmptyString, post.
  - apply orb_true_iff in H as [H|H].
    + apply startswith_inv in H as [post ->]. now exists EmptyString, post.
    + destruct (IH H) as (pre & post & ->). now exists (String c pre), post.
Qed.

Lemma contains_false_startswith sub s :
  contains sub s = false -> startswith sub s = false.
Proof.
  destruct s; simpl; intros H; apply orb_false_iff in H; tauto.
Qed.

(** Without the separator, [split] returns the string whole. *)
Lemma split_head_absent sep s : contains sep s = false -> split_head sep s = s.
Proof.
  induction s as [|c s IH]; simpl; intros H.
  - now destruct (startswith sep EmptyString).
  - apply orb_false_iff in H as [H1 H2]. rewrite H1, (IH H2). reflexivity.
Qed.

(** With it, the head is what precedes an occurrence of the separator. *)
Lemma split_head_present sep s :
  contains sep s = true ->
  exists post, s = (split_head sep s ++ sep ++ post)%string.
Proof.
  induction s as [|c s IH]; simpl; intros H.
  - rewrite orb_false_r in H. rewrite H. now apply startswith_inv in H.
  - destruct (startswith sep (String c s)) eqn:E.
    + now apply startswith_inv in E.
    + simpl in H. destruct (IH H) as [post Hp]. exists post.
      simpl. now rewrite <- Hp.
Qed.

(** ... and that occurrence is the first one. *)
Lemma split_head_first sep s pre post :
  s = (pre ++ sep ++ post)%string ->
  String.length (split_head sep s) <= String.length pre.
Proof.
  revert s; induction pre as [|c pre IH]; intros s ->.
  - change (EmptyString ++ sep ++ post)%string with (sep ++ post)%string.
    assert (E : split_head sep (sep ++ post) = EmptyString).
    { pose proof (startswith_app sep post) as H.
      destruct (sep ++ post)%string; simpl; rewrite H; reflexivity. }
    rewrite E. simpl. lia.
  - change (String c pre ++ sep ++ post)%string
      with (String c (pre ++ sep ++ post)).
    simpl split_head.
    destruct (startswith sep (String c (pre ++ sep ++ post))); simpl; [lia|].
    specialize (IH _ eq_refl). lia.
Qed.

Lemma drop_last_snoc s c : drop_last (s ++ String c EmptyString) = s.
Proof.
  induction s as [|a s IH]; simpl; [reflexivity|].
  rewrite IH. destruct s; reflexivity.
Qed.

(** [s[:-1]] of a non-empty string is the string without its last
    character. *)
Lemma drop_last_nonempty s :
  s <> EmptyString ->
  exists c, s = (drop_last s ++ String c EmptyString)%string.
Proof.
  induction s as [|a s IH]; intros H; [congruence|].
  destruct s as [|b s].
  - now exists a.
  - destruct IH as [c Hc]; [discriminate|]. exists c.
    change (drop_last (String a (String b s))) with (String a (drop_last (String b s))).
    change (String a (drop_last (String b s)) ++ String c EmptyString)%string
      with (String a (drop_last (String b s) ++ String c EmptyString)).
    now rewrite <- Hc.
Qed.

Lemma length_append (a b : string) :
  String.length (a ++ b) = String.length a + String.length b.
Proof. induction a; simpl; congruence. Qed.

Lemma drop_last_shorter s : s <> EmptyString -> drop_last s <> s.
Proof.
  intros H E. destruct (drop_last_nonempty s H) as [c Hc].
  rewrite E in Hc. apply (f_equal String.length) in Hc.
  rewrite length_append in Hc. simpl in Hc. lia.
Qed.

End PyStrFacts.

(** ** The completion ledger *)

Module HistoryTableFacts.
Import HistoryTable EffFacts.

(** *** Values, cells and collisions *)

Lemma Value_eqb_eq a b : Value_eqb a b = true <-> a = b.
Proof.
  destruct a, b; simpl; split; intros H; try congruence; try discriminate.
  - apply Z.eqb_eq in H. congruence.
  - injection H as ->. apply Z.eqb_refl.
  - apply String.eqb_eq in H. congruence.
  - injection H as ->. apply String.eqb_refl.
Qed.

Lemma Value_eqb_refl a : Value_eqb a a = true.
Proof. now apply Value_eqb_eq. Qed.

Lemma Value_eqb_sym a b : Value_eqb a b = Value_eqb b a.
Proof.
  destruct (Value_eqb a b) eqn:E.
  - apply Value_eqb_eq in E. subst. symmetry. apply Value_eqb_refl.
  - destruct (Value_eqb b a) eqn:E'; [|reflexivity].
    apply Value_eqb_eq in E'. subst. now rewrite Value_eqb_refl in E.
Qed.

Lemma Col_eqb_eq a b : Col_eqb a b = true <-> a = b.
Proof. destruct a, b; simpl; split; intros H; congruence. Qed.

Lemma Col_eqb_refl a : Col_eqb a a = true.
Proof. now destruct a. Qed.

Lemma sql_eq_text_iff v s : sql_eq_text v s = true <-> v = VText s.
Proof.
  destruct v; simpl; split; intros H; try discriminate.
  - apply String.eqb_eq in H. congruence.
  - injection H as ->. apply String.eqb_refl.
Qed.

Lemma sql_eq_int_iff v n : sql_eq_int v n = true <-> v = VInt n.
Proof.
  destruct v; simpl; split; intros H; try discriminate.
  - apply Z.eqb_eq in H. congruence.
  - injection H as ->. apply Z.eqb_refl.
Qed.

Lemma uniq_eqb_sym a b : uniq_eqb a b = uniq_eqb b a.
Proof.
  destruct a, b; simpl; try reflexivity.
  - apply Z.eqb_sym.
  - apply String.eqb_sym.
Qed.

Lemma cell_set_cell_same c v r : cell c (set_cell c v r) = v.
Proof. now destruct c. Qed.

Lemma cell_set_cell_other c c' v r :
  c <> c' -> cell c (set_cell c' v r) = cell c r.
Proof. destruct c, c'; intros H; try reflexivity; congruence. Qed.

Lemma row_ext r1 r2 : (forall c, cell c r1 = cell c r2) -> r1 = r2.
Proof.
  intros H. destruct r1, r2.
  pose proof (H Domain); pose proof (H UrlPath); pose proof (H Referer);
  pose proof (H AlbumId); pose proof (H DownloadPath);
  pose proof (H DownloadFilename); pose proof (H OriginalFilename);
  pose proof (H Completed); pose proof (H CreatedAt);
  pose proof (H CompletedAt); pose proof (H FileSize).
  simpl in *. congruence.
Qed.

Lemma set_cell_id c r : set_cell c (cell c r) r = r.
Proof. destruct c, r; reflexivity. Qed.

Lemma set_cell_comm c1 c2 v1 v2 r :
  c1 <> c2 ->
  set_cell c1 v1 (set_cell c2 v2 r) = set_cell c2 v2 (set_cell c1 v1 r).
Proof. destruct c1, c2; intros H; try reflexivity; congruence. Qed.

Lemma set_cell_twice c v1 v2 r :
  set_cell c v1 (set_cell c v2 r) = set_cell c v1 r.
Proof. now destruct c. Qed.

Lemma forallb_ext_in {A} (f g : A -> bool) l :
  (forall x, In x l -> f x = g x) -> forallb f l = forallb g l.
Proof.
  induction l as [|a l IH]; simpl; intros H; [reflexivity|].
  rewrite (H a), IH; auto.
Qed.

Lemma conflicts_sym pk a b : conflicts pk a b = conflicts pk b a.
Proof.
  unfold conflicts. destruct pk; [reflexivity|].
  apply forallb_ext_in. intros; apply uniq_eqb_sym.
Qed.

(** Collisions depend on the key columns only. *)
Lemma conflicts_cells pk a a' b :
  (forall c, In c pk -> cell c a = cell c a') ->
  conflicts pk a b = conflicts pk a' b.
Proof.
  intros H. unfold conflicts. destruct pk as [|k pk]; [reflexivity|].
  apply forallb_ext_in. intros c Hc. now rewrite (H c Hc).
Qed.

Lemma conflicts_cells_r pk a b b' :
  (forall c, In c pk -> cell c b = cell c b') ->
  conflicts pk a b = conflicts pk a b'.
Proof.
  intros H. rewrite (conflicts_sym pk a b), (conflicts_sym pk a b').
  now apply conflicts_cells.
Qed.

Lemma table_eta t : mkTable (cols t) (pk_cols t) (rows t) = t.
Proof. now destruct t. Qed.

Lemma set_media_id s : set_media (media (db_conn s)) s = s.
Proof. destruct s as [[m c h] i]; reflexivity. Qed.

(** *** Uniqueness of rows *)

Lemma existsb_false_In {A} (f : A -> bool) l x :
  existsb f l = false -> In x l -> f x = false.
Proof.
  intros H Hx. destruct (f x) eqn:E; [|reflexivity].
  assert (existsb f l = true) by (apply existsb_exists; eauto). congruence.
Qed.

Lemma unique_rows_app pk l1 l2 :
  unique_rows pk (l1 ++ l2) <->
  unique_rows pk l1 /\ unique_rows pk l2 /\
  (forall a b, In a l1 -> In b l2 -> conflicts pk a b = false).
Proof.
  induction l1 as [|r l1 IH]; simpl.
  - split.
    + intros H. repeat split; auto. intros a b [].
    + intros (_ & H & _). exact H.
  - rewrite IH. split.
    + intros (Hr & H1 & H2 & H12). repeat split; auto.
      * intros x Hx. apply Hr, in_or_app. now left.
      * intros a b [<-|Ha] Hb; [apply Hr, in_or_app; now right | now apply H12].
    + intros ((Hr & H1) & H2 & H12). repeat split; auto.
      intros x Hx. apply in_app_or in Hx as [Hx|Hx]; [now apply Hr | apply H12; auto].
Qed.

Lemma unique_rows_filter pk p l :
  unique_rows pk l -> unique_rows pk (filter p l).
Proof.
  induction l as [|a l IH]; simpl; [auto|]. intros [Hr H].
  destruct (p a); simpl; auto. split; auto.
  intros x Hx. apply filter_In in Hx as [Hx _]. auto.
Qed.

Lemma unique_rows_map pk g l :
  (forall r c, In c pk -> cell c (g r) = cell c r) ->
  unique_rows pk l -> unique_rows pk (map g l).
Proof.
  intros Hg. induction l as [|a l IH]; simpl; [auto|]. intros [Hr H].
  split; auto. intros x Hx. apply in_map_iff in Hx as (y & <- & Hy).
  rewrite (conflicts_cells pk (g a) a), (conflicts_cells_r pk a (g y) y); auto.
Qed.

(** Two rows of a well-formed table that collide are one and the same. *)
Lemma unique_rows_same pk l a b :
  unique_rows pk l -> In a l -> In b l -> conflicts pk a b = true -> a = b.
Proof.
  induction l as [|r l IH]; simpl; [tauto|].
  intros [Hr H] [<-|Ha] [<-|Hb] Hc; auto.
  - rewrite Hr in Hc; [discriminate | auto].
  - rewrite conflicts_sym, Hr in Hc; [discriminate | auto].
Qed.

Lemma unique_rows_snoc pk l r :
  unique_rows pk l -> existsb (conflicts pk r) l = false ->
  unique_rows pk (l ++ [r]).
Proof.
  intros Hu He. apply unique_rows_app. split; [exact Hu|]. split.
  - simpl. split; [intros x []|exact I].
  - intros a b Ha [<-|[]]. rewrite conflicts_sym.
    now apply (existsb_false_In _ l).
Qed.

(** *** UPDATE *)

(** What an UPDATE makes of one row. *)
Definition upd (p : Row -> bool) (f : Row -> Row) (r : Row) : Row :=
  if p r then f r else r.

Lemma update_rows_Some pk p f todo : forall done rs,
  update_rows pk p f done todo = Some rs ->
  rs = done ++ map (upd p f) todo.
Proof.
  induction todo as [|r rest IH]; simpl; intros done rs H.
  - injection H as <-. now rewrite app_nil_r.
  - unfold upd at 1. destruct (p r).
    + destruct (existsb _ _); [discriminate|].
      rewrite (IH _ _ H), <- app_assoc. reflexivity.
    + rewrite (IH _ _ H), <- app_assoc. reflexivity.
Qed.

(** An UPDATE that goes through leaves the table well formed. *)
Lemma update_rows_unique pk p f todo : forall done rs,
  unique_rows pk (done ++ todo) ->
  update_rows pk p f done todo = Some rs ->
  unique_rows pk rs.
Proof.
  induction todo as [|r rest IH]; simpl; intros done rs Hu H.
  - injection H as <-. now rewrite app_nil_r in Hu.
  - apply unique_rows_app in Hu as (H1 & [Hr H2] & H12).
    destruct (p r) eqn:Hp.
    + destruct (existsb (conflicts pk (f r)) (done ++ rest)) eqn:He; [discriminate|].
      apply (IH (done ++ [f r])); auto.
      rewrite <- app_assoc. simpl.
      apply unique_rows_app. repeat split; auto.
      * intros x Hx. apply (existsb_false_In _ _ _ He), in_or_app. now right.
      * intros a b Ha [<-|Hb].
        -- rewrite conflicts_sym.
           apply (existsb_false_In _ _ _ He), in_or_app. now left.
        -- apply H12; simpl; auto.
    + apply (IH (done ++ [r])); auto.
      rewrite <- app_assoc. simpl.
      apply unique_rows_app. repeat split; auto.
Qed.

(** An UPDATE that leaves the key of the rows it changes as it was goes
    through on a well-formed table. *)
Lemma update_rows_total pk p f todo : forall done,
  (forall r c, In r todo -> p r = true -> In c pk -> cell c (f r) = cell c r) ->
  unique_rows pk (done ++ todo) ->
  update_rows pk p f done todo = Some (done ++ map (upd p f) todo).
Proof.
  induction todo as [|r rest IH]; simpl; intros done Hf Hu.
  - now rewrite app_nil_r.
  - pose proof Hu as Hu0.
    apply unique_rows_app in Hu as (H1 & [Hr H2] & H12).
    unfold upd at 1. destruct (p r) eqn:Hp.
    + assert (Hc : forall x, conflicts pk (f r) x = conflicts pk r x).
      { intros x. apply conflicts_cells. intros c Hc. apply Hf; simpl; auto. }
      assert (He : existsb (conflicts pk (f r)) (done ++ rest) = false).
      { destruct (existsb _ _) eqn:E; [|reflexivity].
        apply existsb_exists in E as (x & Hx & Hcx). rewrite Hc in Hcx.
        apply in_app_or in Hx as [Hx|Hx].
        - rewrite conflicts_sym, H12 in Hcx; simpl; auto; discriminate.
        - rewrite Hr in Hcx; auto; discriminate. }
      rewrite He, IH.
      * now rewrite <- app_assoc.
      * intros; apply Hf; simpl; auto.
      * rewrite <- app_assoc. simpl.
        apply unique_rows_app. repeat split; auto.
        -- intros x Hx. rewrite Hc. auto.
        -- intros a b Ha [<-|Hb].
           ++ rewrite conflicts_sym, Hc, conflicts_sym. apply H12; simpl; auto.
           ++ apply H12; simpl; auto.
    + rewrite IH.
      * now rewrite <- app_assoc.
      * intros; apply Hf; simpl; auto.
      * now rewrite <- app_assoc.
Qed.

Lemma map_upd_id p f l :
  (forall r, In r l -> p r = true -> f r = r) -> map (upd p f) l = l.
Proof.
  intros H. rewrite <- (map_id l) at 2. apply map_ext_in.
  intros r Hr. unfold upd. destruct (p r) eqn:E; auto.
Qed.

(** *** The state of the ledger *)

Lemma media_set_media t s : media (db_conn (set_media t s)) = t.
Proof. reflexivity. Qed.

Lemma set_media_set_media t1 t2 s :
  set_media t2 (set_media t1 s) = set_media t2 s.
Proof. reflexivity. Qed.

Lemma ignore_history_set_media t s :
  ignore_history (set_media t s) = ignore_history s.
Proof. reflexivity. Qed.

(** *** The key of the ledger *)

(** The key of the current table, one record per file of a page: line
    260 of [fix_primary_keys] fills the table from one row per (domain,
    url_path, original_filename) by a plain INSERT. *)
Definition file_key : list Col := [Domain; UrlPath; OriginalFilename].

Definition pair_key : list Col := [Domain; UrlPath].

(** The primary keys the lemmas below cover: (domain, url_path), with or
    without original_filename. *)
Definition ledger_key (pk : list Col) : Prop :=
  In Domain pk /\ In UrlPath pk /\ incl pk file_key.

Lemma ledger_key_file : ledger_key file_key.
Proof. unfold ledger_key, file_key. cbn. intuition auto. apply incl_refl. Qed.

Lemma ledger_key_pair : ledger_key pair_key.
Proof.
  unfold ledger_key, pair_key, file_key. cbn. intuition auto.
  intros c [<-|[<-|[]]]; cbn; auto.
Qed.

Lemma ledger_key_nonempty pk : ledger_key pk -> pk <> [].
Proof. intros (H & _) ->. destruct H. Qed.

Lemma ledger_key_other pk c :
  ledger_key pk -> c <> Domain -> c <> UrlPath -> c <> OriginalFilename ->
  ~ In c pk.
Proof.
  intros (_ & _ & H) H1 H2 H3 Hc. apply H in Hc.
  destruct Hc as [<-|[<-|[<-|[]]]]; congruence.
Qed.

Lemma touches_pk_false assigned pk :
  (forall c, In c assigned -> ~ In c pk) -> touches_pk assigned pk = false.
Proof.
  intros H. unfold touches_pk.
  destruct (existsb _ assigned) eqn:E; [|reflexivity].
  apply existsb_exists in E as (c & Hc & E).
  apply existsb_exists in E as (k & Hk & E). apply Col_eqb_eq in E. subst k.
  now destruct (H c Hc).
Qed.

Lemma touches_pk_true assigned pk c :
  In c assigned -> In c pk -> touches_pk assigned pk = true.
Proof.
  intros Ha Hp. unfold touches_pk. apply existsb_exists. exists c. split; auto.
  apply existsb_exists. exists c. split; auto. apply Col_eqb_refl.
Qed.

(** An UPDATE of columns outside the key. *)
Ltac solve_nonkey Hk :=
  apply touches_pk_false;
  let c := fresh "c" in
  let Hc := fresh "Hc" in
  intros c Hc; cbn [In] in Hc;
  repeat (destruct Hc as [<-|Hc];
          [apply (ledger_key_other _ _ Hk); discriminate|]);
  destruct Hc.

Lemma conflicts_true_iff pk a b :
  pk <> [] ->
  (conflicts pk a b = true <->
   forall c, In c pk -> uniq_eqb (cell c a) (cell c b) = true).
Proof.
  intros H. unfold conflicts. destruct pk; [congruence|]. apply forallb_forall.
Qed.

Lemma uniq_eqb_text s v : uniq_eqb (VText s) v = true <-> v = VText s.
Proof.
  destruct v; cbn; split; intros H; try discriminate.
  - apply String.eqb_eq in H. congruence.
  - injection H as ->. apply String.eqb_refl.
Qed.

Lemma at_key_iff d p r :
  at_key d p r = true <-> domain r = VText d /\ url_path r = VText p.
Proof.
  unfold at_key. rewrite andb_true_iff, !sql_eq_text_iff. reflexivity.
Qed.

Lemma at_key_cells d p r r' :
  cell Domain r' = cell Domain r -> cell UrlPath r' = cell UrlPath r ->
  at_key d p r' = at_key d p r.
Proof. unfold at_key. now intros -> ->. Qed.

Lemma conflicts_at_key pk d p a b :
  In Domain pk -> In UrlPath pk ->
  conflicts pk a b = true -> at_key d p a = true -> at_key d p b = true.
Proof.
  intros HD HP Hc Ha.
  assert (Hne : pk <> []) by (intros ->; destruct HD).
  rewrite (conflicts_true_iff pk a b Hne) in Hc.
  apply at_key_iff in Ha as [Ha1 Ha2]. apply at_key_iff.
  pose proof (Hc Domain HD) as H1. pose proof (Hc UrlPath HP) as H2.
  cbn [cell] in H1, H2. rewrite Ha1 in H1. rewrite Ha2 in H2.
  apply uniq_eqb_text in H1, H2. now split.
Qed.

(** The rows under the key of a file: stored under [(d, p)] and, where
    the key holds that column, with the original filename [o]. *)
Definition keyed_as (pk : list Col) (d p o : string) (r : Row) : bool :=
  at_key d p r &&
  (negb (existsb (Col_eqb OriginalFilename) pk) ||
   sql_eq_text (cell OriginalFilename r) o).

Lemma existsb_Col_eqb_iff c pk : existsb (Col_eqb c) pk = true <-> In c pk.
Proof.
  rewrite existsb_exists. split.
  - intros (k & Hk & E). apply Col_eqb_eq in E. now subst.
  - intros H. exists c. split; auto. apply Col_eqb_refl.
Qed.

Lemma keyed_as_iff pk d p o r :
  keyed_as pk d p o r = true <->
  at_key d p r = true /\
  (In OriginalFilename pk -> original_filename r = VText o).
Proof.
  unfold keyed_as. rewrite andb_true_iff, orb_true_iff, negb_true_iff.
  rewrite sql_eq_text_iff. split; intros [K H]; split; auto.
  - intros Hin. destruct H as [H|H]; [|exact H].
    apply existsb_Col_eqb_iff in Hin. congruence.
  - destruct (existsb (Col_eqb OriginalFilename) pk) eqn:E; [|now left].
    right. apply H. now apply existsb_Col_eqb_iff.
Qed.

Lemma keyed_as_at_key pk d p o r : keyed_as pk d p o r = true -> at_key d p r = true.
Proof. intros H. now apply keyed_as_iff in H. Qed.

Lemma keyed_as_cells pk d p o r r' :
  cell Domain r' = cell Domain r -> cell UrlPath r' = cell UrlPath r ->
  cell OriginalFilename r' = cell OriginalFilename r ->
  keyed_as pk d p o r' = keyed_as pk d p o r.
Proof.
  intros H1 H2 H3. unfold keyed_as. rewrite (at_key_cells d p r r' H1 H2).
  now rewrite H3.
Qed.

(** Under such a key, two rows of one file collide. *)
Lemma keyed_as_collide pk d p o a b :
  ledger_key pk ->
  keyed_as pk d p o a = true -> keyed_as pk d p o b = true ->
  conflicts pk a b = true.
Proof.
  intros Hk Ha Hb. apply conflicts_true_iff; [now apply ledger_key_nonempty|].
  apply keyed_as_iff in Ha as [Ka Oa]. apply keyed_as_iff in Hb as [Kb Ob].
  apply at_key_iff in Ka as [Da Pa]. apply at_key_iff in Kb as [Db Pb].
  intros c Hc. destruct Hk as (_ & _ & Hincl). pose proof (Hincl c Hc) as Hcases.
  destruct Hcases as [<-|[<-|[<-|[]]]]; cbn [cell].
  - rewrite Da, Db. now apply uniq_eqb_text.
  - rewrite Pa, Pb. now apply uniq_eqb_text.
  - rewrite (Oa Hc), (Ob Hc). now apply uniq_eqb_text.
Qed.

(** A well-formed table holds at most one row per file. *)
Lemma keyed_as_unique pk d p o l a b :
  ledger_key pk -> unique_rows pk l -> In a l -> In b l ->
  keyed_as pk d p o a = true -> keyed_as pk d p o b = true -> a = b.
Proof.
  intros Hk Hu Ha Hb Ka Kb.
  apply (unique_rows_same pk l); auto. now apply (keyed_as_collide pk d p o).
Qed.

Lemma filter_keyed_one pk d p o l r :
  ledger_key pk -> unique_rows pk l -> In r l -> keyed_as pk d p o r = true ->
  filter (keyed_as pk d p o) l = [r].
Proof.
  intros Hk. induction l as [|x l IH]; cbn [unique_rows filter In]; [tauto|].
  intros [Hx Hu] Hin Kr. destruct Hin as [->|Hin].
  - rewrite Kr. f_equal.
    destruct (filter (keyed_as pk d p o) l) as [|y ys] eqn:E; [reflexivity|].
    assert (Hy : In y (filter (keyed_as pk d p o) l)) by (rewrite E; now left).
    apply filter_In in Hy as [Hy Ky].
    pose proof (keyed_as_collide pk d p o r y Hk Kr Ky) as Hc.
    rewrite (Hx y Hy) in Hc. discriminate.
  - destruct (keyed_as pk d p o x) eqn:Kx.
    + pose proof (keyed_as_collide pk d p o x r Hk Kx Kr) as Hc.
      rewrite (Hx r Hin) in Hc. discriminate.
    + now apply IH.
Qed.

(** *** The order of a result *)

Lemma insert_by_key_perm pk r l : Permutation (r :: l) (insert_by_key pk r l).
Proof.
  induction l as [|x l IH]; cbn [insert_by_key]; [reflexivity|].
  destruct (key_compare pk r x); try reflexivity.
  rewrite perm_swap. now apply perm_skip.
Qed.

Lemma in_key_order_perm pk l : Permutation l (in_key_order pk l).
Proof.
  induction l as [|r l IH]; cbn [in_key_order fold_right]; [reflexivity|].
  rewrite <- insert_by_key_perm. now apply perm_skip.
Qed.

(** Whatever the way SQLite answers, the result holds the matching rows,
    each once. *)
Lemma select_by_perm fixed p t :
  Permutation (select_where p t) (select_by fixed p t).
Proof.
  unfold select_by. destruct (pk_cols t) as [|c pk]; [reflexivity|].
  destruct (existsb (Col_eqb c) fixed); [apply in_key_order_perm | reflexivity].
Qed.

Lemma select_by_nil fixed p t : select_where p t = [] -> select_by fixed p t = [].
Proof.
  intros E. apply Permutation_nil. rewrite <- E. apply select_by_perm.
Qed.

Lemma select_by_one fixed p t r :
  select_where p t = [r] -> select_by fixed p t = [r].
Proof.
  intros E. apply Permutation_length_1_inv. rewrite <- E. apply select_by_perm.
Qed.

Lemma select_by_In fixed p t r :
  In r (select_by fixed p t) <-> In r (rows t) /\ p r = true.
Proof.
  unfold select_where. rewrite <- filter_In. split; intros H.
  - eapply Permutation_in; [|exact H]. symmetry. apply select_by_perm.
  - eapply Permutation_in; [|exact H]. apply select_by_perm.
Qed.

(** The row [fetchone] gives is one of the matching rows, and there is
    one as soon as a row matches. *)
Lemma fetchone_select_by fixed p t :
  match fetchone (select_by fixed p t) with
  | Some r => In r (rows t) /\ p r = true
  | None => select_where p t = []
  end.
Proof.
  destruct (select_by fixed p t) as [|r l] eqn:E; cbn [fetchone hd_error].
  - apply Permutation_nil. rewrite <- E. symmetry. apply select_by_perm.
  - apply (select_by_In fixed). rewrite E. now left.
Qed.

(** *** Running statements *)

Lemma execute_ok stmt s t :
  stmt (media (db_conn s)) = Ok t -> execute stmt s = (Ok tt, set_media t s).
Proof. intros H. unfold execute. now rewrite H. Qed.

Lemma update_where_nonkey assigned p f t :
  touches_pk assigned (pk_cols t) = false ->
  update_where assigned p f t =
  Ok (mkTable (cols t) (pk_cols t) (map (upd p f) (rows t))).
Proof. intros H. unfold update_where. now rewrite H. Qed.

(** An UPDATE whose WHERE clause matches no row. *)
Lemma update_rows_pass pk p f l : forall done,
  (forall x, In x l -> p x = false) ->
  update_rows pk p f done l = Some (done ++ l).
Proof.
  induction l as [|x l IH]; intros done H; cbn [update_rows].
  - now rewrite app_nil_r.
  - rewrite (H x) by now left. rewrite IH by (intros; apply H; now right).
    now rewrite <- app_assoc.
Qed.

(** The table after an UPDATE of columns outside the key. *)
Definition updated (p : Row -> bool) (f : Row -> Row) (t : Table) : Table :=
  mkTable (cols t) (pk_cols t) (map (upd p f) (rows t)).

Lemma records_at_updated d p f s :
  (forall r, cell Domain (f r) = cell Domain r) ->
  (forall r, cell UrlPath (f r) = cell UrlPath r) ->
  records_at d p (set_media (updated (at_key d p) f (media (db_conn s))) s)
  = map f (records_at d p s).
Proof.
  intros HD HP. unfold records_at, select_where. rewrite media_set_media.
  cbn [updated rows]. induction (rows (media (db_conn s))) as [|x l IH];
    [reflexivity|].
  cbn [map filter]. unfold upd at 1. destruct (at_key d p x) eqn:K.
  - rewrite (at_key_cells d p x (f x) (HD x) (HP x)), K. cbn [map].
    f_equal; [unfold upd; now rewrite K | exact IH].
  - rewrite K. exact IH.
Qed.

Lemma updated_keeps_others d p f t x :
  In x (rows t) -> at_key d p x = false -> In x (rows (updated (at_key d p) f t)).
Proof.
  intros Hx K. cbn [updated rows]. apply in_map_iff. exists x. split; auto.
  unfold upd. now rewrite K.
Qed.

(** *** insert_incompleted, statement by statement *)

(** WHERE domain = 'no_crawler' and url_path = ? and referer = ? *)
Definition placeholder_for (p ref : string) (r : Row) : bool :=
  sql_eq_text (cell Domain r) "no_crawler" &&
  sql_eq_text (cell UrlPath r) p &&
  sql_eq_text (cell Referer r) ref.

(** WHERE domain = 'no_crawler' and url_path = ? *)
Definition placeholder_at (p : string) (r : Row) : bool :=
  sql_eq_text (cell Domain r) "no_crawler" && sql_eq_text (cell UrlPath r) p.

(** SET domain = ?, album_id = ? *)
Definition adopt (d : string) (album : option string) (r : Row) : Row :=
  set_cell AlbumId (bind_opt album) (set_cell Domain (VText d) r).

Definition filename_of (item : MediaItem.t) : string :=
  match MediaItem.download_filename item with
  | Some s => s
  | None => ""
  end.

(** The table after the first statement of [insert_incompleted] and its
    handler. *)
Definition adopted (d p : string) (item : MediaItem.t) (t : Table) : Table :=
  match update_rows (pk_cols t)
                    (placeholder_for p (MediaItem.referer item))
                    (adopt d (MediaItem.album_id item)) [] (rows t) with
  | Some rs => mkTable (cols t) (pk_cols t) rs
  | None => delete_where (placeholder_at p) t
  end.

(** The table [insert_incompleted] leaves. *)
Definition inserted (now d p : string) (item : MediaItem.t) (t : Table) : Table :=
  let t2 := insert_or_ignore (incompleted_row now d p (filename_of item) item)
                             (adopted d p item t) in
  mkTable (cols t2) (pk_cols t2)
          (map (upd (at_key d p) (set_cell DownloadFilename (VText (filename_of item))))
               (rows t2)).

Lemma pk_cols_adopted d p item t : pk_cols (adopted d p item t) = pk_cols t.
Proof. unfold adopted. now destruct (update_rows _ _ _ _ _). Qed.

Lemma pk_cols_insert_or_ignore r t : pk_cols (insert_or_ignore r t) = pk_cols t.
Proof. unfold insert_or_ignore. now destruct (existsb _ _). Qed.

Lemma pk_cols_inserted now d p item t : pk_cols (inserted now d p item t) = pk_cols t.
Proof.
  unfold inserted. cbn [pk_cols]. now rewrite pk_cols_insert_or_ignore, pk_cols_adopted.
Qed.

Lemma adopt_run d p item s :
  In Domain (pk_cols (media (db_conn s))) ->
  try_except
    (execute (update_where [Domain; AlbumId]
       (fun r => sql_eq_text (cell Domain r) "no_crawler" &&
                 sql_eq_text (cell UrlPath r) p &&
                 sql_eq_text (cell Referer r) (MediaItem.referer item))
       (fun r => set_cell AlbumId (bind_opt (MediaItem.album_id item))
                          (set_cell Domain (VText d) r))))
    (fun e =>
       match e with
       | IntegrityError =>
           Some (execute (fun t => Ok (delete_where
                   (fun r => sql_eq_text (cell Domain r) "no_crawler" &&
                             sql_eq_text (cell UrlPath r) p) t)))
       | _ => None
       end) s
  = (Ok tt, set_media (adopted d p item (media (db_conn s))) s).
Proof.
  intros Hpk. unfold try_except, execute, update_where, adopted.
  rewrite (touches_pk_true [Domain; AlbumId] _ Domain) by (auto; now left).
  change (fun r => sql_eq_text (cell Domain r) "no_crawler" &&
                   sql_eq_text (cell UrlPath r) p &&
                   sql_eq_text (cell Referer r) (MediaItem.referer item))
    with (placeholder_for p (MediaItem.referer item)).
  change (fun r => set_cell AlbumId (bind_opt (MediaItem.album_id item))
                            (set_cell Domain (VText d) r))
    with (adopt d (MediaItem.album_id item)).
  destruct (update_rows _ _ _ _ _) as [rs|]; reflexivity.
Qed.

(** With such a key, [insert_incompleted] never raises. *)
Lemma insert_incompleted_run now domain item s :
  ledger_key (pk_cols (media (db_conn s))) ->
  insert_incompleted now domain item s =
  (Ok tt, set_media (inserted now (get_db_domain domain)
                              (get_db_path (MediaItem.url item) (MediaItem.referer item))
                              item (media (db_conn s))) s).
Proof.
  intros Hk. unfold insert_incompleted.
  rewrite (bind_ok _ _ _ _ _ (adopt_run _ _ item s (proj1 Hk))).
  erewrite bind_ok; [|apply execute_ok; reflexivity].
  rewrite media_set_media, set_media_set_media.
  erewrite bind_ok.
  2:{ apply execute_ok. rewrite media_set_media. apply update_where_nonkey.
      rewrite pk_cols_insert_or_ignore, pk_cols_adopted. solve_nonkey Hk. }
  rewrite set_media_set_media. reflexivity.
Qed.

Lemma placeholder_for_at p ref r :
  placeholder_for p ref r = true -> placeholder_at p r = true.
Proof.
  unfold placeholder_for, placeholder_at. intros H.
  now apply andb_true_iff in H as [H _].
Qed.

Lemma adopt_idem d album r : adopt d album (adopt d album r) = adopt d album r.
Proof. destruct r; reflexivity. Qed.

(** The first statement and its handler keep the table well formed. *)
Lemma adopted_unique d p item t :
  unique_table t -> unique_rows (pk_cols t) (rows (adopted d p item t)).
Proof.
  unfold unique_table, adopted. intros Hu.
  destruct (update_rows _ _ _ _ _) as [rs|] eqn:E; cbn [rows delete_where].
  - now apply (update_rows_unique _ _ _ (rows t) [] rs Hu E).
  - now apply unique_rows_filter.
Qed.

(** After them, no placeholder is left to adopt. *)
Lemma adopted_settled d p item t r :
  In r (rows (adopted d p item t)) ->
  placeholder_for p (MediaItem.referer item) r = true ->
  adopt d (MediaItem.album_id item) r = r.
Proof.
  unfold adopted. destruct (update_rows _ _ _ _ _) as [rs|] eqn:E;
    cbn [rows delete_where]; intros Hin Hw.
  - apply update_rows_Some in E. simpl in E. subst rs.
    apply in_map_iff in Hin as (r0 & <- & _). unfold upd in *.
    destruct (placeholder_for p (MediaItem.referer item) r0) eqn:W0.
    + apply adopt_idem.
    + congruence.
  - apply filter_In in Hin as [_ Hin]. apply placeholder_for_at in Hw.
    rewrite Hw in Hin. discriminate.
Qed.

(** A row under a crawler's domain is left alone by them. *)
Lemma adopted_keeps_other d p item t r :
  domain r <> VText "no_crawler" -> In r (rows t) ->
  In r (rows (adopted d p item t)).
Proof.
  intros Hd Hin.
  assert (Hs : sql_eq_text (cell Domain r) "no_crawler" = false).
  { destruct (sql_eq_text _ _) eqn:E; [|reflexivity].
    apply sql_eq_text_iff in E. now destruct Hd. }
  unfold adopted.
  destruct (update_rows _ _ _ _ _) as [rs|] eqn:E; cbn [rows delete_where].
  - apply update_rows_Some in E. cbn [app] in E. subst rs.
    apply in_map_iff. exists r. split; auto. unfold upd, placeholder_for.
    now rewrite Hs.
  - apply filter_In. split; auto. unfold placeholder_at. now rewrite Hs.
Qed.

Lemma rows_insert_or_ignore r t x :
  In x (rows t) -> In x (rows (insert_or_ignore r t)).
Proof.
  unfold insert_or_ignore. destruct (existsb _ _); cbn [rows]; auto.
  intros H. apply in_or_app. now left.
Qed.

Lemma insert_or_ignore_unique r t :
  unique_table t -> unique_table (insert_or_ignore r t).
Proof.
  unfold insert_or_ignore, unique_table.
  destruct (existsb _ _) eqn:E; cbn [rows pk_cols]; auto.
  intros H. now apply unique_rows_snoc.
Qed.

Lemma incompleted_row_at_key now d p dl item :
  at_key d p (incompleted_row now d p dl item) = true.
Proof. apply at_key_iff. now split. Qed.

Lemma incompleted_row_keyed pk now d p dl item :
  keyed_as pk d p (MediaItem.original_filename item)
           (incompleted_row now d p dl item) = true.
Proof. apply keyed_as_iff. split; [apply incompleted_row_at_key | reflexivity]. Qed.

(** The rows the row offered to INSERT OR IGNORE collides with are the
    rows under the key of the file. *)
Lemma conflicts_incompleted_row pk now d p dl item r :
  ledger_key pk ->
  conflicts pk (incompleted_row now d p dl item) r
  = keyed_as pk d p (MediaItem.original_filename item) r.
Proof.
  intros Hk. apply Bool.eq_iff_eq_true. split; intros H.
  - apply keyed_as_iff. split.
    + apply (conflicts_at_key pk d p _ _ (proj1 Hk) (proj1 (proj2 Hk)) H).
      apply incompleted_row_at_key.
    + intros Ho.
      rewrite (conflicts_true_iff pk _ _ (ledger_key_nonempty pk Hk)) in H.
      specialize (H OriginalFilename Ho). cbn [cell incompleted_row] in H.
      now apply uniq_eqb_text in H.
  - apply (keyed_as_collide pk d p (MediaItem.original_filename item)); auto.
    apply incompleted_row_keyed.
Qed.

(** After INSERT OR IGNORE a record is stored under the key of the file. *)
Lemma insert_or_ignore_present now d p dl item t :
  ledger_key (pk_cols t) ->
  exists r, In r (rows (insert_or_ignore (incompleted_row now d p dl item) t)) /\
            keyed_as (pk_cols t) d p (MediaItem.original_filename item) r = true.
Proof.
  intros Hk. unfold insert_or_ignore.
  destruct (existsb _ _) eqn:E; cbn [rows].
  - apply existsb_exists in E as (x & Hx & Hc).
    rewrite conflicts_incompleted_row in Hc by exact Hk. now exists x.
  - exists (incompleted_row now d p dl item). split.
    + apply in_or_app. right. now left.
    + apply incompleted_row_keyed.
Qed.

Lemma upd_filename_cells d p dl r c :
  c <> DownloadFilename ->
  cell c (upd (at_key d p) (set_cell DownloadFilename (VText dl)) r) = cell c r.
Proof.
  intros Hc. unfold upd. destruct (at_key d p r); [|reflexivity].
  now apply cell_set_cell_other.
Qed.

Lemma upd_filename_keyed pk d p o dl r :
  keyed_as pk d p o (upd (at_key d p) (set_cell DownloadFilename (VText dl)) r)
  = keyed_as pk d p o r.
Proof. apply keyed_as_cells; apply upd_filename_cells; discriminate. Qed.

(** After [insert_incompleted] a record of the file is stored, and every
    record under [(d, p)] carries the download filename of the item. *)
Lemma inserted_present now d p item t :
  ledger_key (pk_cols t) ->
  exists r, In r (rows (inserted now d p item t)) /\
            keyed_as (pk_cols t) d p (MediaItem.original_filename item) r = true.
Proof.
  intros Hk.
  destruct (insert_or_ignore_present now d p (filename_of item) item
              (adopted d p item t)) as (r & Hin & Kr).
  { now rewrite pk_cols_adopted. }
  rewrite pk_cols_adopted in Kr.
  exists (upd (at_key d p) (set_cell DownloadFilename (VText (filename_of item))) r).
  split.
  - unfold inserted. cbn [rows]. now apply in_map.
  - now rewrite upd_filename_keyed.
Qed.

Lemma inserted_filenames now d p item t r :
  In r (rows (inserted now d p item t)) -> at_key d p r = true ->
  download_filename r = VText (filename_of item).
Proof.
  unfold inserted. cbn [rows]. intros Hin Hk.
  apply in_map_iff in Hin as (r0 & <- & _).
  assert (K : at_key d p r0 = true).
  { rewrite <- Hk. symmetry.
    apply at_key_cells; apply upd_filename_cells; discriminate. }
  unfold upd. rewrite K. reflexivity.
Qed.

(** A table on which [insert_incompleted] for this item has nothing left
    to do. *)
Definition settled (d p : string) (item : MediaItem.t) (t : Table) : Prop :=
  ledger_key (pk_cols t) /\ unique_table t /\
  (forall r, In r (rows t) ->
             placeholder_for p (MediaItem.referer item) r = true ->
             adopt d (MediaItem.album_id item) r = r) /\
  (exists r, In r (rows t) /\
             keyed_as (pk_cols t) d p (MediaItem.original_filename item) r = true) /\
  (forall r, In r (rows t) -> at_key d p r = true ->
             download_filename r = VText (filename_of item)).

Lemma inserted_settled now d p item t :
  ledger_key (pk_cols t) -> unique_table t ->
  settled d p item (inserted now d p item t).
Proof.
  intros Hk Hu. unfold settled. rewrite pk_cols_inserted.
  split; [exact Hk|]. split; [|split; [|split]].
  - unfold unique_table. rewrite pk_cols_inserted. unfold inserted. cbn [rows].
    apply unique_rows_map.
    + intros r c Hc. apply upd_filename_cells. intros ->.
      apply (ledger_key_other _ DownloadFilename Hk) in Hc; auto; discriminate.
    + pose proof (insert_or_ignore_unique
                    (incompleted_row now d p (filename_of item) item)
                    (adopted d p item t)) as H.
      unfold unique_table in H.
      rewrite pk_cols_insert_or_ignore, pk_cols_adopted in H.
      apply H. now apply adopted_unique.
  - unfold inserted. cbn [rows]. intros r' Hin Hw.
    apply in_map_iff in Hin as (r & <- & Hin).
    assert (W : placeholder_for p (MediaItem.referer item) r = true).
    { rewrite <- Hw. unfold placeholder_for.
      rewrite !upd_filename_cells by discriminate. reflexivity. }
    assert (A : adopt d (MediaItem.album_id item) r = r).
    { unfold insert_or_ignore in Hin.
      destruct (existsb _ _); cbn [rows] in Hin.
      - now apply (adopted_settled d p item t).
      - apply in_app_or in Hin as [Hin|[<-|[]]].
        + now apply (adopted_settled d p item t).
        + reflexivity. }
    unfold upd. destruct (at_key d p r); [|exact A].
    unfold adopt in *. rewrite (set_cell_comm Domain) by discriminate.
    rewrite (set_cell_comm AlbumId) by discriminate. now rewrite A.
  - now apply inserted_present.
  - intros r. apply inserted_filenames.
Qed.

(** On a settled table a further call changes nothing. *)
Lemma settled_inserted now d p item t :
  settled d p item t -> inserted now d p item t = t.
Proof.
  intros (Hk & Hu & Hw & (r & Hin & Kr) & Hdl).
  unfold inserted.
  assert (E1 : adopted d p item t = t).
  { unfold adopted. unfold unique_table in Hu.
    rewrite (update_rows_total (pk_cols t) _ _ (rows t) []); auto.
    - cbn [app]. rewrite map_upd_id by exact Hw. apply table_eta.
    - intros r0 c H0 W _. now rewrite (Hw r0 H0 W). }
  rewrite E1.
  assert (E2 : insert_or_ignore (incompleted_row now d p (filename_of item) item) t = t).
  { unfold insert_or_ignore.
    assert (existsb (conflicts (pk_cols t)
                               (incompleted_row now d p (filename_of item) item))
                    (rows t) = true) as ->; [|reflexivity].
    apply existsb_exists. exists r. split; auto.
    now rewrite conflicts_incompleted_row. }
  rewrite E2, map_upd_id; [apply table_eta|].
  intros r0 H0 K0. rewrite <- (Hdl r0 H0 K0).
  apply (set_cell_id DownloadFilename).
Qed.

(** With no placeholder for the path and a record of the file in store,
    [insert_incompleted] only sets the download filename of the records
    under [(d, p)]. *)
Lemma inserted_quiet now d p item t :
  ledger_key (pk_cols t) ->
  (forall x, In x (rows t) -> placeholder_at p x = false) ->
  (exists r, In r (rows t) /\
             keyed_as (pk_cols t) d p (MediaItem.original_filename item) r = true) ->
  inserted now d p item t =
  updated (at_key d p) (set_cell DownloadFilename (VText (filename_of item))) t.
Proof.
  intros Hk Hnone (r & Hin & Kr). unfold inserted.
  assert (E1 : adopted d p item t = t).
  { unfold adopted. rewrite update_rows_pass.
    - cbn [app]. apply table_eta.
    - intros x Hx. destruct (placeholder_for p (MediaItem.referer item) x) eqn:W;
        [|reflexivity].
      apply placeholder_for_at in W. now rewrite (Hnone x Hx) in W. }
  rewrite E1.
  assert (E2 : insert_or_ignore (incompleted_row now d p (filename_of item) item) t = t).
  { unfold insert_or_ignore.
    assert (existsb (conflicts (pk_cols t)
                               (incompleted_row now d p (filename_of item) item))
                    (rows t) = true) as ->; [|reflexivity].
    apply existsb_exists. exists r. split; auto.
    now rewrite conflicts_incompleted_row. }
  rewrite E2. reflexivity.
Qed.

(** *** mark_complete and check_complete *)

(** SET completed = 1, completed_at = CURRENT_TIMESTAMP *)
Definition complete (now : string) (r : Row) : Row :=
  set_cell CompletedAt (VText now) (set_cell Completed (VInt 1) r).

Lemma mark_complete_run now domain item s :
  ledger_key (pk_cols (media (db_conn s))) ->
  mark_complete now domain item s =
  (Ok tt, set_media
     (updated (at_key (get_db_domain domain)
                      (get_db_path (MediaItem.url item) (MediaItem.referer item)))
              (complete now) (media (db_conn s))) s).
Proof.
  intros Hk. unfold mark_complete.
  erewrite bind_ok; [reflexivity|].
  apply execute_ok. apply update_where_nonkey. solve_nonkey Hk.
Qed.

(** Python's [value != 0] on a cell. *)
Definition nonzero (v : Value) : bool := negb (py_eq (to_py v) (PyInt 0)).

Lemma nonzero_iff v : nonzero v = true <-> v <> VInt 0.
Proof.
  unfold nonzero. destruct v as [|z|t]; cbn; split; intros H; try congruence;
    try reflexivity.
  - intros E. injection E as ->. discriminate.
  - destruct (Z.eqb_spec z 0); [subst; congruence | reflexivity].
Qed.

(** What [check_complete] does, given the row it fetches. *)
Lemma check_complete_run domain url referer s :
  ignore_history s = false ->
  ~ In Referer (pk_cols (media (db_conn s))) ->
  check_complete domain url referer s =
  match fetchone (select_by [Domain; UrlPath]
                            (at_key (get_db_domain domain)
                                    (get_db_path url (get_db_domain domain)))
                            (media (db_conn s))) with
  | None => (Ok false, s)
  | Some r =>
      if nonzero (completed r) then
        if negb (py_eq (PyStr referer) (to_py (HistoryTable.referer r))) then
          (Ok true, set_media (updated (at_key (get_db_domain domain)
                                          (get_db_path url (get_db_domain domain)))
                                       (set_cell Referer (VText referer))
                                       (media (db_conn s))) s)
        else (Ok true, s)
      else (Ok false, s)
  end.
Proof.
  intros Hi Hpk. unfold check_complete.
  rewrite (bind_ok get _ s s s eq_refl), Hi.
  erewrite bind_ok; [|reflexivity].
  destruct (select_by _ _ _) as [|r l]; [reflexivity|].
  cbn [map fetchone hd_error project cell].
  change (negb (py_eq (item [HistoryTable.referer r; completed r] 1) (PyInt 0)))
    with (nonzero (completed r)).
  change (item [HistoryTable.referer r; completed r] 0)
    with (to_py (HistoryTable.referer r)).
  destruct (nonzero (completed r)); [|reflexivity].
  destruct (negb (py_eq (PyStr referer) (to_py (HistoryTable.referer r)))).
  - erewrite bind_ok; [reflexivity|].
    erewrite bind_ok; [reflexivity|].
    apply execute_ok. apply update_where_nonkey.
    apply touches_pk_false. intros c [<-|[]]. exact Hpk.
  - reflexivity.
Qed.

(** The ledger honours its history and holds a record of the file [o]
    under [(d, p)]; every record under [(d, p)] is marked complete, and
    no placeholder is stored for the path. *)
Definition ledger_completed (d p o : string) (s : Self) : Prop :=
  ignore_history s = false /\
  ledger_key (pk_cols (media (db_conn s))) /\
  (forall r, In r (rows (media (db_conn s))) -> placeholder_at p r = false) /\
  (exists r, In r (rows (media (db_conn s))) /\
             keyed_as (pk_cols (media (db_conn s))) d p o r = true) /\
  (forall r, In r (rows (media (db_conn s))) -> at_key d p r = true ->
             completed r = VInt 1).

(** An UPDATE of the records under [(d, p)] that leaves the key alone
    and does not take a completion back keeps such a ledger. *)
Lemma updated_keeps_completed d p o f s :
  ledger_completed d p o s ->
  (forall r c, In c file_key -> cell c (f r) = cell c r) ->
  (forall r, completed (f r) = completed r \/ completed (f r) = VInt 1) ->
  ledger_completed d p o
    (set_media (updated (at_key d p) f (media (db_conn s))) s).
Proof.
  intros (Hi & Hk & Hnone & (r & Hin & Kr) & Hall) Hf Hc.
  assert (Hcells : forall x c, In c file_key ->
                     cell c (upd (at_key d p) f x) = cell c x).
  { intros x c Hcin. unfold upd. destruct (at_key d p x); auto. }
  unfold ledger_completed.
  rewrite media_set_media, ignore_history_set_media. cbn [updated pk_cols rows].
  split; [exact Hi|]. split; [exact Hk|]. split; [|split].
  - intros x Hx. apply in_map_iff in Hx as (x0 & <- & Hx0).
    rewrite <- (Hnone x0 Hx0). unfold placeholder_at.
    now rewrite !Hcells by (cbn; auto).
  - exists (upd (at_key d p) f r). split; [now apply in_map|].
    rewrite <- Kr. apply keyed_as_cells; apply Hcells; cbn; auto.
  - intros x Hx Kx. apply in_map_iff in Hx as (x0 & <- & Hx0).
    assert (K0 : at_key d p x0 = true).
    { rewrite <- Kx. symmetry. apply at_key_cells; apply Hcells; cbn; auto. }
    unfold upd. rewrite K0.
    destruct (Hc x0) as [E|E]; rewrite E; [now apply Hall | reflexivity].
Qed.

Lemma mark_complete_completes now domain item s r :
  ignore_history s = false ->
  ledger_key (pk_cols (media (db_conn s))) ->
  (forall x, In x (rows (media (db_conn s))) ->
             placeholder_at (get_db_path (MediaItem.url item) (MediaItem.referer item))
                            x = false) ->
  In r (rows (media (db_conn s))) ->
  keyed_as (pk_cols (media (db_conn s))) (get_db_domain domain)
           (get_db_path (MediaItem.url item) (MediaItem.referer item))
           (MediaItem.original_filename item) r = true ->
  exists s1, mark_complete now domain item s = (Ok tt, s1) /\
             ledger_completed (get_db_domain domain)
               (get_db_path (MediaItem.url item) (MediaItem.referer item))
               (MediaItem.original_filename item) s1.
Proof.
  intros Hi Hk Hnone Hin Kr. rewrite (mark_complete_run _ _ _ _ Hk).
  eexists; split; [reflexivity|].
  set (d := get_db_domain domain) in *.
  set (p := get_db_path _ _) in *.
  assert (Hcells : forall x c, In c file_key ->
                     cell c (upd (at_key d p) (complete now) x) = cell c x).
  { intros x c Hc. unfold upd. destruct (at_key d p x); [|reflexivity].
    destruct Hc as [<-|[<-|[<-|[]]]]; reflexivity. }
  unfold ledger_completed.
  rewrite media_set_media, ignore_history_set_media. cbn [updated pk_cols rows].
  split; [exact Hi|]. split; [exact Hk|]. split; [|split].
  - intros x Hx. apply in_map_iff in Hx as (x0 & <- & Hx0).
    rewrite <- (Hnone x0 Hx0). unfold placeholder_at.
    now rewrite !Hcells by (cbn; auto).
  - exists (upd (at_key d p) (complete now) r). split; [now apply in_map|].
    rewrite <- Kr. apply keyed_as_cells; apply Hcells; cbn; auto.
  - intros x Hx Kx. apply in_map_iff in Hx as (x0 & <- & Hx0).
    assert (K0 : at_key d p x0 = true).
    { rewrite <- Kx. symmetry. apply at_key_cells; apply Hcells; cbn; auto. }
    unfold upd. rewrite K0. reflexivity.
Qed.

(** On such a ledger [check_complete] answers [True], whichever record
    under [(d, p)] it fetches, and leaves such a ledger. *)
Lemma check_complete_completed d p o domain url referer s :
  ledger_completed d p o s ->
  get_db_domain domain = d -> get_db_path url d = p ->
  exists s', check_complete domain url referer s = (Ok true, s') /\
             ledger_completed d p o s'.
Proof.
  intros Hl Hd Hp. pose proof Hl as (Hi & Hk & _ & (r & Hin & Kr) & Hall).
  rewrite check_complete_run; auto.
  2:{ apply (ledger_key_other _ _ Hk); discriminate. }
  rewrite Hd, Hp.
  pose proof (fetchone_select_by [Domain; UrlPath] (at_key d p) (media (db_conn s)))
    as Hf.
  destruct (fetchone _) as [x|].
  - destruct Hf as [Hx Kx]. rewrite (Hall x Hx Kx).
    change (nonzero (VInt 1)) with true. cbn iota.
    destruct (negb (py_eq (PyStr referer) (to_py (HistoryTable.referer x)))).
    + eexists. split; [reflexivity|].
      apply updated_keeps_completed; auto.
      intros r0 c Hc. destruct Hc as [<-|[<-|[<-|[]]]]; reflexivity.
    + eexists. split; [reflexivity | exact Hl].
  - exfalso. apply keyed_as_at_key in Kr.
    assert (Hr : In r (select_where (at_key d p) (media (db_conn s))))
      by (apply filter_In; now split).
    rewrite Hf in Hr. destruct Hr.
Qed.

(** The calls the claim speaks of. *)
Inductive Call : Type :=
| CallInsert (now domain : string) (item : MediaItem.t)
| CallMark (now domain : string) (item : MediaItem.t)
| CallCheck (domain : string) (url : URL) (referer : string).

(** The key a call works on.  [check_complete] computes its path with the
    domain where the other methods pass the referer. *)
Definition call_key (c : Call) : string * string :=
  match c with
  | CallInsert _ domain item | CallMark _ domain item =>
      (get_db_domain domain,
       get_db_path (MediaItem.url item) (MediaItem.referer item))
  | CallCheck domain url _ =>
      (get_db_domain domain, get_db_path url (get_db_domain domain))
  end.

(** A call for the file [o] under [(d, p)]: it works on that key, and
    what it inserts is that file. *)
Definition call_for (d p o : string) (c : Call) : Prop :=
  call_key c = (d, p) /\
  match c with
  | CallInsert _ _ item => MediaItem.original_filename item = o
  | _ => True
  end.

Definition run_call (c : Call) : Op unit :=
  match c with
  | CallInsert now domain item => insert_incompleted now domain item
  | CallMark now domain item => mark_complete now domain item
  | CallCheck domain url referer =>
      bind (check_complete domain url referer) (fun _ => ret tt)
  end.

Lemma run_call_keeps_completed d p o c s :
  ledger_completed d p o s -> call_for d p o c ->
  exists s', run_call c s = (Ok tt, s') /\ ledger_completed d p o s'.
Proof.
  intros Hl [Hkey Hfile]. pose proof Hl as (Hi & Hk & Hnone & Hrec & _).
  destruct c as [now domain item|now domain item|domain url referer];
    simpl in Hkey; injection Hkey as Hd Hp; simpl run_call.
  - rewrite (insert_incompleted_run _ _ _ _ Hk), Hd, Hp.
    rewrite inserted_quiet; auto; [|now rewrite Hfile].
    eexists; split; [reflexivity|].
    apply updated_keeps_completed; auto.
    intros r0 c Hc. destruct Hc as [<-|[<-|[<-|[]]]]; reflexivity.
  - rewrite (mark_complete_run _ _ _ _ Hk), Hd, Hp.
    eexists; split; [reflexivity|].
    apply updated_keeps_completed; auto.
    intros r0 c Hc. destruct Hc as [<-|[<-|[<-|[]]]]; reflexivity.
  - rewrite Hd in Hp.
    destruct (check_complete_completed d p o domain url referer s Hl Hd Hp)
      as (s' & E & Hl').
    exists s'. split; [|exact Hl']. now rewrite (bind_ok _ _ _ _ _ E).
Qed.

Lemma run_calls_keep_completed d p o calls : forall s,
  ledger_completed d p o s ->
  Forall (call_for d p o) calls ->
  exists s', for_each calls run_call s = (Ok tt, s') /\ ledger_completed d p o s'.
Proof.
  induction calls as [|c calls IH]; intros s Hl Hall.
  - exists s. now split.
  - inversion Hall as [|? ? Hc Hrest]; subst.
    destruct (run_call_keeps_completed d p o c s Hl Hc) as (s1 & E1 & Hl1).
    destruct (IH s1 Hl1 Hrest) as (s2 & E2 & Hl2).
    exists s2. split; [|exact Hl2].
    simpl. now rewrite (bind_ok _ _ _ _ _ E1).
Qed.

(** C1 (amended).  On a ledger keyed by (domain, url_path), with or
    without original_filename, that honours its history and holds no
    placeholder for the path: once [mark_complete] has run for an item
    of which a record is stored, [check_complete] for its key returns
    [True] after any sequence of [mark_complete] and [check_complete]
    calls for that key and [insert_incompleted] calls for that file. *)
Theorem mark_complete_monotonic (s : Self) (now domain : string)
        (item : MediaItem.t) (r : Row) (calls : list Call)
        (domain' : string) (url : URL) (referer : string) :
  ignore_history s = false ->
  ledger_key (pk_cols (media (db_conn s))) ->
  (forall x, In x (rows (media (db_conn s))) ->
             placeholder_at (get_db_path (MediaItem.url item) (MediaItem.referer item))
                            x = false) ->
  In r (rows (media (db_conn s))) ->
  keyed_as (pk_cols (media (db_conn s))) (get_db_domain domain)
           (get_db_path (MediaItem.url item) (MediaItem.referer item))
           (MediaItem.original_filename item) r = true ->
  Forall (call_for (get_db_domain domain)
                   (get_db_path (MediaItem.url item) (MediaItem.referer item))
                   (MediaItem.original_filename item))
         calls ->
  call_key (CallCheck domain' url referer) =
    (get_db_domain domain,
     get_db_path (MediaItem.url item) (MediaItem.referer item)) ->
  exists s1 s2 s3,
    mark_complete now domain item s = (Ok tt, s1) /\
    for_each calls run_call s1 = (Ok tt, s2) /\
    check_complete domain' url referer s2 = (Ok true, s3).
Proof.
  intros Hi Hk Hnone Hin Kr Hcalls Hkey.
  destruct (mark_complete_completes now domain item s r Hi Hk Hnone Hin Kr)
    as (s1 & E1 & Hl1).
  destruct (run_calls_keep_completed _ _ _ calls s1 Hl1 Hcalls) as (s2 & E2 & Hl2).
  simpl in Hkey. injection Hkey as Hd Hp. rewrite Hd in Hp.
  destruct (check_complete_completed _ _ _ domain' url referer s2 Hl2 Hd Hp)
    as (s3 & E3 & _).
  now exists s1, s2, s3.
Qed.

(** C3 (amended).  On a well-formed ledger keyed by (domain, url_path),
    with or without original_filename, a second [insert_incompleted]
    with the same item leaves the ledger exactly as the first one left
    it, with one record under the key of the item's file. *)
Theorem insert_incompleted_idempotent (s : Self) (now1 now2 domain : string)
        (item : MediaItem.t) :
  ledger_key (pk_cols (media (db_conn s))) ->
  unique_table (media (db_conn s)) ->
  exists s1,
    insert_incompleted now1 domain item s = (Ok tt, s1) /\
    insert_incompleted now2 domain item s1 = (Ok tt, s1) /\
    List.length
      (filter (keyed_as (pk_cols (media (db_conn s))) (get_db_domain domain)
                        (get_db_path (MediaItem.url item) (MediaItem.referer item))
                        (MediaItem.original_filename item))
              (rows (media (db_conn s1)))) = 1.
Proof.
  intros Hk Hu.
  set (d := get_db_domain domain).
  set (p := get_db_path (MediaItem.url item) (MediaItem.referer item)).
  pose proof (inserted_settled now1 d p item _ Hk Hu) as Hs.
  exists (set_media (inserted now1 d p item (media (db_conn s))) s).
  split; [now apply insert_incompleted_run|]. split.
  - rewrite insert_incompleted_run
      by (rewrite media_set_media; now rewrite pk_cols_inserted).
    fold d p. rewrite media_set_media, set_media_set_media.
    now rewrite (settled_inserted now2 d p item _ Hs).
  - destruct Hs as (Hk' & Hu' & _ & (r & Hin & Kr) & _).
    rewrite media_set_media. rewrite pk_cols_inserted in *.
    unfold unique_table in Hu'. rewrite pk_cols_inserted in Hu'.
    now rewrite (filter_keyed_one _ d p _ _ r Hk Hu' Hin Kr).
Qed.

(** *** Sample data *)

(** The columns of [media] as [insert_incompleted] and [add_filesize] name
    them. *)
Definition media_columns : list Col :=
  [Domain; UrlPath; Referer; AlbumId; DownloadPath; DownloadFilename;
   OriginalFilename; Completed; CreatedAt; CompletedAt; FileSize].

Definition ledger_of (pk : list Col) (l : list Row) : Self :=
  mkSelf (mkDatabase (mkTable media_columns pk l) None None) false.

Definition sample_item : MediaItem.t :=
  MediaItem.mk (mkURL "/data/ab/cd/abcd.jpg" "abcd.jpg")
               "https://coomer.su/onlyfans/user/alice/post/1"
               (Some "1") "Downloads/alice" (Some "abcd.jpg") "abcd.jpg"
               "Downloads/alice/abcd.jpg".

Definition sample_row : Row :=
  incompleted_row "2024-01-01 10:00:00" "coomer" "/data/ab/cd/abcd.jpg"
                  "abcd.jpg" sample_item.

(** A record the generic downloader stored before the crawler was known. *)
Definition placeholder_row : Row :=
  mkRow (VText "no_crawler") (VText "/data/ab/cd/abcd.jpg")
        (VText "https://coomer.su/onlyfans/user/alice/post/1") VNull
        (VText "Downloads") (VText "abcd.jpg") (VText "abcd.jpg")
        (VInt 0) (VText "2023-12-31 09:00:00") VNull VNull.

(** Another file of the same page, stored under the same (domain,
    url_path). *)
Definition other_file_row : Row :=
  set_cell OriginalFilename (VText "abcd (1).jpg") sample_row.

(** Another page that links the file. *)
Definition other_page_row : Row :=
  set_cell UrlPath (VText "/data/ef/01/ef01.jpg") sample_row.

(** Well-formedness of a table given row by row. *)
Ltac solve_unique :=
  unfold unique_table;
  cbn [unique_rows rows media db_conn ledger_of pk_cols];
  repeat split; intros x Hx; cbn [In] in Hx;
  repeat (destruct Hx as [<-|Hx]; [reflexivity|]); destruct Hx.

(** No row of a table given row by row is a placeholder for the path. *)
Ltac solve_none :=
  let x := fresh "x" in
  let Hx := fresh "Hx" in
  intros x Hx; cbn [rows media db_conn ledger_of In] in Hx;
  repeat (destruct Hx as [<-|Hx]; [reflexivity|]); destruct Hx.

Lemma mark_complete_monotonic_witness :
  exists s1 s2 s3,
    mark_complete "2024-01-01 10:05:00" "coomer" sample_item
                  (ledger_of file_key [sample_row; other_page_row])
      = (Ok tt, s1) /\
    for_each [CallInsert "2024-01-02 08:00:00" "coomer" sample_item;
              CallCheck "coomer" (MediaItem.url sample_item) "https://coomer.su/other"]
             run_call s1 = (Ok tt, s2) /\
    check_complete "coomer" (MediaItem.url sample_item)
                   "https://coomer.su/onlyfans/user/alice" s2 = (Ok true, s3).
Proof.
  apply (mark_complete_monotonic (ledger_of file_key [sample_row; other_page_row])
           "2024-01-01 10:05:00" "coomer" sample_item sample_row).
  - reflexivity.
  - exact ledger_key_file.
  - solve_none.
  - now left.
  - reflexivity.
  - repeat constructor.
  - reflexivity.
Defined.

(** C1, as stated, fails when no record is stored under the key:
    [mark_complete] returns normally and changes nothing, and
    [check_complete] then answers [False]. *)
Lemma mark_complete_without_record :
  mark_complete "2024-01-01 10:05:00" "coomer" sample_item
                (ledger_of file_key [])
    = (Ok tt, ledger_of file_key []) /\
  check_complete "coomer" (MediaItem.url sample_item)
                 "https://coomer.su/onlyfans/user/alice/post/1"
                 (ledger_of file_key [])
    = (Ok false, ledger_of file_key []).
Proof. split; reflexivity. Qed.

(** A placeholder of another file of the page, stored before the record
    of the file. *)
Definition early_placeholder_row : Row :=
  mkRow (VText "no_crawler") (VText "/data/ab/cd/abcd.jpg")
        (VText "https://coomer.su/onlyfans/user/alice/post/1") VNull
        (VText "Downloads") (VText "abcd (1).jpg") (VText "abcd (1).jpg")
        (VInt 0) (VText "2023-12-31 09:00:00") VNull VNull.

(** On the key with original_filename, a record stored and marked
    complete is not enough either: [insert_incompleted] adopts a
    placeholder of another file of the page as a second, incomplete
    record under the same (domain, url_path), and [check_complete], which
    fetches the first record in key order, then answers [False]. *)
Lemma mark_complete_then_adopted_placeholder :
  exists s1 s2,
    mark_complete "2024-01-01 10:05:00" "coomer" sample_item
                  (ledger_of file_key [early_placeholder_row; sample_row])
      = (Ok tt, s1) /\
    check_complete "coomer" (MediaItem.url sample_item)
                   (MediaItem.referer sample_item) s1 = (Ok true, s1) /\
    insert_incompleted "2024-01-02 08:00:00" "coomer" sample_item s1 = (Ok tt, s2) /\
    check_complete "coomer" (MediaItem.url sample_item)
                   (MediaItem.referer sample_item) s2 = (Ok false, s2).
Proof. eexists. eexists. repeat split; reflexivity. Qed.

Lemma insert_incompleted_idempotent_witness :
  exists s1,
    insert_incompleted "2024-01-01 10:00:00" "coomer" sample_item
                       (ledger_of file_key [placeholder_row; other_file_row])
      = (Ok tt, s1) /\
    insert_incompleted "2024-01-01 10:00:07" "coomer" sample_item s1 = (Ok tt, s1) /\
    List.length
      (filter (keyed_as file_key "coomer" "/data/ab/cd/abcd.jpg" "abcd.jpg")
              (rows (media (db_conn s1)))) = 1.
Proof.
  apply (insert_incompleted_idempotent
           (ledger_of file_key [placeholder_row; other_file_row])
           "2024-01-01 10:00:00" "2024-01-01 10:00:07" "coomer" sample_item).
  - exact ledger_key_file.
  - solve_unique.
Defined.

(** C3, as stated, fails on the key with original_filename: when a
    record of another file of the page is stored, two calls with the
    same item leave two records under the (domain, url_path) of the
    item. *)
Lemma insert_incompleted_second_file :
  exists s1,
    insert_incompleted "2024-01-01 10:00:00" "coomer" sample_item
                       (ledger_of file_key [other_file_row]) = (Ok tt, s1) /\
    insert_incompleted "2024-01-01 10:00:07" "coomer" sample_item s1 = (Ok tt, s1) /\
    List.length (records_at "coomer" "/data/ab/cd/abcd.jpg" s1) = 2.
Proof. eexists. repeat split; reflexivity. Qed.

(** *** Rows given by position *)

Lemma cell_fold_set (g : Col -> Value) c cs : forall r0,
  cell c (fold_left (fun r cv => set_cell (fst cv) (snd cv) r)
                    (combine cs (map g cs)) r0)
  = if existsb (Col_eqb c) cs then g c else cell c r0.
Proof.
  induction cs as [|k cs IH]; intros r0; cbn [map combine fold_left existsb].
  - reflexivity.
  - rewrite IH. cbn [fst snd]. destruct (existsb (Col_eqb c) cs).
    + now rewrite orb_true_r.
    + rewrite orb_false_r. destruct (Col_eqb c k) eqn:E.
      * apply Col_eqb_eq in E. subst. apply cell_set_cell_same.
      * apply cell_set_cell_other. intros ->. now rewrite Col_eqb_refl in E.
Qed.

Lemma existsb_Col_eqb_In c cs : existsb (Col_eqb c) cs = true <-> In c cs.
Proof.
  rewrite existsb_exists. split.
  - intros (x & Hx & E). apply Col_eqb_eq in E. now subst.
  - intros H. exists c. split; auto. apply Col_eqb_refl.
Qed.

(** Reading a row column by column and writing the values back gives the
    row again, when the table has every column. *)
Lemma row_of_values_project cs r :
  (forall c, In c cs) -> row_of_values cs (project cs r) = r.
Proof.
  intros Hall. apply row_ext. intros c. unfold row_of_values, project.
  rewrite (cell_fold_set (fun c => cell c r)).
  now rewrite (proj2 (existsb_Col_eqb_In c cs) (Hall c)).
Qed.

(** *** fix_bunkr_v4_entries *)

(** The table has each of the eleven columns, [domain] first: the shape
    [create_history] and [add_columns_media] leave. *)
Definition current_schema (t : Table) : Prop :=
  List.length (cols t) = 11 /\
  (forall c, In c (cols t)) /\
  hd_error (cols t) = Some Domain.

Lemma NoDup_media_columns : NoDup media_columns.
Proof.
  unfold media_columns.
  repeat (constructor; [simpl; intuition discriminate|]). constructor.
Qed.

Lemma current_schema_cols t :
  current_schema t ->
  exists rest, cols t = Domain :: rest /\ ~ In Domain rest.
Proof.
  intros (Hlen & Hall & Hhd).
  assert (Hnd : NoDup (cols t)).
  { apply (NoDup_incl_NoDup NoDup_media_columns).
    - rewrite Hlen. simpl. lia.
    - intros c _. apply Hall. }
  destruct (cols t) as [|c rest]; [discriminate|].
  simpl in Hhd. injection Hhd as ->. exists rest. split; auto.
  now inversion Hnd.
Qed.

(** WHERE domain = 'bunkr' and completed = 1 *)
Definition bunkr_completed (r : Row) : bool :=
  sql_eq_text (cell Domain r) "bunkr" && sql_eq_int (cell Completed r) 1.

(** WHERE domain = 'bunkr' *)
Definition under_bunkr (r : Row) : bool := sql_eq_text (cell Domain r) "bunkr".

(** A row moved to the new name of the domain. *)
Definition renamed (r : Row) : Row := set_cell Domain (VText "bunkrr") r.

(** The entry after [entry[0] = "bunkrr"] is the renamed row, read column
    by column. *)
Lemma renamed_entry t r rest :
  cols t = Domain :: rest -> ~ In Domain rest ->
  VText "bunkrr" :: tl (project (cols t) r) = project (cols t) (renamed r).
Proof.
  intros -> Hni. unfold project. cbn [map tl]. f_equal.
  apply map_ext_in. intros c Hc. unfold renamed.
  symmetry. apply cell_set_cell_other. intros ->. contradiction.
Qed.

(** One turn of the loop. *)
Definition replace_entry (t : Table) (e : Row) : Table :=
  insert_or_replace (renamed e) t.

Lemma cols_fold_replace es : forall t,
  cols (fold_left replace_entry es t) = cols t.
Proof. induction es as [|e es IH]; intros t; simpl; [reflexivity|]. now rewrite IH. Qed.

Lemma pk_cols_fold_replace es : forall t,
  pk_cols (fold_left replace_entry es t) = pk_cols t.
Proof. induction es as [|e es IH]; intros t; simpl; [reflexivity|]. now rewrite IH. Qed.

Lemma bunkr_loop_run es : forall s,
  current_schema (media (db_conn s)) ->
  for_each (map (project (cols (media (db_conn s)))) es)
    (fun entry =>
       match entry with
       | [] => raise IndexError
       | _ :: rest => execute (insert_or_replace_values (VText "bunkrr" :: rest))
       end) s
  = (Ok tt, set_media (fold_left replace_entry es (media (db_conn s))) s).
Proof.
  induction es as [|e es IH]; intros s Hs.
  - simpl. unfold ret. now rewrite set_media_id.
  - destruct (current_schema_cols _ Hs) as (rest & Hc & Hni).
    pose proof Hs as (Hlen & Hall & Hhd).
    cbn [map for_each].
    assert (E : (match project (cols (media (db_conn s))) e with
                 | [] => raise IndexError
                 | _ :: rest => execute (insert_or_replace_values (VText "bunkrr" :: rest))
                 end) s
                = (Ok tt, set_media (replace_entry (media (db_conn s)) e) s)).
    { pose proof (renamed_entry _ e rest Hc Hni) as He.
      destruct (project (cols (media (db_conn s))) e) as [|v vs] eqn:Ep.
      - rewrite Hc in Ep. discriminate.
      - cbn [tl] in He. rewrite He. apply execute_ok.
        unfold insert_or_replace_values. rewrite Hlen. cbn [Nat.eqb negb].
        unfold project. rewrite length_map, Hlen. cbn [Nat.eqb negb].
        fold (project (cols (media (db_conn s))) (renamed e)).
        now rewrite row_of_values_project. }
    rewrite (bind_ok _ _ _ _ _ E).
    assert (Hcols : cols (media (db_conn (set_media (replace_entry (media (db_conn s)) e) s)))
                    = cols (media (db_conn s))) by reflexivity.
    rewrite <- Hcols, IH.
    + now rewrite set_media_set_media.
    + exact Hs.
Qed.

(** What [fix_bunkr_v4_entries] leaves of the table. *)
Definition bunkr_fixed (t : Table) : Table :=
  delete_where under_bunkr
               (fold_left replace_entry (select_where bunkr_completed t) t).

Lemma fix_bunkr_v4_entries_run s :
  current_schema (media (db_conn s)) ->
  fix_bunkr_v4_entries s = (Ok tt, set_media (bunkr_fixed (media (db_conn s))) s).
Proof.
  intros Hs. unfold fix_bunkr_v4_entries.
  erewrite bind_ok; [|reflexivity].
  change (fun r => sql_eq_text (cell Domain r) "bunkr" && sql_eq_int (cell Completed r) 1)
    with bunkr_completed.
  rewrite (bind_ok _ _ _ _ _ (bunkr_loop_run _ s Hs)).
  erewrite bind_ok; [|reflexivity].
  erewrite bind_ok; [|apply execute_ok; reflexivity].
  rewrite media_set_media, set_media_set_media. reflexivity.
Qed.

Lemma renamed_conflicts pk a b :
  domain a = VText "bunkr" -> domain b = VText "bunkr" ->
  conflicts pk (renamed a) (renamed b) = conflicts pk a b.
Proof.
  intros Ha Hb. unfold conflicts. destruct pk as [|k pk]; [reflexivity|].
  apply forallb_ext_in. intros c _. unfold renamed.
  destruct c; try reflexivity. simpl. now rewrite Ha, Hb.
Qed.

(** Every entry of the loop, and every renamed row already stored, is in
    the table when the loop ends. *)
Lemma fold_replace_keeps (l0 : list Row) pk es : forall t e,
  pk_cols t = pk -> unique_rows pk l0 ->
  (forall x, In x es -> In x l0 /\ domain x = VText "bunkr") ->
  In e l0 -> domain e = VText "bunkr" ->
  In e es \/ In (renamed e) (rows t) ->
  In (renamed e) (rows (fold_left replace_entry es t)).
Proof.
  induction es as [|e2 es IH]; intros t e Hpk Hu Hes Hin Hd H.
  - destruct H as [[]|H]. exact H.
  - cbn [fold_left]. destruct (Hes e2 (or_introl eq_refl)) as [Hin2 Hd2].
    apply IH; auto.
    + intros x Hx. apply Hes. now right.
    + destruct H as [[->|H]|H].
      * right. unfold replace_entry, insert_or_replace. cbn [rows].
        apply in_or_app. right. now left.
      * now left.
      * right. unfold replace_entry, insert_or_replace. cbn [rows].
        destruct (conflicts (pk_cols t) (renamed e2) (renamed e)) eqn:Ec.
        -- rewrite renamed_conflicts, Hpk in Ec by assumption.
           rewrite (unique_rows_same pk l0 e2 e Hu Hin2 Hin Ec).
           apply in_or_app. right. now left.
        -- apply in_or_app. left. apply filter_In. split; auto. now rewrite Ec.
Qed.

Lemma filter_all {A} (f : A -> bool) l :
  (forall x, In x l -> f x = true) -> filter f l = l.
Proof.
  induction l as [|a l IH]; simpl; intros H; [reflexivity|].
  rewrite (H a), IH; auto.
Qed.

(** C4 (amended).  On a well-formed table that has the eleven columns,
    [fix_bunkr_v4_entries] leaves no row under domain "bunkr"; every row
    that was under "bunkr" and marked complete ([completed = 1]) is
    stored under "bunkrr" afterwards, its other columns as they were; a
    second pass changes nothing. *)
Theorem fix_bunkr_v4_entries_moves_completed (s : Self) :
  current_schema (media (db_conn s)) ->
  unique_table (media (db_conn s)) ->
  exists s1,
    fix_bunkr_v4_entries s = (Ok tt, s1) /\
    (forall r, In r (rows (media (db_conn s1))) -> domain r <> VText "bunkr") /\
    (forall r, In r (rows (media (db_conn s))) ->
               domain r = VText "bunkr" -> completed r = VInt 1 ->
               In (set_cell Domain (VText "bunkrr") r) (rows (media (db_conn s1)))) /\
    fix_bunkr_v4_entries s1 = (Ok tt, s1).
Proof.
  intros Hs Hu.
  exists (set_media (bunkr_fixed (media (db_conn s))) s).
  split; [now apply fix_bunkr_v4_entries_run|].
  rewrite media_set_media.
  assert (Hnone : forall r, In r (rows (bunkr_fixed (media (db_conn s)))) ->
                            under_bunkr r = false).
  { intros r Hr. unfold bunkr_fixed, delete_where in Hr. cbn [rows] in Hr.
    apply filter_In in Hr as [_ Hr]. now apply negb_true_iff in Hr. }
  split; [|split].
  - intros r Hr Hd. apply Hnone in Hr. unfold under_bunkr in Hr.
    simpl in Hr. rewrite Hd in Hr. simpl in Hr. discriminate.
  - intros r Hr Hd Hc. unfold bunkr_fixed, delete_where. cbn [rows].
    apply filter_In. split.
    + apply (fold_replace_keeps (rows (media (db_conn s)))
                                (pk_cols (media (db_conn s)))); auto.
      * intros x Hx. apply filter_In in Hx as [Hx Hb]. split; auto.
        unfold bunkr_completed in Hb. apply andb_true_iff in Hb as [Hb _].
        now apply sql_eq_text_iff in Hb.
      * left. apply filter_In. split; auto. unfold bunkr_completed.
        simpl. rewrite Hd, Hc. reflexivity.
    + reflexivity.
  - rewrite fix_bunkr_v4_entries_run.
    + rewrite media_set_media, set_media_set_media. f_equal. f_equal.
      unfold bunkr_fixed at 1.
      assert (E : select_where bunkr_completed (bunkr_fixed (media (db_conn s))) = []).
      { unfold select_where.
        destruct (filter bunkr_completed _) as [|x l] eqn:E; [reflexivity|].
        assert (Hx : In x (filter bunkr_completed
                             (rows (bunkr_fixed (media (db_conn s))))))
          by (rewrite E; now left).
        apply filter_In in Hx as [Hx Hb]. apply Hnone in Hx.
        unfold bunkr_completed in Hb. apply andb_true_iff in Hb as [Hb _].
        unfold under_bunkr in Hx. congruence. }
      rewrite E. cbn [fold_left]. unfold delete_where.
      rewrite filter_all; [apply table_eta|].
      intros x Hx. now rewrite (Hnone x Hx).
    + rewrite media_set_media. unfold bunkr_fixed, delete_where, current_schema.
      cbn [cols]. rewrite cols_fold_replace. exact Hs.
Qed.

Definition bunkr_row (completed : Z) : Row :=
  mkRow (VText "bunkr") (VText "/v/clip-AbCd1234.mp4")
        (VText "https://bunkr.su/a/XyZ987") (VText "XyZ987")
        (VText "Downloads/album") (VText "clip.mp4") (VText "clip.mp4")
        (VInt completed) (VText "2023-05-01 12:00:00") VNull VNull.

Lemma fix_bunkr_v4_entries_moves_completed_witness :
  exists s1,
    fix_bunkr_v4_entries
      (ledger_of [Domain; UrlPath; OriginalFilename] [bunkr_row 1; sample_row])
      = (Ok tt, s1) /\
    (forall r, In r (rows (media (db_conn s1))) -> domain r <> VText "bunkr") /\
    (forall r, In r [bunkr_row 1; sample_row] ->
               domain r = VText "bunkr" -> completed r = VInt 1 ->
               In (set_cell Domain (VText "bunkrr") r) (rows (media (db_conn s1)))) /\
    fix_bunkr_v4_entries s1 = (Ok tt, s1).
Proof.
  apply (fix_bunkr_v4_entries_moves_completed
           (ledger_of [Domain; UrlPath; OriginalFilename] [bunkr_row 1; sample_row])).
  - split; [reflexivity|]. split; [|reflexivity].
    intros c. destruct c; simpl; tauto.
  - solve_unique.
Defined.

(** C4, as stated, fails for a row under "bunkr" that is not marked
    complete: the pass deletes it and stores nothing under "bunkrr". *)
Lemma fix_bunkr_v4_entries_drops_incomplete :
  fix_bunkr_v4_entries (ledger_of [Domain; UrlPath] [bunkr_row 0])
  = (Ok tt, ledger_of [Domain; UrlPath] []).
Proof. reflexivity. Qed.

(** *** GROUP BY *)

(** The values a group is formed on. *)
Definition group_key (r : Row) : Value * Value * Value :=
  (cell Domain r, cell UrlPath r, cell OriginalFilename r).

Lemma same_group_iff a b : same_group a b = true <-> group_key a = group_key b.
Proof.
  unfold same_group, group_key. cbn [forallb].
  rewrite !andb_true_iff, !Value_eqb_eq. split.
  - intros (H1 & H2 & H3 & _). congruence.
  - intros H. injection H as H1 H2 H3. auto.
Qed.

Lemma same_group_refl a : same_group a a = true.
Proof. now apply same_group_iff. Qed.

Lemma same_group_false_iff a b : same_group a b = false <-> group_key a <> group_key b.
Proof.
  rewrite <- same_group_iff. destruct (same_group a b); split; congruence.
Qed.

(** The first row of a group is a row of the table that belongs to no
    group opened before, and the other rows of the group are later rows
    with the same key. *)
Lemma group_by_member l : forall seen g,
  In g (group_by seen l) ->
  In (fst g) l /\ existsb (same_group (fst g)) seen = false /\
  (forall o, In o (snd g) -> In o l /\ group_key o = group_key (fst g)).
Proof.
  induction l as [|r l IH]; intros seen g Hg; cbn [group_by] in Hg.
  - destruct Hg.
  - destruct (existsb (same_group r) seen) eqn:E.
    + destruct (IH _ _ Hg) as (H1 & H2 & H3). repeat split; auto.
      * now right.
      * right. now apply H3.
      * now apply H3.
    + destruct Hg as [<-|Hg].
      * cbn [fst snd]. repeat split; auto.
        -- now left.
        -- right. apply filter_In in H. tauto.
        -- apply filter_In in H as [_ H]. apply same_group_iff in H. congruence.
      * destruct (IH _ _ Hg) as (H1 & H2 & H3).
        cbn [existsb] in H2. apply orb_false_iff in H2 as [_ H2].
        repeat split; auto.
        -- now right.
        -- right. now apply H3.
        -- now apply H3.
Qed.

(** Distinct groups have distinct keys. *)
Lemma group_by_NoDup l : forall seen,
  NoDup (map (fun g => group_key (fst g)) (group_by seen l)).
Proof.
  induction l as [|r l IH]; intros seen; cbn [group_by].
  - constructor.
  - destruct (existsb (same_group r) seen); [apply IH|].
    cbn [map fst]. constructor; [|apply IH].
    intros Hin. apply in_map_iff in Hin as (g & Hk & Hg).
    apply group_by_member in Hg as (_ & H2 & _).
    cbn [existsb] in H2. apply orb_false_iff in H2 as [H2 _].
    apply same_group_false_iff in H2. congruence.
Qed.

(** Every row falls in a group. *)
Lemma group_by_covers l : forall seen x,
  In x l ->
  In (group_key x) (map group_key seen) \/
  In (group_key x) (map (fun g => group_key (fst g)) (group_by seen l)).
Proof.
  induction l as [|r l IH]; intros seen x Hx; [destruct Hx|].
  cbn [group_by]. destruct (existsb (same_group r) seen) eqn:E.
  - destruct Hx as [<-|Hx]; [|now apply IH].
    left. apply existsb_exists in E as (y & Hy & Hs).
    apply same_group_iff in Hs. rewrite Hs. now apply in_map.
  - cbn [map fst]. destruct Hx as [<-|Hx].
    + right. now left.
    + destruct (IH (r :: seen) x Hx) as [H|H].
      * cbn [map] in H. destruct H as [H|H]; [right; now left | now left].
      * right. now right.
Qed.

(** *** The rebuild of fix_primary_keys *)

(** A row as the rebuild copies it: the seven legacy columns, the others
    NULL. *)
Definition legacy_part (r : Row) : Row :=
  row_of_values legacy_columns (project legacy_columns r).

Lemma cell_legacy_part c r :
  cell c (legacy_part r) =
  if existsb (Col_eqb c) legacy_columns then cell c r else VNull.
Proof.
  unfold legacy_part, row_of_values, project.
  rewrite (cell_fold_set (fun c => cell c r)).
  destruct (existsb (Col_eqb c) legacy_columns); [reflexivity|now destruct c].
Qed.

Lemma group_key_legacy_part r : group_key (legacy_part r) = group_key r.
Proof. unfold group_key. now rewrite !cell_legacy_part. Qed.

Lemma insert_rows_ok rs : forall t,
  unique_rows (pk_cols t) (rows t ++ rs) ->
  insert_rows rs t = Ok (mkTable (cols t) (pk_cols t) (rows t ++ rs)).
Proof.
  induction rs as [|r rs IH]; intros t Hu; cbn [insert_rows].
  - rewrite app_nil_r. now rewrite table_eta.
  - unfold insert_row.
    assert (He : existsb (conflicts (pk_cols t) r) (rows t) = false).
    { destruct (existsb _ _) eqn:E; [|reflexivity].
      apply existsb_exists in E as (x & Hx & Hc).
      apply unique_rows_app in Hu as (_ & _ & H12).
      rewrite conflicts_sym, H12 in Hc; [discriminate | exact Hx | now left]. }
    rewrite He, IH; cbn [cols pk_cols rows].
    + now rewrite <- app_assoc.
    + now rewrite <- app_assoc.
Qed.

Lemma unique_rows_by_key {K} pk (key : Row -> K) l :
  NoDup (map key l) ->
  (forall a b, In a l -> In b l -> conflicts pk a b = true -> key a = key b) ->
  unique_rows pk l.
Proof.
  induction l as [|a l IH]; cbn [map unique_rows]; intros Hnd Hk; [exact I|].
  inversion Hnd as [|? ? Hni Hnd']; subst. split.
  - intros x Hx. destruct (conflicts pk a x) eqn:E; [|reflexivity].
    exfalso. apply Hni. rewrite (Hk a x); simpl; auto. now apply in_map.
  - apply IH; auto. intros; apply Hk; simpl; auto.
Qed.

Lemma NoDup_filter_one {A K} (key : A -> K) (test : A -> bool) (k : K) l :
  NoDup (map key l) ->
  (forall x, In x l -> (test x = true <-> key x = k)) ->
  In k (map key l) ->
  List.length (filter test l) = 1.
Proof.
  induction l as [|a l IH]; cbn [map filter]; intros Hnd Ht Hin; [destruct Hin|].
  inversion Hnd as [|? ? Hni Hnd']; subst.
  destruct (test a) eqn:Ea.
  - apply Ht in Ea; [|now left]. cbn [List.length]. f_equal.
    destruct (filter test l) as [|y ys] eqn:E; [reflexivity|].
    assert (Hy : In y (filter test l)) by (rewrite E; now left).
    apply filter_In in Hy as [Hy Ty]. apply Ht in Ty; [|now right].
    exfalso. apply Hni. rewrite Ea, <- Ty. now apply in_map.
  - destruct Hin as [Hin|Hin].
    + apply Ht in Hin; [congruence | now left].
    + apply IH; auto. intros; apply Ht; now right.
Qed.

Lemma pk_index_from_absent c pk : forall n,
  ~ In c pk -> pk_index_from n c pk = 0%Z.
Proof.
  induction pk as [|k pk IH]; intros n Hni; cbn [pk_index_from]; [reflexivity|].
  destruct (Col_eqb k c) eqn:E.
  - apply Col_eqb_eq in E. subst. exfalso. apply Hni. now left.
  - apply IH. intros H. apply Hni. now right.
Qed.

Lemma pk_index_from_present c pk : forall n,
  (0 < n)%Z -> In c pk -> (0 < pk_index_from n c pk)%Z.
Proof.
  induction pk as [|k pk IH]; intros n Hn Hin; [destruct Hin|].
  cbn [pk_index_from]. destruct (Col_eqb k c) eqn:E; [exact Hn|].
  destruct Hin as [->|Hin]; [now rewrite Col_eqb_refl in E|].
  apply IH; [lia | exact Hin].
Qed.

Section RebuildFacts.

Variable create_fixed_history : Schema.
Variable choose : Row -> list Row -> Row.

(** The row SQLite picks for a group is a row of that group. *)
Hypothesis choose_in : forall r l, In (choose r l) (r :: l).

(** The rows the rebuild copies: one per group. *)
Definition representatives (l : list Row) : list Row :=
  map (fun g => choose (fst g) (snd g)) (group_by [] l).

Lemma representative_in l g :
  In g (group_by [] l) ->
  In (choose (fst g) (snd g)) l /\
  group_key (choose (fst g) (snd g)) = group_key (fst g).
Proof.
  intros Hg. apply group_by_member in Hg as (H1 & _ & H3).
  destruct (choose_in (fst g) (snd g)) as [<-|Ho]; [now split|].
  now apply H3.
Qed.

Lemma representatives_in l r :
  In r (representatives l) -> In r l.
Proof.
  intros H. apply in_map_iff in H as (g & <- & Hg).
  now destruct (representative_in l g Hg).
Qed.

Lemma representatives_keys l :
  map group_key (representatives l)
  = map (fun g => group_key (fst g)) (group_by [] l).
Proof.
  unfold representatives. rewrite map_map. apply map_ext_in.
  intros g Hg. now destruct (representative_in l g Hg).
Qed.

Lemma select_grouped_legacy t :
  cols t = legacy_columns ->
  map (row_of_values legacy_columns) (select_grouped choose t)
  = map legacy_part (representatives (rows t)).
Proof.
  intros Hc. unfold select_grouped, representatives.
  rewrite !map_map, Hc. reflexivity.
Qed.

(** Rows of different groups do not collide on the key of the rebuilt
    table.  This is so whenever that key contains the three grouping
    columns (lemma [grouping_key_fits]). *)
Definition key_fits (pk : list Col) (l : list Row) : Prop :=
  forall r1 r2, In r1 l -> In r2 l ->
    conflicts pk (legacy_part r1) (legacy_part r2) = true ->
    same_group r1 r2 = true.

Lemma copied_unique pk l :
  key_fits pk l -> unique_rows pk (map legacy_part (representatives l)).
Proof.
  intros Hfit. apply (unique_rows_by_key pk group_key).
  - rewrite map_map.
    rewrite (map_ext _ group_key) by (intros; apply group_key_legacy_part).
    rewrite representatives_keys. apply group_by_NoDup.
  - intros a b Ha Hb Hc.
    apply in_map_iff in Ha as (ra & <- & Ha).
    apply in_map_iff in Hb as (rb & <- & Hb).
    rewrite !group_key_legacy_part. apply same_group_iff.
    apply Hfit; auto; now apply representatives_in.
Qed.

Lemma copy_grouped_run src dst_cols dst_pk :
  cols src = legacy_columns ->
  incl legacy_columns dst_cols ->
  key_fits dst_pk (rows src) ->
  copy_grouped choose src (mkTable dst_cols dst_pk [])
  = Ok (mkTable dst_cols dst_pk (map legacy_part (representatives (rows src)))).
Proof.
  intros Hc Hincl Hfit. unfold copy_grouped. cbn [cols].
  assert (forallb (fun c => existsb (Col_eqb c) dst_cols) legacy_columns = true) as ->.
  { apply forallb_forall. intros c Hin. apply existsb_Col_eqb_In. now apply Hincl. }
  rewrite Hc. cbn [negb List.length legacy_columns Nat.eqb].
  rewrite (select_grouped_legacy src Hc).
  rewrite insert_rows_ok; cbn [cols pk_cols rows app]; [reflexivity|].
  now apply copied_unique.
Qed.

(** The state after a rebuild. *)
Definition rebuilt (s : Self) : Self :=
  mkSelf (mkDatabase
            (mkTable (schema_cols create_fixed_history)
                     (schema_pk create_fixed_history)
                     (map legacy_part (representatives (rows (media (db_conn s))))))
            None (hash (db_conn s)))
         (ignore_history s).

Lemma fix_primary_keys_run s :
  cols (media (db_conn s)) = legacy_columns ->
  ~ In Domain (pk_cols (media (db_conn s))) ->
  media_copy (db_conn s) = None ->
  incl legacy_columns (schema_cols create_fixed_history) ->
  key_fits (schema_pk create_fixed_history) (rows (media (db_conn s))) ->
  fix_primary_keys create_fixed_history choose s = (Ok tt, rebuilt s).
Proof.
  intros Hc Hpk Hcopy Hincl Hfit. unfold fix_primary_keys.
  erewrite bind_ok; [|reflexivity].
  unfold table_info. rewrite Hc. cbn [legacy_columns table_info_from info_pk].
  unfold pk_index. rewrite (pk_index_from_absent _ _ _ Hpk). cbn [Z.eqb].
  erewrite bind_ok.
  2:{ unfold create_media_copy, modify. rewrite Hcopy. reflexivity. }
  erewrite bind_ok; [|reflexivity].
  erewrite bind_ok.
  2:{ unfold copy_media, set_media_copy. cbn [db_conn media_copy media].
      rewrite (copy_grouped_run _ _ _ Hc Hincl Hfit). reflexivity. }
  erewrite bind_ok; [|reflexivity].
  erewrite bind_ok; [|reflexivity].
  reflexivity.
Qed.

(** A table whose first column belongs to the primary key is left
    alone. *)
Lemma fix_primary_keys_skip s c rest :
  cols (media (db_conn s)) = c :: rest ->
  pk_index c (media (db_conn s)) <> 0%Z ->
  fix_primary_keys create_fixed_history choose s = (Ok tt, s).
Proof.
  intros Hc Hpk. unfold fix_primary_keys.
  erewrite bind_ok; [|reflexivity].
  unfold table_info. rewrite Hc. cbn [table_info_from info_pk].
  apply Z.eqb_neq in Hpk. rewrite Hpk. reflexivity.
Qed.

(** C2.  From a legacy-shaped table (the seven legacy columns, [domain]
    outside the primary key, no [media_copy] left behind),
    [fix_primary_keys] succeeds and leaves a table with the columns and
    the primary key of [create_fixed_history], well formed, holding
    exactly one row for each (domain, url_path, original_filename) group
    of the old table, each the copy of a row of its group; a table whose
    first column is in the primary key is left unchanged.  The columns of
    [create_fixed_history] must include the seven legacy ones, and rows of
    different groups must not collide on its key. *)
Theorem fix_primary_keys_rebuilds (s : Self) :
  cols (media (db_conn s)) = legacy_columns ->
  ~ In Domain (pk_cols (media (db_conn s))) ->
  media_copy (db_conn s) = None ->
  incl legacy_columns (schema_cols create_fixed_history) ->
  key_fits (schema_pk create_fixed_history) (rows (media (db_conn s))) ->
  (exists s',
     fix_primary_keys create_fixed_history choose s = (Ok tt, s') /\
     cols (media (db_conn s')) = schema_cols create_fixed_history /\
     pk_cols (media (db_conn s')) = schema_pk create_fixed_history /\
     media_copy (db_conn s') = None /\
     unique_table (media (db_conn s')) /\
     (forall r, In r (rows (media (db_conn s))) ->
        List.length (filter (same_group r) (rows (media (db_conn s')))) = 1) /\
     (forall r', In r' (rows (media (db_conn s'))) ->
        exists r, In r (rows (media (db_conn s))) /\ r' = legacy_part r)) /\
  (forall s0 c rest,
     cols (media (db_conn s0)) = c :: rest ->
     pk_index c (media (db_conn s0)) <> 0%Z ->
     fix_primary_keys create_fixed_history choose s0 = (Ok tt, s0)).
Proof.
  intros Hc Hpk Hcopy Hincl Hfit. split; [|apply fix_primary_keys_skip].
  exists (rebuilt s). split; [now apply fix_primary_keys_run|].
  unfold rebuilt, unique_table. cbn [db_conn media media_copy cols pk_cols rows].
  repeat split.
  - now apply copied_unique.
  - intros r Hr.
    apply (NoDup_filter_one group_key (same_group r) (group_key r)).
    + rewrite map_map.
      rewrite (map_ext _ group_key) by (intros; apply group_key_legacy_part).
      rewrite representatives_keys. apply group_by_NoDup.
    + intros x _. rewrite same_group_iff. split; congruence.
    + rewrite map_map.
      rewrite (map_ext _ group_key) by (intros; apply group_key_legacy_part).
      rewrite representatives_keys.
      destruct (group_by_covers _ [] r Hr) as [[]|H]. exact H.
  - intros r' Hr'. apply in_map_iff in Hr' as (r & <- & Hr).
    exists r. split; [now apply representatives_in | reflexivity].
Qed.

End RebuildFacts.

(** When the key of the rebuilt table contains the three grouping columns,
    rows of different groups never collide on it. *)
Lemma grouping_key_fits pk l :
  incl [Domain; UrlPath; OriginalFilename] pk -> key_fits pk l.
Proof.
  intros Hincl r1 r2 _ _ Hc.
  assert (Hcell : forall c, In c [Domain; UrlPath; OriginalFilename] ->
                            cell c r1 = cell c r2).
  { intros c Hin. pose proof (Hincl c Hin) as Hpk.
    unfold conflicts in Hc. destruct pk as [|k pk]; [destruct Hpk|].
    rewrite forallb_forall in Hc. specialize (Hc c Hpk).
    rewrite !cell_legacy_part in Hc.
    assert (E : existsb (Col_eqb c) legacy_columns = true).
    { destruct Hin as [<-|[<-|[<-|[]]]]; reflexivity. }
    rewrite E in Hc. unfold uniq_eqb in Hc.
    destruct (cell c r1); [discriminate| |]; now apply Value_eqb_eq in Hc. }
  apply same_group_iff. unfold group_key.
  rewrite (Hcell Domain), (Hcell UrlPath), (Hcell OriginalFilename);
    simpl; auto.
Qed.

Definition legacy_row (d p f c : string) : Row :=
  mkRow (VText d) (VText p) (VText "https://example.org/page") VNull
        (VText "Downloads") (VText f) (VText f) (VText c) VNull VNull VNull.

Definition legacy_ledger : Self :=
  mkSelf (mkDatabase
            (mkTable legacy_columns []
               [legacy_row "cyberdrop" "/a.jpg" "a.jpg" "1";
                legacy_row "cyberdrop" "/a.jpg" "a.jpg" "0";
                legacy_row "cyberdrop" "/a.jpg" "a (1).jpg" "1";
                legacy_row "bunkr" "/a.jpg" "a.jpg" "1"])
            None None)
         false.

Lemma fix_primary_keys_rebuilds_witness :
  exists s',
    fix_primary_keys (mkSchema legacy_columns [Domain; UrlPath; OriginalFilename])
                     (fun r _ => r) legacy_ledger = (Ok tt, s') /\
    List.length (rows (media (db_conn s'))) = 3.
Proof.
  destruct (fix_primary_keys_rebuilds
              (mkSchema legacy_columns [Domain; UrlPath; OriginalFilename])
              (fun r _ => r) (fun r l => or_introl eq_refl) legacy_ledger)
    as [(s' & E & _) _].
  - reflexivity.
  - simpl. tauto.
  - reflexivity.
  - apply incl_refl.
  - apply grouping_key_fits, incl_refl.
  - exists s'. split; [exact E|].
    rewrite (fix_primary_keys_run _ _ (fun r l => or_introl eq_refl)) in E.
    + injection E as <-. reflexivity.
    + reflexivity.
    + simpl. tauto.
    + reflexivity.
    + apply incl_refl.
    + apply grouping_key_fits, incl_refl.
Defined.

(** *** get_db_path *)

Lemma contains_truthy sub s :
  sub <> EmptyString -> PyStr.contains sub s = true -> truthy s = true.
Proof.
  intros Hsub H. destruct s; [|reflexivity].
  destruct sub; [congruence | discriminate].
Qed.

(** C10 (amended).  For a referer that contains "e-hentai" and does not
    contain "mediafire": when the URL's path has no "keystamp",
    [get_db_path] returns the path without its final character (the
    empty path stays empty); when it has one, the result is the text
    before the first "keystamp", without the character that ends that
    text. *)
Theorem get_db_path_ehentai (url : URL) (referer : string) :
  PyStr.contains "e-hentai" referer = true ->
  PyStr.contains "mediafire" referer = false ->
  (PyStr.contains "keystamp" (path url) = false ->
     get_db_path url referer = PyStr.drop_last (path url) /\
     (path url <> EmptyString ->
        get_db_path url referer <> path url /\
        exists c, path url = (get_db_path url referer ++ String c EmptyString)%string)) /\
  (PyStr.contains "keystamp" (path url) = true ->
     exists pre post,
       path url = (pre ++ "keystamp" ++ post)%string /\
       (forall pre' post', path url = (pre' ++ "keystamp" ++ post')%string ->
                           String.length pre <= String.length pre') /\
       get_db_path url referer = PyStr.drop_last pre).
Proof.
  intros He Hm.
  assert (Ht : truthy referer = true)
    by (apply (contains_truthy "e-hentai"); [discriminate | assumption]).
  unfold get_db_path. rewrite Ht, He, Hm. simpl andb. cbv iota.
  split; intros Hk.
  - rewrite (PyStrFacts.split_head_absent _ _ Hk). split; [reflexivity|].
    intros Hne. split.
    + now apply PyStrFacts.drop_last_shorter.
    + now apply PyStrFacts.drop_last_nonempty.
  - destruct (PyStrFacts.split_head_present _ _ Hk) as [post Hp].
    exists (PyStr.split_head "keystamp" (path url)), post.
    split; [exact Hp|]. split; [|reflexivity].
    intros pre' post' E. now apply (PyStrFacts.split_head_first _ _ _ post').
Qed.

Lemma get_db_path_ehentai_witness :
  exists pre post,
    "/h/0a1b2c3d4e-12345-800-600-jpg/keystamp=1700000000-abcdef;fileindex=1;xres=800/pic.jpg"
      = (pre ++ "keystamp" ++ post)%string /\
    get_db_path
      (mkURL "/h/0a1b2c3d4e-12345-800-600-jpg/keystamp=1700000000-abcdef;fileindex=1;xres=800/pic.jpg"
             "pic.jpg")
      "https://e-hentai.org/s/0a1b2c3d4e/2770000-1"
    = PyStr.drop_last pre.
Proof.
  destruct (get_db_path_ehentai
              (mkURL "/h/0a1b2c3d4e-12345-800-600-jpg/keystamp=1700000000-abcdef;fileindex=1;xres=800/pic.jpg"
                     "pic.jpg")
              "https://e-hentai.org/s/0a1b2c3d4e/2770000-1"
              eq_refl eq_refl) as [_ H].
  destruct (H eq_refl) as (pre & post & E1 & _ & E2).
  exists pre, post. split; assumption.
Defined.

(** C10, as stated, fails for a referer that contains both "e-hentai" and
    "mediafire": the path has no "keystamp", yet the result is the URL's
    name, not the path without its final character. *)
Lemma get_db_path_ehentai_mediafire_referer :
  PyStr.contains "e-hentai" "https://forum.example/threads/e-hentai-and-mediafire.7/" = true /\
  PyStr.contains "keystamp" (path (mkURL "/s/0a1b2c3d4e/2770000-1" "2770000-1")) = false /\
  get_db_path (mkURL "/s/0a1b2c3d4e/2770000-1" "2770000-1")
              "https://forum.example/threads/e-hentai-and-mediafire.7/"
    = "2770000-1" /\
  PyStr.drop_last (path (mkURL "/s/0a1b2c3d4e/2770000-1" "2770000-1"))
    = "/s/0a1b2c3d4e/2770000-".
Proof. repeat split; reflexivity. Qed.

(** *** check_filename_exists *)

(** C9.  Whatever the database holds, [check_filename_exists] returns
    [False] and leaves the state as it was: the row it fetched is compared
    with the integer 1. *)
Theorem check_filename_exists_false (s : Self) (filename : string) :
  check_filename_exists filename s = (Ok false, s).
Proof.
  unfold check_filename_exists, bind, query, ret, fetchone. simpl.
  reflexivity.
Qed.

End HistoryTableFacts.

(** ** The Coomer crawler *)

Module CoomerCrawlerFacts.
Import CoomerCrawler EffFacts.

(** The spec's [AuthRequiredFailure]: the crawler raises it as a
    [ScrapeFailure] with status 401. *)
Definition AuthRequiredFailure (e : Exn) : Prop :=
  exists message, e = ScrapeFailure 401 message.

(** The URL [favorites] asks. *)
Definition favourites_api_url : URL :=
  mkURL "coomer.su" ["api"; "v1"; "account"; "favorites"] [("type", "artist")].

(** What a call leaves alone when it sends nothing and shows nothing. *)
Definition same_traffic (w w' : World) : Prop :=
  session_cookie w' = session_cookie w /\
  limiter_entries w' = limiter_entries w /\
  requests w' = requests w /\
  handled w' = handled w /\
  progress w' = progress w /\
  next_task_id w' = next_task_id w.

Lemma same_traffic_refl w : same_traffic w w.
Proof. repeat split. Qed.

Lemma same_traffic_trans w1 w2 w3 :
  same_traffic w1 w2 -> same_traffic w2 w3 -> same_traffic w1 w3.
Proof. unfold same_traffic. intuition congruence. Qed.

(** A computation that never touches the traffic. *)
Definition quiet {A} (m : Eff A) : Prop := forall w, same_traffic w (snd (m w)).

Lemma quiet_ret {A} (a : A) : quiet (ret a).
Proof. intros w. apply same_traffic_refl. Qed.

Lemma quiet_raise {A} (e : Exn) : quiet (@raise World Exn A e).
Proof. intros w. apply same_traffic_refl. Qed.

Lemma quiet_lift {A} (r : Result Exn A) : quiet (lift r).
Proof. intros w. apply same_traffic_refl. Qed.

Lemma quiet_bind {A B} (m : Eff A) (k : A -> Eff B) :
  quiet m -> (forall a, quiet (k a)) -> quiet (bind m k).
Proof.
  intros Hm Hk w. unfold bind. specialize (Hm w).
  destruct (m w) as [[a|e] w1]; simpl in *; [|exact Hm].
  apply (same_traffic_trans _ w1); [exact Hm | apply Hk].
Qed.

Lemma quiet_for_each {A} (l : list A) (body : A -> Eff unit) :
  (forall a, quiet (body a)) -> quiet (for_each l body).
Proof.
  intros Hb. induction l as [|a l IH]; simpl.
  - apply quiet_ret.
  - apply quiet_bind; auto.
Qed.

Lemma quiet_spawn i : quiet (spawn i).
Proof. intros w. repeat split. Qed.

Lemma quiet_the_scrape_item : quiet the_scrape_item.
Proof. intros w. apply same_traffic_refl. Qed.

Lemma quiet_modify_scrape_item f :
  quiet (modify (fun w => set_scrape_item (f w) w)).
Proof. intros w. repeat split. Qed.

Section CrawlerFacts.

Variable config : Config.
Variable client : Client.
Variable create_scrape_item :
  ScrapeItem -> URL -> option string -> bool -> option string -> option Z ->
  option URL -> ScrapeItem.
Variable create_title : string -> string.
Variable add_to_parent_title : ScrapeItem -> option string -> ScrapeItem.
Variable get_filename_and_ext : string -> Result Exn (string * string).
Variable strptime_timegm : string -> option Z.

#[local] Abbreviation favorites_body := (favorites_body config client create_scrape_item).
#[local] Abbreviation favorites := (favorites config client create_scrape_item).
#[local] Abbreviation handle_post_content :=
  (handle_post_content config create_scrape_item create_title
                       add_to_parent_title strptime_timegm).
#[local] Abbreviation handle_post_content_body :=
  (handle_post_content_body config create_scrape_item create_title
                            add_to_parent_title strptime_timegm).
#[local] Abbreviation handle_file_obj :=
  (handle_file_obj config create_scrape_item create_title
                   add_to_parent_title strptime_timegm).
#[local] Abbreviation create_new_scrape_item :=
  (create_new_scrape_item config create_scrape_item create_title
                          add_to_parent_title strptime_timegm).
#[local] Abbreviation profile_pages :=
  (profile_pages config client create_scrape_item create_title
                 add_to_parent_title strptime_timegm).
#[local] Abbreviation profile_body :=
  (profile_body config client create_scrape_item create_title
                add_to_parent_title strptime_timegm).
#[local] Abbreviation profile :=
  (profile config client create_scrape_item create_title
           add_to_parent_title strptime_timegm).

(** *** favorites *)

(** C5.  With no session configured, the body of [favorites] raises the
    401 scrape failure (the spec's AuthRequiredFailure) and leaves the
    world as it was: no child is spawned and no request goes out; the
    error boundary around it logs the failure and does no more. *)
Theorem favorites_requires_session (w : World) :
  session config = EmptyString ->
  exists e w',
    AuthRequiredFailure e /\
    favorites_body w = (Raise e, w) /\
    favorites w = (Ok tt, w') /\
    tasks w' = tasks w /\ requests w' = requests w /\
    session_cookie w' = session_cookie w /\
    logged w' = logged w ++ [e].
Proof.
  intros Hs.
  exists (ScrapeFailure 401
            "No session cookie found in the config file, cannot scrape favorites").
  eexists. split; [now eexists|].
  assert (E : favorites_body w =
              (Raise (ScrapeFailure 401
                 "No session cookie found in the config file, cannot scrape favorites"),
               w)).
  { unfold CoomerCrawler.favorites_body. rewrite Hs. reflexivity. }
  split; [exact E|].
  unfold CoomerCrawler.favorites, error_handling_wrapper. rewrite E.
  repeat split.
Qed.

Lemma truthy_nonempty s : s <> EmptyString -> HistoryTable.truthy s = true.
Proof. destruct s; [congruence | reflexivity]. Qed.

(** The world once the favourites request has gone out. *)
Definition requested (w : World) : World :=
  mkWorld (scrape_item w) (session config) (S (limiter_entries w))
          (requests w ++ [mkRequest favourites_api_url (session config)])
          (tasks w) (handled w) (progress w) (next_task_id w) (logged w).

(** The loop of [favorites] over the entries of the answer. *)
Definition spawn_favorites (users : list User) : Eff unit :=
  for_each users
    (fun user =>
       bind (lift (truediv primary_base_domain (user_service user))) (fun u =>
       bind (lift (truediv u "user")) (fun u =>
       bind (lift (truediv u (user_id user))) (fun u =>
       bind the_scrape_item (fun scrape_item =>
       spawn (create_scrape_item scrape_item u None true None None None)))))).

Lemma favorites_body_run (w : World) :
  session config <> EmptyString ->
  favorites_body w =
  match get_json_users client (session config) favourites_api_url with
  | Ok users => bind (update_cookies "") (fun _ => spawn_favorites users) (requested w)
  | Raise e => (Raise e, requested w)
  end.
Proof.
  intros Hs. unfold CoomerCrawler.favorites_body.
  rewrite (truthy_nonempty _ Hs). reflexivity.
Qed.

Lemma quiet_spawn_favorites users : quiet (spawn_favorites users).
Proof.
  apply quiet_for_each. intros u.
  repeat (apply quiet_bind;
          [first [apply quiet_lift | apply quiet_the_scrape_item] | intros ?]).
  apply quiet_spawn.
Qed.

(** C6, the failing path.  With a session configured, when the favourites
    request raises, [favorites] ends with the session cookie still
    attached to the shared client. *)
Theorem favorites_leaves_cookie_on_failure (w : World) (e : Exn) :
  session config <> EmptyString ->
  get_json_users client (session config) favourites_api_url = Raise e ->
  exists w',
    favorites w = (Ok tt, w') /\
    session_cookie w' = session config /\
    session_cookie w' <> EmptyString /\
    tasks w' = tasks w /\
    logged w' = logged w ++ [e].
Proof.
  intros Hs Hr.
  unfold CoomerCrawler.favorites, error_handling_wrapper.
  rewrite (favorites_body_run w Hs), Hr.
  eexists. split; [reflexivity|]. repeat split. exact Hs.
Qed.

(** When the request returns, the cookie is emptied before any child is
    spawned, whatever happens in the loop after that. *)
Lemma favorites_clears_cookie_on_success (w : World) (users : list User) :
  session config <> EmptyString ->
  get_json_users client (session config) favourites_api_url = Ok users ->
  session_cookie (snd (favorites w)) = EmptyString.
Proof.
  intros Hs Hr.
  unfold CoomerCrawler.favorites, error_handling_wrapper.
  rewrite (favorites_body_run w Hs), Hr.
  unfold bind at 1. unfold update_cookies at 1. unfold modify at 1.
  match goal with
  | |- context [spawn_favorites users ?w0] =>
      pose proof (quiet_spawn_favorites users w0) as (Hc & _);
        destruct (spawn_favorites users w0) as [[[]|e'] w1];
        cbn [snd] in *; exact Hc
  end.
Qed.

(** *** handle_post_content *)

Definition with_tasks (l : list ScrapeItem) (w : World) : World :=
  mkWorld (scrape_item w) (session_cookie w) (limiter_entries w) (requests w)
          l (handled w) (progress w) (next_task_id w) (logged w).

Lemma quiet_wrapper (m : Eff unit) : quiet m -> quiet (error_handling_wrapper m).
Proof.
  intros Hm w. unfold error_handling_wrapper. specialize (Hm w).
  destruct (m w) as [[[]|e] w1]; cbn [snd] in *; [exact Hm|].
  destruct Hm as (H1 & H2 & H3 & H4 & H5 & H6). repeat split; assumption.
Qed.

Lemma wrapper_ok (m : Eff unit) w : fst (error_handling_wrapper m w) = Ok tt.
Proof.
  unfold error_handling_wrapper. now destruct (m w) as [[[]|e] w1].
Qed.

Lemma quiet_create_new_scrape_item link user title0 pid date parent :
  quiet (create_new_scrape_item link user title0 pid date parent).
Proof.
  unfold CoomerCrawler.create_new_scrape_item.
  destruct (strptime_timegm date); [|apply quiet_raise].
  apply quiet_bind; [apply quiet_the_scrape_item | intros; apply quiet_spawn].
Qed.

Lemma quiet_handle_file_obj user_str title0 pid date f :
  quiet (handle_file_obj user_str title0 pid date f).
Proof.
  unfold CoomerCrawler.handle_file_obj.
  repeat (apply quiet_bind;
          [first [apply quiet_lift | apply quiet_the_scrape_item] | intros ?]).
  apply quiet_create_new_scrape_item.
Qed.

(** Handling a post sends no request, enters no limiter and leaves the
    cookie alone. *)
Lemma quiet_handle_post_content post0 user user_str :
  quiet (handle_post_content post0 user user_str).
Proof.
  apply quiet_wrapper. unfold CoomerCrawler.handle_post_content_body.
  destruct (_ && _); [apply quiet_ret|].
  destruct (py_or _ _); [|apply quiet_raise].
  apply quiet_bind; [apply quiet_modify_scrape_item | intros _].
  apply quiet_bind.
  - destruct (file post0); [apply quiet_handle_file_obj | apply quiet_ret].
  - intros _. apply quiet_for_each. intros; apply quiet_handle_file_obj.
Qed.

(** The child a file of a post becomes, when its links can be formed. *)
Definition child_of (user_str post_title pid date : string) (stamp : Z)
           (si : ScrapeItem) (f : FileObj) : ScrapeItem :=
  match truediv primary_base_domain ("data" ++ file_path f),
        truediv (url si) "post" with
  | Ok link, Ok parent =>
      match truediv parent pid with
      | Ok parent =>
          add_to_parent_title
            (create_scrape_item si (with_query link [("f", file_name f)])
               (Some (create_title user_str)) true None (Some stamp) (Some parent))
            (if separate_posts config then
               if include_album_id_in_folder_name config
               then Some (pid ++ " - " ++ (date ++ " - " ++ post_title))%string
               else Some (date ++ " - " ++ post_title)%string
             else None)
      | Raise _ => si
      end
  | _, _ => si
  end.

Lemma handle_file_obj_run user_str post_title pid date stamp f w :
  strptime_timegm date = Some stamp ->
  PyStr.startswith "/" pid = false ->
  handle_file_obj user_str post_title pid date f w =
  (Ok tt, with_tasks (tasks w ++ [child_of user_str post_title pid date stamp
                                           (scrape_item w) f]) w).
Proof.
  intros Hd Hp.
  unfold CoomerCrawler.handle_file_obj, CoomerCrawler.create_new_scrape_item, child_of.
  unfold truediv. rewrite Hd, Hp. cbn [PyStr.startswith append Ascii.eqb Bool.eqb andb].
  destruct (separate_posts config), (include_album_id_in_folder_name config);
    reflexivity.
Qed.

Lemma for_each_files_run user_str post_title pid date stamp files : forall w,
  strptime_timegm date = Some stamp ->
  PyStr.startswith "/" pid = false ->
  for_each files (handle_file_obj user_str post_title pid date) w =
  (Ok tt, with_tasks (tasks w ++ map (child_of user_str post_title pid date stamp
                                               (scrape_item w)) files) w).
Proof.
  induction files as [|f files IH]; intros w Hd Hp; cbn [for_each map].
  - unfold ret, with_tasks. rewrite app_nil_r. now destruct w.
  - rewrite (bind_ok _ _ _ _ _ (handle_file_obj_run _ _ _ _ _ f w Hd Hp)).
    rewrite IH by assumption. unfold with_tasks. cbn.
    now rewrite <- app_assoc.
Qed.

(** The files of a post: its [file], if it has one, then its
    attachments. *)
Definition files_of (p : Post) : list FileObj :=
  match file p with
  | Some f => f :: attachments p
  | None => attachments p
  end.

(** A post that is not filtered out, carries a date that parses and an
    id that can be appended to a URL, spawns one child per file, marks
    the scrape item as part of the album of the post, and logs nothing. *)
Lemma handle_post_content_spawns (post0 : Post) (user user_str : string)
      (w : World) (date : string) (stamp : Z) :
  PyStr.contains "#ad" (content post0) && ignore_coomer_ads config = false ->
  py_or (published post0) (added post0) = Some date ->
  strptime_timegm (PyStr.replace_char "T" " " date) = Some stamp ->
  PyStr.startswith "/" (post_id post0) = false ->
  exists w' children,
    handle_post_content post0 user user_str w = (Ok tt, w') /\
    tasks w' = tasks w ++ children /\
    List.length children = List.length (files_of post0) /\
    logged w' = logged w /\
    album_id (scrape_item w') = Some (post_id post0) /\
    part_of_album (scrape_item w') = true /\
    url (scrape_item w') = url (scrape_item w).
Proof.
  intros Had Hdate Hstamp Hpid.
  unfold CoomerCrawler.handle_post_content, error_handling_wrapper,
    CoomerCrawler.handle_post_content_body.
  rewrite Had, Hdate.
  set (title0 := match title post0 with
                 | Some t => if HistoryTable.truthy t then t else "Untitled"
                 | None => "Untitled"
                 end).
  unfold bind at 1. unfold modify at 1.
  match goal with |- context [set_scrape_item ?i w] => set (w1 := set_scrape_item i w) end.
  unfold files_of. destruct (file post0) as [f|].
  - rewrite (bind_ok _ _ _ _ _
               (handle_file_obj_run user_str title0 _ _ stamp f w1 Hstamp Hpid)).
    rewrite for_each_files_run with (stamp := stamp) by assumption.
    eexists. eexists. split; [reflexivity|].
    cbn. rewrite <- app_assoc. split; [reflexivity|].
    cbn. rewrite length_map. repeat split.
  - rewrite (bind_ok _ _ w1 tt w1) by reflexivity.
    rewrite for_each_files_run with (stamp := stamp) by assumption.
    eexists. eexists. split; [reflexivity|].
    cbn. split; [reflexivity|]. rewrite length_map. repeat split.
Qed.

(** *** profile *)

(** Handling the post spawns exactly one child. *)
Definition spawns_one (user user_str : string) (post0 : Post) : Prop :=
  forall w, exists c,
    tasks (snd (handle_post_content post0 user user_str w)) = tasks w ++ [c].

Lemma page_run user user_str posts : forall w,
  Forall (spawns_one user user_str) posts ->
  exists w',
    for_each posts (fun post0 => handle_post_content post0 user user_str) w
      = (Ok tt, w') /\
    same_traffic w w' /\
    List.length (tasks w') = List.length (tasks w) + List.length posts.
Proof.
  induction posts as [|p posts IH]; intros w Hall; cbn [for_each].
  - exists w. split; [reflexivity|]. split; [apply same_traffic_refl|].
    cbn. lia.
  - inversion Hall as [|? ? Hp Hrest]; subst.
    pose proof (wrapper_ok (handle_post_content_body p user user_str) w) as Hok.
    pose proof (quiet_handle_post_content p user user_str w) as Hq.
    destruct (Hp w) as [c Hc].
    fold (handle_post_content p user user_str) in Hok.
    destruct (handle_post_content p user user_str w) as [r w1] eqn:E.
    cbn [fst snd] in *. subst r.
    destruct (IH w1 Hrest) as (w' & E' & Hq' & Hlen).
    exists w'. split; [|split].
    + unfold bind. rewrite E. exact E'.
    + now apply (same_traffic_trans _ w1).
    + rewrite Hlen, Hc, length_app. cbn. lia.
Qed.

(** [api_url / service / "user" / user] *)
Definition profile_api_call (service user : string) : Result Exn URL :=
  match truediv api_url service with
  | Ok u =>
      match truediv u "user" with
      | Ok u => truediv u user
      | Raise e => Raise e
      end
  | Raise e => Raise e
  end.

Definition page_url (api_call : URL) (offset : string) : URL :=
  with_query api_call [("o", offset)].

(** The world after the requests of [l] have gone out, each behind the
    limiter. *)
Definition after_requests (l : list URL) (w : World) : World :=
  mkWorld (scrape_item w) (session_cookie w) (limiter_entries w + List.length l)
          (requests w ++ map (fun u => mkRequest u (session_cookie w)) l)
          (tasks w) (handled w) (progress w) (next_task_id w) (logged w).

Lemma fetch_page_run api_call offset w :
  bind enter_limiter
       (fun _ => request (get_json_posts client)
                         (with_query api_call [("o", str_of_int offset)])) w
  = (get_json_posts client (session_cookie w) (page_url api_call (str_of_int offset)),
     after_requests [page_url api_call (str_of_int offset)] w).
Proof.
  unfold bind, enter_limiter, modify, request, after_requests, page_url.
  cbn [List.length map].
  replace (limiter_entries w + 1) with (S (limiter_entries w)) by lia.
  reflexivity.
Qed.

Lemma profile_prefix_run w service user user_str soup api_call :
  nth_error (parts (url (scrape_item w))) 1 = Some service ->
  nth_error (parts (url (scrape_item w))) 3 = Some user ->
  get_BS4 client (session_cookie w) (url (scrape_item w)) = Ok soup ->
  soup "span[itemprop=name]" = Some user_str ->
  profile_api_call service user = Ok api_call ->
  forall fuel,
    profile_body fuel w =
    profile_pages fuel api_call user user_str 0%Z
                  (after_requests [url (scrape_item w)] w).
Proof.
  intros H1 H3 Hb Hs Ha.
  { intros fuel. unfold CoomerCrawler.profile_body.
    unfold get_service_and_user, get_user_str_from_profile, part, the_scrape_item,
      select_text, enter_limiter, modify, request, lift, bind, ret.
    cbn [scrape_item session_cookie]. rewrite H3, H1. cbn [scrape_item session_cookie].
    rewrite Hb, Hs. cbn [fst snd].
    unfold profile_api_call in Ha.
    destruct (truediv api_url service) as [u1|]; [|discriminate].
    destruct (truediv u1 "user") as [u2|]; [|discriminate].
    rewrite Ha. unfold after_requests. cbn [List.length map].
    replace (limiter_entries w + 1) with (S (limiter_entries w)) by lia.
    reflexivity. }
Qed.

(** A page with posts: its posts are handled and the loop goes on at the
    next offset. *)
Lemma profile_pages_step fuel api_call user user_str offset w page :
  get_json_posts client (session_cookie w) (page_url api_call (str_of_int offset))
    = Ok page ->
  page <> [] ->
  Forall (spawns_one user user_str) page ->
  exists w1,
    profile_pages (S fuel) api_call user user_str offset w
      = profile_pages fuel api_call user user_str (offset + 50)%Z w1 /\
    session_cookie w1 = session_cookie w /\
    requests w1 = requests w ++
                  [mkRequest (page_url api_call (str_of_int offset)) (session_cookie w)] /\
    List.length (tasks w1) = List.length (tasks w) + List.length page.
Proof.
  intros Hg Hne Hall.
  destruct (page_run user user_str page
              (after_requests [page_url api_call (str_of_int offset)] w) Hall)
    as (w1 & E & Hq & Hlen).
  exists w1. split; [|split; [|split]].
  - cbn [CoomerCrawler.profile_pages]. rewrite fetch_page_run, Hg.
    destruct page as [|p ps]; [congruence|]. now rewrite E.
  - now destruct Hq as (-> & _).
  - destruct Hq as (_ & _ & -> & _). reflexivity.
  - exact Hlen.
Qed.

(** An empty page ends the loop. *)
Lemma profile_pages_stop fuel api_call user user_str offset w :
  get_json_posts client (session_cookie w) (page_url api_call (str_of_int offset))
    = Ok [] ->
  profile_pages (S fuel) api_call user user_str offset w
  = Some (Ok tt, after_requests [page_url api_call (str_of_int offset)] w).
Proof.
  intros Hg. cbn [CoomerCrawler.profile_pages]. now rewrite fetch_page_run, Hg.
Qed.

(** C7.  For a listing whose pages at offsets 0, 50 and 100 hold 50, 50
    and 0 posts, each post spawning one child, [profile] returns (given
    fuel for three turns of its loop) with exactly 100 more tasks
    spawned, having sent the request for the page of the profile and the
    three listing requests, the last of them the one answered by the
    empty page. *)
Theorem profile_three_pages (w : World) (fuel : nat) (service user user_str : string)
        (soup : Soup) (api_call : URL) (page1 page2 : list Post) :
  nth_error (parts (url (scrape_item w))) 1 = Some service ->
  nth_error (parts (url (scrape_item w))) 3 = Some user ->
  get_BS4 client (session_cookie w) (url (scrape_item w)) = Ok soup ->
  soup "span[itemprop=name]" = Some user_str ->
  profile_api_call service user = Ok api_call ->
  get_json_posts client (session_cookie w) (page_url api_call "0") = Ok page1 ->
  get_json_posts client (session_cookie w) (page_url api_call "50") = Ok page2 ->
  get_json_posts client (session_cookie w) (page_url api_call "100") = Ok [] ->
  List.length page1 = 50 ->
  List.length page2 = 50 ->
  Forall (spawns_one user user_str) (page1 ++ page2) ->
  3 <= fuel ->
  exists w',
    profile fuel w = Some (Ok tt, w') /\
    List.length (tasks w') = List.length (tasks w) + 100 /\
    requests w' =
      requests w ++
      map (fun u => mkRequest u (session_cookie w))
          [url (scrape_item w); page_url api_call "0";
           page_url api_call "50"; page_url api_call "100"].
Proof.
  intros H1 H3 Hb Hs Ha Hp1 Hp2 Hp3 Hl1 Hl2 Hall Hfuel.
  apply Forall_app in Hall as [Hall1 Hall2].
  destruct fuel as [|[|[|fuel]]]; try lia.
  unfold CoomerCrawler.profile.
  rewrite (profile_prefix_run w service user user_str soup api_call H1 H3 Hb Hs Ha).
  set (w0 := after_requests [url (scrape_item w)] w).
  assert (Hc0 : session_cookie w0 = session_cookie w) by reflexivity.
  destruct (profile_pages_step (S (S fuel)) api_call user user_str 0%Z w0 page1)
    as (w1 & E1 & Hc1 & Hr1 & Ht1).
  { rewrite Hc0. exact Hp1. }
  { intros ->. discriminate. }
  { exact Hall1. }
  destruct (profile_pages_step (S fuel) api_call user user_str 50%Z w1 page2)
    as (w2 & E2 & Hc2 & Hr2 & Ht2).
  { rewrite Hc1, Hc0. exact Hp2. }
  { intros ->. discriminate. }
  { exact Hall2. }
  rewrite E1. change (0 + 50)%Z with 50%Z. rewrite E2.
  change (50 + 50)%Z with 100%Z.
  rewrite (profile_pages_stop fuel api_call user user_str 100%Z w2)
    by (rewrite Hc2, Hc1, Hc0; exact Hp3).
  eexists. split; [reflexivity|]. split.
  - cbn [tasks after_requests]. rewrite Ht2, Ht1, Hl1, Hl2. cbn [tasks w0 after_requests].
    unfold w0. cbn [tasks after_requests]. lia.
  - cbn [requests after_requests map]. rewrite Hr2, Hr1, Hc2, Hc1, Hc0.
    unfold w0. cbn [requests after_requests map session_cookie].
    rewrite <- !app_assoc. reflexivity.
Qed.

(** A post with one file in all, that is not filtered out and whose date
    and id are usable, spawns exactly one child. *)
Lemma single_file_spawns_one (post0 : Post) (user user_str date : string) (stamp : Z) :
  PyStr.contains "#ad" (content post0) && ignore_coomer_ads config = false ->
  py_or (published post0) (added post0) = Some date ->
  strptime_timegm (PyStr.replace_char "T" " " date) = Some stamp ->
  PyStr.startswith "/" (post_id post0) = false ->
  List.length (files_of post0) = 1 ->
  spawns_one user user_str post0.
Proof.
  intros Had Hdate Hstamp Hpid Hone w.
  destruct (handle_post_content_spawns post0 user user_str w date stamp
              Had Hdate Hstamp Hpid) as (w' & children & E & Ht & Hl & _).
  rewrite E. cbn [snd]. rewrite Hone in Hl.
  destruct children as [|c [|c' cs]]; try discriminate.
  now exists c.
Qed.

End CrawlerFacts.

(** *** Sample data *)

Definition sample_create_scrape_item (parent : ScrapeItem) (u : URL)
           (new_title : option string) (part_of_album : bool)
           (album_id : option string) (possible_datetime : option Z)
           (add_parent : option URL) : ScrapeItem :=
  mkScrapeItem u
    (match new_title with
     | Some t => (parent_title parent ++ "/" ++ t)%string
     | None => parent_title parent
     end)
    part_of_album album_id possible_datetime
    (match add_parent with
     | Some a => parents parent ++ [a]
     | None => parents parent
     end).

Definition sample_add_to_parent_title (i : ScrapeItem) (t : option string)
  : ScrapeItem :=
  match t with
  | Some t =>
      mkScrapeItem (url i) (parent_title i ++ "/" ++ t)%string (part_of_album i)
                   (album_id i) (possible_datetime i) (parents i)
  | None => i
  end.

Definition sample_post : Post :=
  mkPost "new set" (Some "2024-03-01T12:30:00") None "1001" (Some "March")
         (Some (mkFileObj "/ab/cd/abcd.jpg" "one.jpg")) [].

(** A server that lists two pages of fifty posts, then an empty page,
    and refuses the favourites. *)
Definition sample_client : Client :=
  mkClient
    (fun _ _ => Raise (ScrapeFailure 503 "Service Unavailable"))
    (fun _ u =>
       match query_get "o" (query u) with
       | Some o =>
           if String.eqb o "0" || String.eqb o "50"
           then Ok (repeat sample_post 50)
           else Ok []
       | None => Ok []
       end)
    (fun _ _ => Ok sample_post)
    (fun _ _ => Ok (fun _ => Some "alice")).

Definition sample_world (u : URL) : World :=
  mkWorld (mkScrapeItem u "" false None None []) "" 0 [] [] [] [] 0 [].

Definition profile_url : URL := mkURL "coomer.su" ["onlyfans"; "user"; "alice"] [].
Definition favorites_url : URL := mkURL "coomer.su" ["favorites"] [].

Lemma favorites_requires_session_witness :
  exists e w',
    AuthRequiredFailure e /\
    favorites_body (mkConfig "" true false false) sample_client
                   sample_create_scrape_item (sample_world favorites_url)
      = (Raise e, sample_world favorites_url) /\
    favorites (mkConfig "" true false false) sample_client
              sample_create_scrape_item (sample_world favorites_url)
      = (Ok tt, w') /\
    tasks w' = [] /\ requests w' = [] /\ session_cookie w' = "" /\
    logged w' = [e].
Proof.
  apply (favorites_requires_session (mkConfig "" true false false) sample_client
           sample_create_scrape_item (sample_world favorites_url)).
  reflexivity.
Defined.

Lemma favorites_leaves_cookie_on_failure_witness :
  exists w',
    favorites (mkConfig "0123abcd" true false false) sample_client
              sample_create_scrape_item (sample_world favorites_url)
      = (Ok tt, w') /\
    session_cookie w' = "0123abcd" /\
    session_cookie w' <> "" /\
    tasks w' = [] /\
    logged w' = [ScrapeFailure 503 "Service Unavailable"].
Proof.
  apply (favorites_leaves_cookie_on_failure
           (mkConfig "0123abcd" true false false) sample_client
           sample_create_scrape_item (sample_world favorites_url)
           (ScrapeFailure 503 "Service Unavailable")).
  - discriminate.
  - reflexivity.
Defined.

Lemma profile_three_pages_witness :
  exists w',
    profile (mkConfig "" true true false) sample_client sample_create_scrape_item
            (fun user => user) sample_add_to_parent_title (fun _ => Some 1709296200%Z)
            3 (sample_world profile_url)
      = Some (Ok tt, w') /\
    List.length (tasks w') = List.length (tasks (sample_world profile_url)) + 100 /\
    requests w' =
      requests (sample_world profile_url) ++
      map (fun u => mkRequest u (session_cookie (sample_world profile_url)))
          [url (scrape_item (sample_world profile_url));
           page_url (mkURL "coomer.su" ["api"; "v1"; "onlyfans"; "user"; "alice"] []) "0";
           page_url (mkURL "coomer.su" ["api"; "v1"; "onlyfans"; "user"; "alice"] []) "50";
           page_url (mkURL "coomer.su" ["api"; "v1"; "onlyfans"; "user"; "alice"] []) "100"].
Proof.
  assert (Hone : spawns_one (mkConfig "" true true false) sample_create_scrape_item
                   (fun user => user) sample_add_to_parent_title
                   (fun _ => Some 1709296200%Z) "alice" "alice" sample_post).
  { apply (single_file_spawns_one _ _ _ _ _ sample_post "alice" "alice"
             "2024-03-01T12:30:00" 1709296200%Z); reflexivity. }
  apply (profile_three_pages (mkConfig "" true true false) sample_client
           sample_create_scrape_item (fun user => user) sample_add_to_parent_title
           (fun _ => Some 1709296200%Z) (sample_world profile_url) 3
           "onlyfans" "alice" "alice" (fun _ => Some "alice")
           (mkURL "coomer.su" ["api"; "v1"; "onlyfans"; "user"; "alice"] [])
           (repeat sample_post 50) (repeat sample_post 50));
    try reflexivity.
  - apply Forall_app. split; apply Forall_forall; intros x Hx;
      apply repeat_spec in Hx; subst x; exact Hone.
Defined.


End CoomerCrawlerFacts.

(** ** The content hasher *)

Module HashManagerFacts.
Import HashManager.

Lemma take_drop n l : take n l ++ drop n l = l.
Proof.
  revert n; induction l as [|x l IH]; intros n; simpl; [reflexivity|].
  destruct (N.eqb n 0); simpl; [reflexivity|]. now rewrite IH.
Qed.

Lemma take_nil_inv n l : n <> 0%N -> take n l = [] -> l = [].
Proof.
  intros Hn. destruct l as [|x l]; simpl; [reflexivity|].
  apply N.eqb_neq in Hn. now rewrite Hn.
Qed.

Section HashingFacts.

Variable hasher : Hasher.

(** C8.  Two paths whose files hold the same bytes hash to the same
    digest, whatever the paths, the working directories and the rest of
    the file systems at the two calls; a path with no file makes
    [hash_file] fail with the error of [open], and no digest is
    returned. *)
Theorem hash_file_same_content (fs1 fs2 : FileSystem)
        (cwd1 cwd2 filename1 filename2 : string) (bytes : list Byte.byte) :
  fs1 (os_path_join cwd1 filename1) = Ok bytes ->
  fs2 (os_path_join cwd2 filename2) = Ok bytes ->
  (exists digest,
     hash_file hasher fs1 cwd1 filename1 = Ok digest /\
     hash_file hasher fs2 cwd2 filename2 = Ok digest) /\
  (forall (fs : FileSystem) (cwd filename : string),
     fs (os_path_join cwd filename) = Raise FileNotFoundError ->
     hash_file hasher fs cwd filename = Raise FileNotFoundError).
Proof.
  intros H1 H2. split.
  - unfold hash_file. rewrite H1, H2. eexists. split; reflexivity.
  - intros fs cwd filename H. unfold hash_file. now rewrite H.
Qed.

(** The law of an incremental hash: feeding two chunks is feeding their
    concatenation. *)
Definition streaming : Prop :=
  forall h a b, update hasher (update hasher h a) b = update hasher h (a ++ b).

Lemma hash_loop_whole (chunk : N) (h : hash_state hasher)
      (filedata rest : list Byte.byte) :
  streaming -> chunk <> 0%N ->
  hash_loop hasher chunk h filedata rest =
  match filedata with
  | [] => h
  | _ :: _ => update hasher h (filedata ++ rest)
  end.
Proof.
  intros Hs Hc. funelim (hash_loop hasher chunk h filedata rest).
  - simp hash_loop. reflexivity.
  - simp hash_loop.
    match goal with IH : streaming -> _ -> hash_loop _ _ _ _ _ = _ |- _ =>
      rewrite (IH Hs Hc) end.
    destruct (take chunk rest) as [|y ys] eqn:E.
    + apply take_nil_inv in E; [|exact Hc]. subst rest. now rewrite app_nil_r.
    + rewrite Hs, <- E, take_drop. reflexivity.
Qed.

End HashingFacts.

Definition sample_hasher : Hasher :=
  mkHasher (list Byte.byte) [] (fun h d => h ++ d)
           (fun h => string_of_list_byte h).

Definition sample_fs (present : string) : FileSystem :=
  fun p => if String.eqb p present
           then Ok [Byte.x68; Byte.x69]
           else Raise FileNotFoundError.

Lemma hash_file_same_content_witness :
  (exists digest,
     hash_file sample_hasher (sample_fs "/home/u/a.bin") "/home/u" "a.bin" = Ok digest /\
     hash_file sample_hasher (sample_fs "/tmp/b.bin") "/" "tmp/b.bin" = Ok digest) /\
  (forall (fs : FileSystem) (cwd filename : string),
     fs (os_path_join cwd filename) = Raise FileNotFoundError ->
     hash_file sample_hasher fs cwd filename = Raise FileNotFoundError).
Proof.
  apply (hash_file_same_content sample_hasher (sample_fs "/home/u/a.bin")
           (sample_fs "/tmp/b.bin") "/home/u" "/" "a.bin" "tmp/b.bin"
           [Byte.x68; Byte.x69]); reflexivity.
Defined.

End HashManagerFacts.

(** * Further properties *)

(** ** The completion ledger: lookups and upserts *)

Module HistoryTableMore.
Import HistoryTable EffFacts HistoryTableFacts.

Lemma records_at_In d p s r :
  In r (records_at d p s) <-> In r (rows (media (db_conn s))) /\ at_key d p r = true.
Proof. unfold records_at, select_where. apply filter_In. Qed.

Lemma fetchone_none d p s :
  records_at d p s = [] ->
  fetchone (select_by [Domain; UrlPath] (at_key d p) (media (db_conn s))) = None.
Proof.
  intros E. unfold records_at in E. now rewrite (select_by_nil _ _ _ E).
Qed.

Lemma fetchone_one d p s r :
  records_at d p s = [r] ->
  fetchone (select_by [Domain; UrlPath] (at_key d p) (media (db_conn s))) = Some r.
Proof.
  intros E. unfold records_at in E. now rewrite (select_by_one _ _ _ _ E).
Qed.

(** X1.  On a ledger that honours its history and holds at most one
    record under the (domain, url_path) that [check_complete] computes,
    [check_complete] answers [True] exactly when a record is stored
    there and its [completed] is not 0; otherwise it answers [False] and
    changes nothing. *)
Theorem check_complete_iff (s : Self) (domain : string) (url : URL)
        (referer : string) :
  ignore_history s = false ->
  ~ In Referer (pk_cols (media (db_conn s))) ->
  List.length (records_at (get_db_domain domain)
                          (get_db_path url (get_db_domain domain)) s) <= 1 ->
  (fst (check_complete domain url referer s) = Ok true <->
   exists r, In r (rows (media (db_conn s))) /\
             at_key (get_db_domain domain)
                    (get_db_path url (get_db_domain domain)) r = true /\
             completed r <> VInt 0) /\
  (fst (check_complete domain url referer s) = Ok true \/
   check_complete domain url referer s = (Ok false, s)).
Proof.
  intros Hi Hpk Hone.
  rewrite (check_complete_run _ _ _ _ Hi Hpk).
  set (d := get_db_domain domain) in *. set (p := get_db_path url d) in *.
  destruct (records_at d p s) as [|r [|r2 l]] eqn:E; cbn [List.length] in Hone;
    [| |lia].
  - rewrite (fetchone_none d p s E).
    split; [|now right]. split; [discriminate|].
    intros (r & Hin & Hk & _).
    assert (Hr : In r (records_at d p s)) by now apply records_at_In.
    rewrite E in Hr. destruct Hr.
  - rewrite (fetchone_one d p s r E).
    assert (Hr : In r (records_at d p s)) by (rewrite E; now left).
    apply records_at_In in Hr as [Hin Hk].
    destruct (nonzero (completed r)) eqn:En.
    + split.
      * split; [|now destruct (negb _)].
        intros _. exists r. repeat split; auto. now apply nonzero_iff.
      * left. now destruct (negb _).
    + split; [|now right]. split; [discriminate|].
      intros (r' & Hin' & Hk' & Hc').
      assert (Hr' : In r' (records_at d p s)) by now apply records_at_In.
      rewrite E in Hr'. destruct Hr' as [<-|[]].
      apply nonzero_iff in Hc'. congruence.
Qed.

Lemma check_complete_iff_witness :
  fst (check_complete "coomer" (MediaItem.url sample_item) "https://coomer.su/x"
         (ledger_of file_key [sample_row; placeholder_row; other_page_row]))
  = Ok false.
Proof.
  destruct (check_complete_iff
              (ledger_of file_key [sample_row; placeholder_row; other_page_row])
              "coomer" (MediaItem.url sample_item) "https://coomer.su/x"
              eq_refl) as [_ [H|H]].
  - cbn. intuition discriminate.
  - cbn. lia.
  - vm_compute in H. discriminate.
  - now rewrite H.
Defined.

(** X2.  Referer drift.  When the one record under the key is complete
    and its stored referer is not the one given, [check_complete]
    answers [True] and the record, and only it, now carries the given
    referer, its other columns as they were; when the stored referer is
    the one given, the ledger is left as it was. *)
Theorem check_complete_updates_referer (s : Self) (domain : string) (url : URL)
        (referer : string) (r : Row) :
  ignore_history s = false ->
  ~ In Referer (pk_cols (media (db_conn s))) ->
  records_at (get_db_domain domain) (get_db_path url (get_db_domain domain)) s
    = [r] ->
  completed r <> VInt 0 ->
  (HistoryTable.referer r = VText referer ->
   check_complete domain url referer s = (Ok true, s)) /\
  (HistoryTable.referer r <> VText referer ->
   exists s',
     check_complete domain url referer s = (Ok true, s') /\
     records_at (get_db_domain domain) (get_db_path url (get_db_domain domain)) s'
       = [set_cell Referer (VText referer) r] /\
     (forall x, In x (rows (media (db_conn s))) ->
        at_key (get_db_domain domain)
               (get_db_path url (get_db_domain domain)) x = false ->
        In x (rows (media (db_conn s')))) /\
     List.length (rows (media (db_conn s'))) = List.length (rows (media (db_conn s)))).
Proof.
  intros Hi Hpk Hone Hc.
  rewrite (check_complete_run _ _ _ _ Hi Hpk).
  set (d := get_db_domain domain) in *. set (p := get_db_path url d) in *.
  rewrite (fetchone_one d p s r Hone).
  rewrite (proj2 (nonzero_iff _) Hc).
  split.
  - intros ->. cbn. now rewrite String.eqb_refl.
  - intros Hne.
    assert (negb (py_eq (PyStr referer) (to_py (HistoryTable.referer r))) = true) as ->.
    { destruct (HistoryTable.referer r) as [|z|t]; cbn; try reflexivity.
      apply negb_true_iff, String.eqb_neq. congruence. }
    eexists. split; [reflexivity|]. split; [|split].
    + rewrite records_at_updated by reflexivity. now rewrite Hone.
    + intros x Hx Kx. rewrite media_set_media. now apply updated_keeps_others.
    + rewrite media_set_media. apply length_map.
Qed.

Definition completed_row : Row := complete "2024-01-01 10:05:00" sample_row.

Lemma check_complete_updates_referer_witness :
  exists s',
    check_complete "coomer" (MediaItem.url sample_item) "https://coomer.su/other"
                   (ledger_of file_key [completed_row; placeholder_row])
      = (Ok true, s') /\
    records_at "coomer" "/data/ab/cd/abcd.jpg" s'
      = [set_cell Referer (VText "https://coomer.su/other") completed_row].
Proof.
  destruct (check_complete_updates_referer
              (ledger_of file_key [completed_row; placeholder_row])
              "coomer" (MediaItem.url sample_item) "https://coomer.su/other"
              completed_row eq_refl) as [_ H].
  - cbn. intuition discriminate.
  - reflexivity.
  - discriminate.
  - destruct H as (s' & E & Hr & _); [discriminate|].
    exists s'. split; assumption.
Defined.

(** *** insert_incompleted next to the records already stored *)

(** A row of the table [insert_incompleted] leaves is stored under the
    key of the call or was in the table before. *)
Lemma inserted_rows_from now d p item t r' :
  In r' (rows (inserted now d p item t)) ->
  at_key d p r' = true \/ In r' (rows t).
Proof.
  unfold inserted. cbn [rows]. intros H.
  apply in_map_iff in H as (r2 & <- & H2).
  assert (H2' : at_key d p r2 = true \/ In r2 (rows t)).
  { unfold insert_or_ignore in H2.
    assert (Ha : In r2 (rows (adopted d p item t)) ->
                 at_key d p r2 = true \/ In r2 (rows t)).
    { unfold adopted.
      destruct (update_rows _ _ _ _ _) as [rs|] eqn:E; cbn [rows delete_where].
      - apply update_rows_Some in E. cbn [app] in E. subst rs.
        intros H. apply in_map_iff in H as (r & <- & Hr). unfold upd.
        destruct (placeholder_for p (MediaItem.referer item) r) eqn:W; [|now right].
        left. unfold placeholder_for in W.
        apply andb_true_iff in W as [W _]. apply andb_true_iff in W as [_ W].
        apply sql_eq_text_iff in W. apply at_key_iff. split; [reflexivity|].
        exact W.
      - intros H. apply filter_In in H. tauto. }
    destruct (existsb _ _); cbn [rows] in H2; [now apply Ha|].
    apply in_app_or in H2 as [H2|[<-|[]]]; [now apply Ha|].
    left. apply incompleted_row_at_key. }
  destruct (at_key d p r2) eqn:K.
  - left. rewrite <- K. apply at_key_cells; apply upd_filename_cells; discriminate.
  - destruct H2' as [H2'|H2']; [congruence|]. right. unfold upd. now rewrite K.
Qed.

Lemma at_key_other_path d p p' r :
  at_key d p r = true -> p' <> p -> at_key d p' r = false.
Proof.
  intros K Hne. apply at_key_iff in K as [K1 K2].
  destruct (at_key d p' r) eqn:K'; [|reflexivity].
  apply at_key_iff in K' as [_ K']. congruence.
Qed.

Lemma upd_complete_cells d p now r c :
  c <> Completed -> c <> CompletedAt ->
  cell c (upd (at_key d p) (complete now) r) = cell c r.
Proof.
  intros H1 H2. unfold upd, complete. destruct (at_key d p r); [|reflexivity].
  now rewrite !cell_set_cell_other by auto.
Qed.

(** X3.  The normal flow.  When the path [check_complete] computes is
    the path [insert_incompleted] and [mark_complete] store under, then
    after [insert_incompleted] and [mark_complete] for an item,
    [check_complete] for its URL answers [True], on any ledger keyed by
    (domain, url_path), with or without original_filename, and whatever
    else is stored under that (domain, url_path): [mark_complete] marks
    every record under it. *)
Theorem insert_mark_check_complete (s : Self) (now1 now2 domain : string)
        (item : MediaItem.t) (referer : string) :
  ignore_history s = false ->
  ledger_key (pk_cols (media (db_conn s))) ->
  get_db_path (MediaItem.url item) (get_db_domain domain)
    = get_db_path (MediaItem.url item) (MediaItem.referer item) ->
  exists s1 s2 s3,
    insert_incompleted now1 domain item s = (Ok tt, s1) /\
    mark_complete now2 domain item s1 = (Ok tt, s2) /\
    check_complete domain (MediaItem.url item) referer s2 = (Ok true, s3).
Proof.
  intros Hi Hk Hpath.
  set (d := get_db_domain domain) in *.
  set (p := get_db_path (MediaItem.url item) (MediaItem.referer item)) in *.
  set (t1 := inserted now1 d p item (media (db_conn s))).
  set (t2 := updated (at_key d p) (complete now2) t1).
  assert (Hk1 : ledger_key (pk_cols t1)) by (unfold t1; now rewrite pk_cols_inserted).
  destruct (inserted_present now1 d p item _ Hk) as (r & Hin & Kr).
  apply keyed_as_at_key in Kr. fold t1 in Hin.
  exists (set_media t1 s), (set_media t2 s).
  assert (E3 : exists s3,
             check_complete domain (MediaItem.url item) referer (set_media t2 s)
             = (Ok true, s3)).
  { rewrite check_complete_run.
    2:{ now rewrite ignore_history_set_media. }
    2:{ rewrite media_set_media. apply (ledger_key_other _ _ Hk1); discriminate. }
    fold d. rewrite Hpath. fold p. rewrite media_set_media.
    pose proof (fetchone_select_by [Domain; UrlPath] (at_key d p) t2) as Hf.
    destruct (fetchone _) as [x|].
    - destruct Hf as [Hx Kx]. unfold t2 in Hx. cbn [updated rows] in Hx.
      apply in_map_iff in Hx as (x0 & <- & _).
      assert (K0 : at_key d p x0 = true).
      { rewrite <- Kx. symmetry.
        apply at_key_cells; apply upd_complete_cells; discriminate. }
      unfold upd. rewrite K0.
      change (nonzero (completed (complete now2 x0))) with true. cbn iota.
      destruct (negb _); eexists; reflexivity.
    - exfalso.
      assert (Hr : In (upd (at_key d p) (complete now2) r)
                      (select_where (at_key d p) t2)).
      { apply filter_In. split.
        - unfold t2. cbn [updated rows]. now apply in_map.
        - rewrite <- Kr. apply at_key_cells; apply upd_complete_cells; discriminate. }
      rewrite Hf in Hr. destruct Hr. }
  destruct E3 as (s3 & E3). exists s3.
  split; [now apply insert_incompleted_run|]. split; [|exact E3].
  rewrite mark_complete_run by (now rewrite media_set_media).
  fold d p. rewrite media_set_media, set_media_set_media. reflexivity.
Qed.

Lemma insert_mark_check_complete_witness :
  exists s1 s2 s3,
    insert_incompleted "2024-01-01 10:00:00" "coomer" sample_item
                       (ledger_of file_key [other_file_row]) = (Ok tt, s1) /\
    mark_complete "2024-01-01 10:05:00" "coomer" sample_item s1 = (Ok tt, s2) /\
    check_complete "coomer" (MediaItem.url sample_item)
                   (MediaItem.referer sample_item) s2 = (Ok true, s3).
Proof.
  apply (insert_mark_check_complete (ledger_of file_key [other_file_row])).
  - reflexivity.
  - exact ledger_key_file.
  - reflexivity.
Defined.

(** X4.  [check_complete] computes its path with the domain in the place
    of the referer.  When that path is not the one the item is stored
    under, and nothing is stored under it, [check_complete] answers
    [False] right after [insert_incompleted] and [mark_complete] for the
    item, and changes nothing. *)
Theorem check_complete_misses_stored_item (s : Self) (now1 now2 domain : string)
        (item : MediaItem.t) (referer : string) :
  ignore_history s = false ->
  ledger_key (pk_cols (media (db_conn s))) ->
  get_db_path (MediaItem.url item) (get_db_domain domain)
    <> get_db_path (MediaItem.url item) (MediaItem.referer item) ->
  records_at (get_db_domain domain)
             (get_db_path (MediaItem.url item) (get_db_domain domain)) s = [] ->
  exists s1 s2,
    insert_incompleted now1 domain item s = (Ok tt, s1) /\
    mark_complete now2 domain item s1 = (Ok tt, s2) /\
    check_complete domain (MediaItem.url item) referer s2 = (Ok false, s2).
Proof.
  intros Hi Hk Hpath Hnone.
  set (d := get_db_domain domain) in *.
  set (p := get_db_path (MediaItem.url item) (MediaItem.referer item)) in *.
  set (p' := get_db_path (MediaItem.url item) d) in *.
  set (s1 := set_media (inserted now1 d p item (media (db_conn s))) s).
  assert (Hk1 : ledger_key (pk_cols (media (db_conn s1))))
    by (unfold s1; rewrite media_set_media; now rewrite pk_cols_inserted).
  exists s1. eexists. split; [now apply insert_incompleted_run|].
  split; [now apply mark_complete_run|].
  rewrite check_complete_run; auto.
  2:{ rewrite media_set_media. cbn [updated pk_cols].
      apply (ledger_key_other _ _ Hk1); discriminate. }
  fold d p'. rewrite fetchone_none; [reflexivity|].
  unfold records_at, select_where. rewrite media_set_media. cbn [updated rows].
  destruct (filter (at_key d p') _) as [|x l] eqn:E; [reflexivity|exfalso].
  assert (Hx : In x (x :: l)) by now left.
  rewrite <- E in Hx. fold p in Hx.
  apply filter_In in Hx as [Hx Kx].
  apply in_map_iff in Hx as (r1 & <- & Hr1).
  assert (K1 : at_key d p' r1 = true).
  { rewrite <- Kx. symmetry.
    apply at_key_cells; apply upd_complete_cells; discriminate. }
  unfold s1 in Hr1. rewrite media_set_media in Hr1.
  apply inserted_rows_from in Hr1 as [K|Hr].
  - rewrite (at_key_other_path d p p' r1 K Hpath) in K1. discriminate.
  - assert (Hin : In r1 (records_at d p' s)) by now apply records_at_In.
    rewrite Hnone in Hin. destruct Hin.
Qed.

(** An image of an e-hentai gallery reached from a forum thread, handled
    by another crawler. *)
Definition forum_item : MediaItem.t :=
  MediaItem.mk (mkURL "/i/2024/abcd.jpg" "abcd.jpg")
               "https://forum.example/threads/e-hentai-favourites.42/"
               None "Downloads/thread" (Some "abcd.jpg") "abcd.jpg"
               "Downloads/thread/abcd.jpg".

Lemma check_complete_misses_stored_item_witness :
  exists s1 s2,
    insert_incompleted "2024-01-01 10:00:00" "imagehost" forum_item
                       (ledger_of file_key []) = (Ok tt, s1) /\
    mark_complete "2024-01-01 10:05:00" "imagehost" forum_item s1 = (Ok tt, s2) /\
    check_complete "imagehost" (MediaItem.url forum_item)
                   (MediaItem.referer forum_item) s2 = (Ok false, s2).
Proof.
  apply check_complete_misses_stored_item.
  - reflexivity.
  - exact ledger_key_file.
  - vm_compute. discriminate.
  - reflexivity.
Defined.

Lemma length_adopted d p item t :
  List.length (rows (adopted d p item t)) <= List.length (rows t).
Proof.
  unfold adopted.
  destruct (update_rows _ _ _ _ _) as [rs|] eqn:E; cbn [rows delete_where].
  - apply update_rows_Some in E. cbn [app] in E. subst rs. now rewrite length_map.
  - apply filter_length_le.
Qed.

(** When a record of the file is stored, INSERT OR IGNORE adds nothing. *)
Lemma insert_or_ignore_known now d p dl item t r :
  ledger_key (pk_cols t) -> In r (rows t) ->
  keyed_as (pk_cols t) d p (MediaItem.original_filename item) r = true ->
  insert_or_ignore (incompleted_row now d p dl item) t = t.
Proof.
  intros Hk Hin Kr. unfold insert_or_ignore.
  assert (existsb (conflicts (pk_cols t) (incompleted_row now d p dl item))
                  (rows t) = true) as ->; [|reflexivity].
  apply existsb_exists. exists r. split; auto.
  now rewrite conflicts_incompleted_row.
Qed.

Lemma keyed_as_domain pk d p o r :
  keyed_as pk d p o r = true -> d <> "no_crawler" -> domain r <> VText "no_crawler".
Proof.
  intros K Hd E. apply keyed_as_at_key, at_key_iff in K as [K _]. congruence.
Qed.

(** X5.  Re-insertion.  When a record of the item's file is stored
    (under its (domain, url_path), a crawler's domain, and with its
    original filename where the key holds that column),
    [insert_incompleted] adds no row and leaves that record as it was but
    for its download filename: [completed], the referer, the album and
    the timestamps stay. *)
Theorem insert_incompleted_keeps_record (s : Self) (now domain : string)
        (item : MediaItem.t) (r : Row) :
  ledger_key (pk_cols (media (db_conn s))) ->
  get_db_domain domain <> "no_crawler" ->
  In r (rows (media (db_conn s))) ->
  keyed_as (pk_cols (media (db_conn s))) (get_db_domain domain)
           (get_db_path (MediaItem.url item) (MediaItem.referer item))
           (MediaItem.original_filename item) r = true ->
  exists s1,
    insert_incompleted now domain item s = (Ok tt, s1) /\
    In (set_cell DownloadFilename (VText (filename_of item)) r)
       (rows (media (db_conn s1))) /\
    List.length (rows (media (db_conn s1))) <= List.length (rows (media (db_conn s))).
Proof.
  intros Hk Hd Hin Kr.
  set (d := get_db_domain domain) in *.
  set (p := get_db_path (MediaItem.url item) (MediaItem.referer item)) in *.
  eexists. split; [now apply insert_incompleted_run|].
  fold d p. rewrite media_set_media. unfold inserted.
  assert (Hin1 : In r (rows (adopted d p item (media (db_conn s))))).
  { apply adopted_keeps_other; auto. now apply (keyed_as_domain _ d p _ r Kr). }
  rewrite (insert_or_ignore_known now d p _ item _ r); auto.
  2:{ now rewrite pk_cols_adopted. }
  2:{ now rewrite pk_cols_adopted. }
  cbn [rows]. split.
  - apply in_map_iff. exists r. split; auto.
    unfold upd. now rewrite (keyed_as_at_key _ _ _ _ _ Kr).
  - rewrite length_map. apply length_adopted.
Qed.

Lemma insert_incompleted_keeps_record_witness :
  exists s1,
    insert_incompleted "2024-02-02 08:00:00" "coomer"
      (MediaItem.mk (MediaItem.url sample_item) "https://coomer.su/elsewhere"
                    (Some "77") "Downloads/else" (Some "abcd (1).jpg") "abcd.jpg"
                    "Downloads/else/abcd (1).jpg")
      (ledger_of file_key [completed_row; other_file_row]) = (Ok tt, s1) /\
    In (set_cell DownloadFilename (VText "abcd (1).jpg") completed_row)
       (rows (media (db_conn s1))) /\
    List.length (rows (media (db_conn s1))) <= 2.
Proof.
  apply (insert_incompleted_keeps_record
           (ledger_of file_key [completed_row; other_file_row])
           "2024-02-02 08:00:00" "coomer"
           (MediaItem.mk (MediaItem.url sample_item) "https://coomer.su/elsewhere"
                    (Some "77") "Downloads/else" (Some "abcd (1).jpg") "abcd.jpg"
                    "Downloads/else/abcd (1).jpg")
           completed_row).
  - exact ledger_key_file.
  - discriminate.
  - now left.
  - reflexivity.
Defined.

(** *** Placeholders *)

(** An UPDATE goes through when the table it leaves is well formed and
    no changed row collides with a row as it was before. *)
Lemma update_rows_free pk P f todo : forall done,
  unique_rows pk (done ++ map (upd P f) todo) ->
  (forall x y, In x todo -> In y todo -> P x = true ->
               conflicts pk (f x) y = false) ->
  update_rows pk P f done todo = Some (done ++ map (upd P f) todo).
Proof.
  induction todo as [|x rest IH]; intros done Hu Hfree; cbn [update_rows map].
  - now rewrite app_nil_r.
  - cbn [map] in Hu. unfold upd at 1 in Hu. unfold upd at 1.
    destruct (P x) eqn:Px.
    + assert (He : existsb (conflicts pk (f x)) (done ++ rest) = false).
      { destruct (existsb _ _) eqn:E; [|reflexivity].
        apply existsb_exists in E as (y & Hy & Hc).
        apply in_app_or in Hy as [Hy|Hy].
        - apply unique_rows_app in Hu as (_ & _ & H12).
          rewrite conflicts_sym, (H12 y (f x)) in Hc; [discriminate|auto|now left].
        - rewrite (Hfree x y) in Hc; [discriminate|now left|now right|auto]. }
      rewrite He, IH.
      * now rewrite <- app_assoc.
      * now rewrite <- app_assoc.
      * intros a b Ha Hb. apply Hfree; now right.
    + rewrite IH.
      * now rewrite <- app_assoc.
      * now rewrite <- app_assoc.
      * intros a b Ha Hb. apply Hfree; now right.
Qed.

Lemma unique_rows_map_reflect pk g l :
  (forall a b, In a l -> In b l -> conflicts pk (g a) (g b) = true ->
               conflicts pk a b = true) ->
  unique_rows pk l -> unique_rows pk (map g l).
Proof.
  induction l as [|x l IH]; cbn [map unique_rows]; [auto|].
  intros Hg [Hx Hu]. split.
  - intros y Hy. apply in_map_iff in Hy as (y0 & <- & Hy0).
    destruct (conflicts pk (g x) (g y0)) eqn:E; [|reflexivity].
    apply Hg in E; [|now left|now right]. now rewrite (Hx y0 Hy0) in E.
  - apply IH; auto. intros a b Ha Hb. apply Hg; now right.
Qed.

Lemma unique_rows_map_distinct pk (g : Row -> Row) l (a b : Row) :
  unique_rows pk (map g l) -> In a l -> In b l -> a <> b ->
  conflicts pk (g a) (g b) = false.
Proof.
  induction l as [|x l IH]; cbn [map unique_rows In]; [tauto|].
  intros [Hx Hu] [->|Ha] [->|Hb] Hne.
  - congruence.
  - apply Hx. now apply in_map.
  - rewrite conflicts_sym. apply Hx. now apply in_map.
  - now apply IH.
Qed.

Lemma filter_length_lt {A} (f : A -> bool) l x :
  In x l -> f x = false -> List.length (filter f l) < List.length l.
Proof.
  induction l as [|a l IH]; cbn [In filter List.length]; [tauto|].
  intros [->|Hx] Hf.
  - rewrite Hf. pose proof (filter_length_le f l). lia.
  - specialize (IH Hx Hf). destruct (f a); cbn [List.length]; lia.
Qed.

Lemma placeholder_for_inv p ref r :
  placeholder_for p ref r = true ->
  domain r = VText "no_crawler" /\ url_path r = VText p /\
  HistoryTable.referer r = VText ref.
Proof.
  unfold placeholder_for. rewrite !andb_true_iff, !sql_eq_text_iff. tauto.
Qed.

Lemma adopt_cells d album r c :
  c <> Domain -> c <> AlbumId -> cell c (adopt d album r) = cell c r.
Proof.
  intros H1 H2. unfold adopt. now rewrite !cell_set_cell_other by auto.
Qed.

(** An adopted placeholder is a record of its file under [(d, p)]. *)
Lemma adopt_keyed pk d album p ref o r :
  placeholder_for p ref r = true -> original_filename r = VText o ->
  keyed_as pk d p o (adopt d album r) = true.
Proof.
  intros W Ho. apply placeholder_for_inv in W as (_ & Hp & _).
  apply keyed_as_iff. split.
  - apply at_key_iff. split; [reflexivity | exact Hp].
  - intros _. exact Ho.
Qed.

Lemma placeholder_not_at_key d p ref r :
  d <> "no_crawler" -> placeholder_for p ref r = true -> at_key d p r = false.
Proof.
  intros Hd W. apply placeholder_for_inv in W as (HD & _).
  destruct (at_key d p r) eqn:K; [|reflexivity].
  apply at_key_iff in K as [K _]. congruence.
Qed.

(** With nothing stored under [(d, p)], the adoption goes through. *)
Lemma adopted_free d p item t :
  ledger_key (pk_cols t) -> unique_table t -> d <> "no_crawler" ->
  (forall x, In x (rows t) -> at_key d p x = false) ->
  adopted d p item t =
  mkTable (cols t) (pk_cols t)
          (map (upd (placeholder_for p (MediaItem.referer item))
                    (adopt d (MediaItem.album_id item))) (rows t)).
Proof.
  intros Hk Hu Hd Hnone. unfold adopted.
  set (P := placeholder_for p (MediaItem.referer item)).
  set (f := adopt d (MediaItem.album_id item)).
  assert (Hfk : forall x, P x = true -> at_key d p (f x) = true).
  { intros x W. apply placeholder_for_inv in W as (_ & Hp & _).
    apply at_key_iff. split; [reflexivity | exact Hp]. }
  assert (Hfree : forall x y, In x (rows t) -> In y (rows t) -> P x = true ->
                              conflicts (pk_cols t) (f x) y = false).
  { intros x y Hx Hy W. destruct (conflicts (pk_cols t) (f x) y) eqn:E; [|reflexivity].
    apply (conflicts_at_key _ d p _ _ (proj1 Hk) (proj1 (proj2 Hk))) in E; auto.
    now rewrite (Hnone y Hy) in E. }
  rewrite update_rows_free; [reflexivity| |exact Hfree].
  cbn [app]. apply unique_rows_map_reflect; [|exact Hu].
  intros a b Ha Hb Hc. unfold upd in Hc.
  destruct (P a) eqn:Pa, (P b) eqn:Pb.
  - apply conflicts_true_iff; [now apply ledger_key_nonempty|].
    rewrite (conflicts_true_iff _ _ _ (ledger_key_nonempty _ Hk)) in Hc.
    intros c Hcin. specialize (Hc c Hcin).
    apply placeholder_for_inv in Pa as (Da & _).
    apply placeholder_for_inv in Pb as (Db & _).
    destruct (Col_eqb c Domain) eqn:Ec.
    + apply Col_eqb_eq in Ec. subst c. cbn [cell]. rewrite Da, Db. reflexivity.
    + assert (c <> Domain) by (intros ->; now rewrite Col_eqb_refl in Ec).
      assert (c <> AlbumId).
      { intros ->. apply (ledger_key_other _ AlbumId Hk) in Hcin; auto; discriminate. }
      unfold f in Hc. now rewrite !adopt_cells in Hc by auto.
  - rewrite (Hfree a b Ha Hb Pa) in Hc. discriminate.
  - rewrite conflicts_sym, (Hfree b a Hb Ha Pb) in Hc. discriminate.
  - exact Hc.
Qed.

(** X6.  Adoption.  When a placeholder record (domain "no_crawler") of
    the item's file, with the path and the referer of the item, is
    stored and nothing is stored under the (domain, url_path) of the
    item, [insert_incompleted] moves the placeholder to the domain of
    the item, with the album and the download filename of the item and
    everything else as the placeholder had it; no row is added and no
    placeholder with that path and referer is left. *)
Theorem insert_incompleted_adopts_placeholder (s : Self) (now domain : string)
        (item : MediaItem.t) (r0 : Row) :
  ledger_key (pk_cols (media (db_conn s))) ->
  unique_table (media (db_conn s)) ->
  get_db_domain domain <> "no_crawler" ->
  In r0 (rows (media (db_conn s))) ->
  placeholder_for (get_db_path (MediaItem.url item) (MediaItem.referer item))
                  (MediaItem.referer item) r0 = true ->
  original_filename r0 = VText (MediaItem.original_filename item) ->
  records_at (get_db_domain domain)
             (get_db_path (MediaItem.url item) (MediaItem.referer item)) s = [] ->
  exists s1,
    insert_incompleted now domain item s = (Ok tt, s1) /\
    In (set_cell DownloadFilename (VText (filename_of item))
          (adopt (get_db_domain domain) (MediaItem.album_id item) r0))
       (rows (media (db_conn s1))) /\
    (forall x, In x (rows (media (db_conn s1))) ->
       placeholder_for (get_db_path (MediaItem.url item) (MediaItem.referer item))
                       (MediaItem.referer item) x = false) /\
    List.length (rows (media (db_conn s1))) = List.length (rows (media (db_conn s))).
Proof.
  intros Hk Hu Hd Hin W Ho Hnone.
  set (d := get_db_domain domain) in *.
  set (p := get_db_path (MediaItem.url item) (MediaItem.referer item)) in *.
  set (P := placeholder_for p (MediaItem.referer item)) in *.
  set (f := adopt d (MediaItem.album_id item)).
  assert (Hnone' : forall x, In x (rows (media (db_conn s))) -> at_key d p x = false).
  { intros x Hx. destruct (at_key d p x) eqn:K; [|reflexivity].
    assert (Hr : In x (records_at d p s)) by now apply records_at_In.
    rewrite Hnone in Hr. destruct Hr. }
  eexists. split; [now apply insert_incompleted_run|].
  fold d p. rewrite media_set_media. unfold inserted.
  rewrite (adopted_free d p item _ Hk Hu Hd Hnone'). fold P f.
  set (t1 := mkTable (cols (media (db_conn s))) (pk_cols (media (db_conn s)))
                     (map (upd P f) (rows (media (db_conn s))))).
  assert (Hin1 : In (f r0) (rows t1)).
  { unfold t1. cbn [rows]. apply in_map_iff. exists r0. split; auto.
    unfold upd. now rewrite W. }
  rewrite (insert_or_ignore_known now d p _ item t1 (f r0)); auto.
  2:{ unfold t1. cbn [pk_cols]. now apply (adopt_keyed _ d _ p (MediaItem.referer item)). }
  cbn [rows t1]. split; [|split].
  - apply in_map_iff. exists (f r0). split; [|exact Hin1].
    unfold upd.
    assert (K : at_key d p (f r0) = true).
    { apply (keyed_as_at_key (pk_cols (media (db_conn s))) d p
               (MediaItem.original_filename item)).
      now apply (adopt_keyed _ d _ p (MediaItem.referer item)). }
    now rewrite K.
  - intros x Hx. apply in_map_iff in Hx as (x1 & <- & Hx1).
    apply in_map_iff in Hx1 as (x0 & <- & Hx0).
    assert (E : P (upd (at_key d p)
                       (set_cell DownloadFilename (VText (filename_of item)))
                       (upd P f x0)) = P (upd P f x0)).
    { unfold P, placeholder_for. now rewrite !upd_filename_cells by discriminate. }
    rewrite E. unfold upd. destruct (P x0) eqn:W0; [|exact W0].
    unfold P, placeholder_for, f, adopt.
    rewrite (cell_set_cell_other Domain AlbumId) by discriminate.
    rewrite cell_set_cell_same.
    cbn [sql_eq_text]. apply String.eqb_neq in Hd. now rewrite Hd.
  - now rewrite !length_map.
Qed.

Lemma insert_incompleted_adopts_placeholder_witness :
  exists s1,
    insert_incompleted "2024-01-01 10:00:00" "coomer" sample_item
                       (ledger_of file_key [placeholder_row; other_page_row])
      = (Ok tt, s1) /\
    In (set_cell DownloadFilename (VText "abcd.jpg")
          (adopt "coomer" (Some "1") placeholder_row))
       (rows (media (db_conn s1))) /\
    (forall x, In x (rows (media (db_conn s1))) ->
       placeholder_for "/data/ab/cd/abcd.jpg"
                       "https://coomer.su/onlyfans/user/alice/post/1" x = false) /\
    List.length (rows (media (db_conn s1))) = 2.
Proof.
  apply (insert_incompleted_adopts_placeholder
           (ledger_of file_key [placeholder_row; other_page_row])
           "2024-01-01 10:00:00" "coomer" sample_item placeholder_row).
  - exact ledger_key_file.
  - solve_unique.
  - discriminate.
  - now left.
  - reflexivity.
  - reflexivity.
  - reflexivity.
Defined.

(** With a record of the same file stored under [(d, p)], the adoption
    hits the key, and the handler deletes the placeholders of the
    path. *)
Lemma adopted_collision d p item t r0 r :
  ledger_key (pk_cols t) -> unique_table t -> d <> "no_crawler" ->
  In r0 (rows t) -> placeholder_for p (MediaItem.referer item) r0 = true ->
  original_filename r0 = VText (MediaItem.original_filename item) ->
  In r (rows t) ->
  keyed_as (pk_cols t) d p (MediaItem.original_filename item) r = true ->
  adopted d p item t = delete_where (placeholder_at p) t.
Proof.
  intros Hk Hu Hd Hin0 W Ho Hin Kr. unfold adopted.
  destruct (update_rows _ _ _ _ _) as [rs|] eqn:E; [exfalso|reflexivity].
  pose proof (update_rows_unique _ _ _ (rows t) [] rs Hu E) as Hu'.
  apply update_rows_Some in E. cbn [app] in E. subst rs.
  assert (Hne : r0 <> r).
  { intros ->. apply placeholder_for_inv in W as (HD & _).
    now apply (keyed_as_domain _ d p _ r Kr Hd). }
  pose proof (unique_rows_map_distinct _ _ _ r0 r Hu' Hin0 Hin Hne) as Hc.
  unfold upd in Hc. rewrite W in Hc.
  assert (Wr : placeholder_for p (MediaItem.referer item) r = false).
  { destruct (placeholder_for _ _ r) eqn:Wr; [|reflexivity].
    apply placeholder_for_inv in Wr as (HD & _).
    now destruct (keyed_as_domain _ d p _ r Kr Hd). }
  rewrite Wr in Hc.
  rewrite (keyed_as_collide (pk_cols t) d p (MediaItem.original_filename item)) in Hc;
    auto; [discriminate|].
  now apply (adopt_keyed _ d _ p (MediaItem.referer item)).
Qed.

(** X7.  Collision.  When a placeholder record of the item's file, with
    the path and the referer of the item, is stored and a record of that
    file is stored under the (domain, url_path) of the item as well,
    the UPDATE of [insert_incompleted] hits the key: the placeholders of
    the path are deleted and the record is kept (with the download
    filename of the item), so that the table has fewer rows. *)
Theorem insert_incompleted_drops_placeholder (s : Self) (now domain : string)
        (item : MediaItem.t) (r0 r : Row) :
  ledger_key (pk_cols (media (db_conn s))) ->
  unique_table (media (db_conn s)) ->
  get_db_domain domain <> "no_crawler" ->
  In r0 (rows (media (db_conn s))) ->
  placeholder_for (get_db_path (MediaItem.url item) (MediaItem.referer item))
                  (MediaItem.referer item) r0 = true ->
  original_filename r0 = VText (MediaItem.original_filename item) ->
  In r (rows (media (db_conn s))) ->
  keyed_as (pk_cols (media (db_conn s))) (get_db_domain domain)
           (get_db_path (MediaItem.url item) (MediaItem.referer item))
           (MediaItem.original_filename item) r = true ->
  exists s1,
    insert_incompleted now domain item s = (Ok tt, s1) /\
    In (set_cell DownloadFilename (VText (filename_of item)) r)
       (rows (media (db_conn s1))) /\
    (forall x, In x (rows (media (db_conn s1))) ->
       placeholder_at (get_db_path (MediaItem.url item) (MediaItem.referer item))
                      x = false) /\
    List.length (rows (media (db_conn s1))) < List.length (rows (media (db_conn s))).
Proof.
  intros Hk Hu Hd Hin0 W Ho Hin Kr.
  set (d := get_db_domain domain) in *.
  set (p := get_db_path (MediaItem.url item) (MediaItem.referer item)) in *.
  eexists. split; [now apply insert_incompleted_run|].
  fold d p. rewrite media_set_media. unfold inserted.
  rewrite (adopted_collision d p item _ r0 r Hk Hu Hd Hin0 W Ho Hin Kr).
  set (t1 := delete_where (placeholder_at p) (media (db_conn s))).
  assert (Pr : placeholder_at p r = false).
  { destruct (placeholder_at p r) eqn:Pr; [|reflexivity].
    unfold placeholder_at in Pr. apply andb_true_iff in Pr as [Pr _].
    apply sql_eq_text_iff in Pr. now destruct (keyed_as_domain _ d p _ r Kr Hd). }
  assert (Hin1 : In r (rows t1)).
  { unfold t1. cbn [delete_where rows]. apply filter_In. split; auto.
    now rewrite Pr. }
  rewrite (insert_or_ignore_known now d p _ item t1 r); auto.
  cbn [rows]. split; [|split].
  - apply in_map_iff. exists r. split; auto.
    unfold upd. now rewrite (keyed_as_at_key _ _ _ _ _ Kr).
  - intros x Hx. apply in_map_iff in Hx as (x0 & <- & Hx0).
    unfold placeholder_at. rewrite !upd_filename_cells by discriminate.
    unfold t1 in Hx0. cbn [delete_where rows] in Hx0.
    apply filter_In in Hx0 as [_ Hx0]. now apply negb_true_iff in Hx0.
  - rewrite length_map. unfold t1. cbn [delete_where rows].
    apply (filter_length_lt _ _ r0); auto.
    now rewrite (placeholder_for_at _ _ _ W).
Qed.

Lemma insert_incompleted_drops_placeholder_witness :
  exists s1,
    insert_incompleted "2024-01-02 08:00:00" "coomer" sample_item
                       (ledger_of file_key
                                  [completed_row; placeholder_row; early_placeholder_row])
      = (Ok tt, s1) /\
    In (set_cell DownloadFilename (VText "abcd.jpg") completed_row)
       (rows (media (db_conn s1))) /\
    (forall x, In x (rows (media (db_conn s1))) ->
       placeholder_at "/data/ab/cd/abcd.jpg" x = false) /\
    List.length (rows (media (db_conn s1))) < 3.
Proof.
  apply (insert_incompleted_drops_placeholder
           (ledger_of file_key [completed_row; placeholder_row; early_placeholder_row])
           "2024-01-02 08:00:00" "coomer" sample_item placeholder_row completed_row).
  - exact ledger_key_file.
  - solve_unique.
  - discriminate.
  - right. now left.
  - reflexivity.
  - reflexivity.
  - now left.
  - reflexivity.
Defined.

(** *** Reporting queries *)

Lemma ascii_compare_refl c : Ascii.compare c c = Eq.
Proof. unfold Ascii.compare. apply N.compare_refl. Qed.

Lemma string_compare_refl t : String.compare t t = Eq.
Proof.
  induction t as [|c t IH]; cbn [String.compare]; [reflexivity|].
  now rewrite ascii_compare_refl.
Qed.

(** A text that extends another one sorts after it. *)
Lemma string_compare_extension t suffix :
  suffix <> EmptyString -> String.compare (t ++ suffix) t = Gt.
Proof.
  intros Hs. induction t as [|c t IH]; cbn [append String.compare].
  - destruct suffix; [congruence | reflexivity].
  - now rewrite ascii_compare_refl.
Qed.

Lemma sql_le_total a b : sql_le a b = false -> sql_le b a = true.
Proof.
  unfold sql_le. destruct a as [|x|x], b as [|y|y]; cbn [sql_compare];
    intros H; try discriminate; try reflexivity.
  - destruct (Z.compare x y) eqn:E; try discriminate.
    apply Z.compare_gt_iff in E.
    destruct (Z.compare y x) eqn:E'; try reflexivity.
    apply Z.compare_gt_iff in E'. lia.
  - rewrite (String.compare_antisym y x). destruct (String.compare x y);
      [discriminate | discriminate | reflexivity].
Qed.

(** Most recent first. *)
Definition later_first (a b : Row) : Prop :=
  sql_le (cell CompletedAt b) (cell CompletedAt a) = true.

Lemma insert_desc_perm r l : Permutation (r :: l) (insert_desc r l).
Proof.
  induction l as [|x l IH]; cbn [insert_desc]; [reflexivity|].
  destruct (sql_le _ _); [|reflexivity].
  rewrite perm_swap. now apply perm_skip.
Qed.

Lemma insert_desc_hd r l x :
  later_first x r -> HdRel later_first x l -> HdRel later_first x (insert_desc r l).
Proof.
  intros Hr Hl. destruct l as [|y l]; cbn [insert_desc].
  - now constructor.
  - destruct (sql_le _ _); constructor; auto. now inversion Hl.
Qed.

Lemma insert_desc_sorted r l :
  Sorted later_first l -> Sorted later_first (insert_desc r l).
Proof.
  induction l as [|x l IH]; cbn [insert_desc]; intros Hs.
  - repeat constructor.
  - inversion Hs as [|? ? Hs' Hhd]; subst.
    destruct (sql_le (cell CompletedAt r) (cell CompletedAt x)) eqn:E.
    + constructor; [now apply IH|]. now apply insert_desc_hd.
    + constructor; [exact Hs|]. constructor. unfold later_first.
      now apply sql_le_total.
Qed.

Lemma order_by_perm l : Permutation l (order_by_completed_at_desc l).
Proof.
  induction l as [|r l IH]; cbn; [reflexivity|].
  rewrite <- insert_desc_perm. now apply perm_skip.
Qed.

Lemma order_by_sorted l : Sorted later_first (order_by_completed_at_desc l).
Proof.
  induction l as [|r l IH]; cbn; [constructor|]. now apply insert_desc_sorted.
Qed.

(** The WHERE clause of [get_all_items]. *)
Definition in_range (after before : string) (r : Row) : bool :=
  let v := coalesce (cell CompletedAt r) (VText "1970-01-01") in
  sql_le (VText after) v && sql_le v (VText before).

(** X8.  [get_all_items] returns the rows whose completion time, or
    1970-01-01 when they have none, lies between the two dates as text,
    each once, the later ones first; it changes nothing. *)
Theorem get_all_items_sorted (s : Self) (after before : string) :
  exists l,
    get_all_items after before s
      = (Ok (map (project [Referer; DownloadPath; CompletedAt; CreatedAt]) l), s) /\
    Permutation l (filter (in_range after before) (rows (media (db_conn s)))) /\
    Sorted later_first l.
Proof.
  exists (order_by_completed_at_desc
            (filter (in_range after before) (rows (media (db_conn s))))).
  split; [reflexivity|]. split.
  - symmetry. apply order_by_perm.
  - apply order_by_sorted.
Qed.

(** X9.  The upper bound of [get_all_items] is compared as text: a row
    completed at a time that extends the [before] date (any time of that
    day written after the date) is not returned. *)
Theorem get_all_items_excludes_before_day (s : Self) (after before suffix : string)
        (tuple : list Value) :
  suffix <> EmptyString ->
  (exists l s', get_all_items after before s = (Ok l, s') /\ In tuple l) ->
  nth 2 tuple VNull <> VText (before ++ suffix).
Proof.
  intros Hs (l & s' & E & Hin) Ht.
  unfold get_all_items, query in E. injection E as <- _.
  apply in_map_iff in Hin as (r & <- & Hr).
  apply (Permutation_in _ (Permutation_sym (order_by_perm _))) in Hr.
  apply filter_In in Hr as [_ Hr].
  cbn [project map nth cell] in Ht. unfold in_range in Hr. cbn [cell] in Hr.
  rewrite Ht in Hr.
  cbn [coalesce] in Hr. apply andb_true_iff in Hr as [_ Hr].
  unfold sql_le in Hr. cbn [sql_compare] in Hr.
  now rewrite string_compare_extension in Hr.
Qed.

Definition january_ledger : Self :=
  ledger_of [Domain; UrlPath]
    [complete "2024-01-31 18:45:10" sample_row;
     complete "2024-01-15 08:00:00" placeholder_row].

Lemma get_all_items_excludes_before_day_witness :
  nth 2 [VText "https://coomer.su/onlyfans/user/alice/post/1"; VText "Downloads";
         VText "2024-01-15 08:00:00"; VText "2023-12-31 09:00:00"] VNull
  <> VText ("2024-01-31" ++ " 18:45:10").
Proof.
  apply (get_all_items_excludes_before_day january_ledger "2024-01-01" "2024-01-31").
  - discriminate.
  - eexists. eexists. split; [reflexivity|]. vm_compute. now left.
Defined.

(** X10.  Without table [hash], [get_all_bunkr_failed] does not raise:
    the failure of the join is caught, and the rows found by size alone
    are returned; nothing is changed. *)
Theorem get_all_bunkr_failed_without_hash (s : Self) :
  hash (db_conn s) = None ->
  get_all_bunkr_failed s
  = (Ok (map (project [Referer; DownloadPath; CompletedAt; CreatedAt])
             (select_where (fun r => sql_eq_int (cell FileSize r) 322509)
                           (media (db_conn s)))), s).
Proof.
  intros Hh. unfold get_all_bunkr_failed, get_all_bunkr_failed_via_hash,
    get_all_bunkr_failed_via_size, join_hash_media, try_except, bind, query, ret.
  rewrite Hh. reflexivity.
Qed.

(** A record of a file for which the host served its placeholder
    image. *)
Definition failed_row : Row := set_cell FileSize (VInt 322509) completed_row.

Lemma get_all_bunkr_failed_without_hash_witness :
  get_all_bunkr_failed (ledger_of file_key [failed_row; other_page_row])
  = (Ok [project [Referer; DownloadPath; CompletedAt; CreatedAt] failed_row],
     ledger_of file_key [failed_row; other_page_row]).
Proof.
  apply (get_all_bunkr_failed_without_hash
           (ledger_of file_key [failed_row; other_page_row])).
  reflexivity.
Defined.

(** X11.  [add_filesize] raises when the file is gone and stores nothing;
    when the file is there, every record under the (domain, url_path) of
    the item carries its size, the other columns and the other records
    as they were. *)
Theorem add_filesize_stores_size (s : Self) (stat : string -> option Z)
        (domain : string) (item : MediaItem.t) :
  ~ In FileSize (pk_cols (media (db_conn s))) ->
  match stat (MediaItem.complete_file item) with
  | None => add_filesize stat domain item s = (Raise FileNotFoundError, s)
  | Some size =>
      exists s1,
        add_filesize stat domain item s = (Ok tt, s1) /\
        records_at (get_db_domain domain)
                   (get_db_path (MediaItem.url item) (MediaItem.referer item)) s1
          = map (set_cell FileSize (VInt size))
                (records_at (get_db_domain domain)
                            (get_db_path (MediaItem.url item) (MediaItem.referer item))
                            s) /\
        (forall x, In x (rows (media (db_conn s))) ->
           at_key (get_db_domain domain)
                  (get_db_path (MediaItem.url item) (MediaItem.referer item)) x = false ->
           In x (rows (media (db_conn s1)))) /\
        List.length (rows (media (db_conn s1))) = List.length (rows (media (db_conn s)))
  end.
Proof.
  intros Hpk.
  unfold add_filesize. destruct (stat _) as [size|]; [|reflexivity].
  set (d := get_db_domain domain) in *.
  set (p := get_db_path (MediaItem.url item) (MediaItem.referer item)) in *.
  erewrite bind_ok.
  2:{ apply execute_ok. apply update_where_nonkey.
      apply touches_pk_false. intros c [<-|[]]. exact Hpk. }
  eexists. split; [reflexivity|]. split; [|split].
  - exact (records_at_updated d p (set_cell FileSize (VInt size)) s
             (fun _ => eq_refl) (fun _ => eq_refl)).
  - intros x Hx Kx. rewrite media_set_media.
    now apply (updated_keeps_others d p (set_cell FileSize (VInt size))).
  - rewrite media_set_media. apply length_map.
Qed.

Lemma add_filesize_stores_size_witness :
  exists s1,
    add_filesize (fun _ => Some 322509%Z) "coomer" sample_item
                 (ledger_of file_key [completed_row; other_file_row; other_page_row])
      = (Ok tt, s1) /\
    records_at "coomer" "/data/ab/cd/abcd.jpg" s1
      = [set_cell FileSize (VInt 322509) completed_row;
         set_cell FileSize (VInt 322509) other_file_row] /\
    (forall x, In x [completed_row; other_file_row; other_page_row] ->
       at_key "coomer" "/data/ab/cd/abcd.jpg" x = false ->
       In x (rows (media (db_conn s1)))) /\
    List.length (rows (media (db_conn s1))) = 3.
Proof.
  apply (add_filesize_stores_size
           (ledger_of file_key [completed_row; other_file_row; other_page_row])
           (fun _ => Some 322509%Z) "coomer" sample_item).
  cbn. intuition discriminate.
Defined.

(** X12.  [get_db_domain] is idempotent: the domain it returns is one it
    leaves alone, so a normalised domain can be passed again. *)
Theorem get_db_domain_idempotent (domain : string) :
  get_db_domain (get_db_domain domain) = get_db_domain domain.
Proof.
  unfold get_db_domain.
  destruct (existsb (String.eqb domain) sharex_domains) eqn:E; [reflexivity|].
  now rewrite E.
Qed.

End HistoryTableMore.

(** ** The completion ledger: migrations *)

Module MigrationMore.
Import HistoryTable EffFacts HistoryTableFacts.

Lemma insert_rows_conflict rs : forall t r x,
  In r rs -> In x (rows t) -> conflicts (pk_cols t) r x = true ->
  insert_rows rs t = Raise IntegrityError.
Proof.
  induction rs as [|a rs IH]; intros t r x Hr Hx Hc; [destruct Hr|].
  cbn [insert_rows]. unfold insert_row.
  destruct (existsb (conflicts (pk_cols t) a) (rows t)) eqn:E; [reflexivity|].
  destruct Hr as [->|Hr].
  - rewrite (existsb_false_In _ _ _ E Hx) in Hc. discriminate.
  - apply (IH _ r x); auto. cbn [rows]. apply in_or_app. now left.
Qed.

Section LeftoverCopy.

Variable create_fixed_history : Schema.
Variable choose : Row -> list Row -> Row.

(** X13.  A [media_copy] left behind is not rebuilt: CREATE TABLE IF NOT
    EXISTS keeps it with its rows, and when a row to copy collides with
    one of them the INSERT fails.  [fix_primary_keys] then raises
    IntegrityError and leaves both tables as they were, [media] still in
    its legacy shape. *)
Theorem fix_primary_keys_leftover_copy (s : Self) (dst : Table) (r x : Row) :
  cols (media (db_conn s)) = legacy_columns ->
  ~ In Domain (pk_cols (media (db_conn s))) ->
  media_copy (db_conn s) = Some dst ->
  incl legacy_columns (cols dst) ->
  In r (representatives choose (rows (media (db_conn s)))) ->
  In x (rows dst) ->
  conflicts (pk_cols dst) (legacy_part r) x = true ->
  fix_primary_keys create_fixed_history choose s = (Raise IntegrityError, s).
Proof.
  intros Hc Hpk Hcopy Hincl Hr Hx Hconf. unfold fix_primary_keys.
  erewrite bind_ok; [|reflexivity].
  unfold table_info. rewrite Hc. cbn [legacy_columns table_info_from info_pk].
  unfold pk_index. rewrite (pk_index_from_absent _ _ _ Hpk). cbn [Z.eqb].
  erewrite bind_ok.
  2:{ unfold create_media_copy, modify. rewrite Hcopy. reflexivity. }
  erewrite bind_ok; [|reflexivity].
  apply bind_raise. unfold copy_media. rewrite Hcopy.
  assert (E : copy_grouped choose (media (db_conn s)) dst = Raise IntegrityError).
  { unfold copy_grouped.
    assert (forallb (fun c => existsb (Col_eqb c) (cols dst)) legacy_columns = true)
      as ->.
    { apply forallb_forall. intros c Hin. apply existsb_Col_eqb_In. now apply Hincl. }
    rewrite Hc. cbn [negb List.length legacy_columns Nat.eqb].
    rewrite (select_grouped_legacy choose _ Hc).
    apply (insert_rows_conflict _ dst (legacy_part r) x); auto.
    now apply in_map. }
  now rewrite E.
Qed.

End LeftoverCopy.

Definition fixed_schema : Schema :=
  mkSchema legacy_columns [Domain; UrlPath; OriginalFilename].

(** The database after a rebuild that was interrupted between the copy
    and the DROP. *)
Definition interrupted_ledger : Self :=
  mkSelf (mkDatabase
            (media (db_conn legacy_ledger))
            (Some (mkTable legacy_columns [Domain; UrlPath; OriginalFilename]
                     (map legacy_part
                          (representatives (fun r _ => r)
                                           (rows (media (db_conn legacy_ledger)))))))
            None)
         false.

Lemma fix_primary_keys_leftover_copy_witness :
  fix_primary_keys fixed_schema (fun r _ => r) interrupted_ledger
  = (Raise IntegrityError, interrupted_ledger).
Proof.
  apply (fix_primary_keys_leftover_copy fixed_schema (fun r _ => r)
           interrupted_ledger
           (mkTable legacy_columns [Domain; UrlPath; OriginalFilename]
              (map legacy_part
                   (representatives (fun r _ => r)
                                    (rows (media (db_conn legacy_ledger))))))
           (legacy_row "cyberdrop" "/a.jpg" "a.jpg" "1")
           (legacy_part (legacy_row "cyberdrop" "/a.jpg" "a.jpg" "1"))).
  - reflexivity.
  - simpl. tauto.
  - reflexivity.
  - apply incl_refl.
  - vm_compute. now left.
  - vm_compute. now left.
  - reflexivity.
Defined.

Section RebuildTwice.

Variable create_fixed_history : Schema.
Variable choose : Row -> list Row -> Row.
Hypothesis choose_in : forall r l, In (choose r l) (r :: l).

(** X14.  Run again, the rebuild does nothing: when the first column of
    [create_fixed_history] belongs to its primary key, a second
    [fix_primary_keys] after a rebuild leaves the database as the first
    one left it. *)
Theorem fix_primary_keys_twice (s : Self) (c : Col) (rest : list Col) :
  cols (media (db_conn s)) = legacy_columns ->
  ~ In Domain (pk_cols (media (db_conn s))) ->
  media_copy (db_conn s) = None ->
  incl legacy_columns (schema_cols create_fixed_history) ->
  key_fits (schema_pk create_fixed_history) (rows (media (db_conn s))) ->
  schema_cols create_fixed_history = c :: rest ->
  In c (schema_pk create_fixed_history) ->
  exists s',
    fix_primary_keys create_fixed_history choose s = (Ok tt, s') /\
    fix_primary_keys create_fixed_history choose s' = (Ok tt, s').
Proof.
  intros Hc Hpk Hcopy Hincl Hfit Hcols Hin.
  exists (rebuilt create_fixed_history choose s).
  split; [now apply fix_primary_keys_run|].
  apply (fix_primary_keys_skip _ _ _ c rest); [exact Hcols|].
  unfold pk_index. cbn [rebuilt db_conn media pk_cols].
  pose proof (pk_index_from_present c (schema_pk create_fixed_history) 1) as H.
  specialize (H ltac:(lia) Hin). lia.
Qed.

End RebuildTwice.

Lemma fix_primary_keys_twice_witness :
  exists s',
    fix_primary_keys fixed_schema (fun r _ => r) legacy_ledger = (Ok tt, s') /\
    fix_primary_keys fixed_schema (fun r _ => r) s' = (Ok tt, s').
Proof.
  apply (fix_primary_keys_twice fixed_schema (fun r _ => r)
           (fun r l => or_introl eq_refl) legacy_ledger Domain
           [UrlPath; Referer; DownloadPath; DownloadFilename; OriginalFilename;
            Completed]).
  - reflexivity.
  - simpl. tauto.
  - reflexivity.
  - apply incl_refl.
  - apply grouping_key_fits, incl_refl.
  - reflexivity.
  - now left.
Defined.

(** *** add_columns_media *)

Lemma col_name_eqb c k : String.eqb (col_name c) (col_name k) = Col_eqb c k.
Proof. destruct c, k; reflexivity. Qed.

Lemma existsb_col_name c cs :
  existsb (String.eqb (col_name c)) (map col_name cs) = existsb (Col_eqb c) cs.
Proof.
  induction cs as [|k cs IH]; cbn [map existsb]; [reflexivity|].
  now rewrite col_name_eqb, IH.
Qed.

Lemma table_info_names t : map info_name (table_info t) = map col_name (cols t).
Proof.
  unfold table_info. generalize 0%Z.
  induction (cols t) as [|c cs IH]; intros n; cbn [table_info_from map];
    [reflexivity|].
  now rewrite IH.
Qed.

(** The optional columns, in the order [add_columns_media] looks for
    them. *)
Definition optional_columns : list Col := [AlbumId; CreatedAt; CompletedAt; FileSize].

(** The table with the optional columns it lacked. *)
Definition add_missing (t : Table) : Table :=
  fold_left (fun acc c => if existsb (Col_eqb c) (cols t) then acc
                          else add_column c acc)
            optional_columns t.

Lemma add_columns_media_run s :
  add_columns_media s = (Ok tt, set_media (add_missing (media (db_conn s))) s).
Proof.
  unfold add_columns_media.
  erewrite bind_ok; [|reflexivity].
  rewrite table_info_names. unfold add_column_if_missing, add_missing, optional_columns.
  rewrite !existsb_col_name. cbn [fold_left].
  destruct (existsb (Col_eqb AlbumId) _), (existsb (Col_eqb CreatedAt) _),
    (existsb (Col_eqb CompletedAt) _), (existsb (Col_eqb FileSize) _);
    cbn [negb]; unfold bind, execute, commit, ret; cbn;
    rewrite ?set_media_id; reflexivity.
Qed.

Lemma cols_add_missing t :
  cols (add_missing t)
  = cols t ++ filter (fun c => negb (existsb (Col_eqb c) (cols t))) optional_columns.
Proof.
  unfold add_missing, optional_columns. cbn [fold_left filter].
  destruct (existsb (Col_eqb AlbumId) _), (existsb (Col_eqb CreatedAt) _),
    (existsb (Col_eqb CompletedAt) _), (existsb (Col_eqb FileSize) _);
    cbn [negb cols add_column]; rewrite <- ?app_assoc; cbn [app];
    rewrite ?app_nil_r; reflexivity.
Qed.

Lemma pk_cols_add_missing t : pk_cols (add_missing t) = pk_cols t.
Proof.
  unfold add_missing, optional_columns. cbn [fold_left].
  destruct (existsb (Col_eqb AlbumId) _), (existsb (Col_eqb CreatedAt) _),
    (existsb (Col_eqb CompletedAt) _), (existsb (Col_eqb FileSize) _);
    reflexivity.
Qed.

(** The rows after the additions: NULL in each added column. *)
Definition with_nulls (t : Table) (r : Row) : Row :=
  fold_left (fun acc c => if existsb (Col_eqb c) (cols t) then acc
                          else set_cell c VNull acc)
            optional_columns r.

Lemma rows_add_missing t : rows (add_missing t) = map (with_nulls t) (rows t).
Proof.
  unfold add_missing, with_nulls, optional_columns. cbn [fold_left].
  destruct (existsb (Col_eqb AlbumId) _), (existsb (Col_eqb CreatedAt) _),
    (existsb (Col_eqb CompletedAt) _), (existsb (Col_eqb FileSize) _);
    cbn [rows add_column]; rewrite ?map_map; try reflexivity;
    symmetry; apply map_id.
Qed.

Lemma cell_with_nulls t r c :
  In c (cols t) -> cell c (with_nulls t r) = cell c r.
Proof.
  intros Hc. apply existsb_Col_eqb_In in Hc.
  unfold with_nulls, optional_columns. cbn [fold_left].
  destruct (existsb (Col_eqb AlbumId) (cols t)) eqn:E1,
    (existsb (Col_eqb CreatedAt) (cols t)) eqn:E2,
    (existsb (Col_eqb CompletedAt) (cols t)) eqn:E3,
    (existsb (Col_eqb FileSize) (cols t)) eqn:E4;
    destruct c; try reflexivity; congruence.
Qed.

(** X15.  [add_columns_media] appends the optional columns the table
    lacks, in the order album_id, created_at, completed_at, file_size,
    after the columns it has; the rows keep their values in the columns
    that were there; afterwards all four columns exist and a second run
    changes nothing. *)
Theorem add_columns_media_completes (s : Self) :
  exists s1,
    add_columns_media s = (Ok tt, s1) /\
    cols (media (db_conn s1))
      = cols (media (db_conn s)) ++
        filter (fun c => negb (existsb (Col_eqb c) (cols (media (db_conn s)))))
               [AlbumId; CreatedAt; CompletedAt; FileSize] /\
    pk_cols (media (db_conn s1)) = pk_cols (media (db_conn s)) /\
    (forall c, In c [AlbumId; CreatedAt; CompletedAt; FileSize] ->
               In c (cols (media (db_conn s1)))) /\
    (exists g, rows (media (db_conn s1)) = map g (rows (media (db_conn s))) /\
               forall r c, In c (cols (media (db_conn s))) -> cell c (g r) = cell c r) /\
    add_columns_media s1 = (Ok tt, s1).
Proof.
  exists (set_media (add_missing (media (db_conn s))) s).
  split; [apply add_columns_media_run|]. rewrite media_set_media.
  assert (Hall : forall c, In c optional_columns ->
                           In c (cols (add_missing (media (db_conn s))))).
  { intros c Hc. rewrite cols_add_missing. apply in_or_app.
    destruct (existsb (Col_eqb c) (cols (media (db_conn s)))) eqn:E.
    - left. now apply existsb_Col_eqb_In.
    - right. apply filter_In. split; auto. now rewrite E. }
  split; [apply cols_add_missing|]. split; [apply pk_cols_add_missing|].
  split; [exact Hall|]. split.
  - exists (with_nulls (media (db_conn s))). split; [apply rows_add_missing|].
    intros; now apply cell_with_nulls.
  - rewrite add_columns_media_run, media_set_media, set_media_set_media.
    f_equal. f_equal.
    set (t1 := add_missing (media (db_conn s))) in *.
    unfold add_missing at 1. unfold optional_columns at 1. cbn [fold_left].
    rewrite !(proj2 (existsb_Col_eqb_In _ _)) by (apply Hall; simpl; auto).
    reflexivity.
Qed.

(** *** fix_bunkr_v4_entries and the other domains *)

Lemma conflicts_domain_differs pk a b :
  In Domain pk -> uniq_eqb (domain a) (domain b) = false ->
  conflicts pk a b = false.
Proof.
  intros Hin Hd. unfold conflicts. destruct pk as [|k pk]; [reflexivity|].
  destruct (forallb _ _) eqn:E; [|reflexivity].
  rewrite forallb_forall in E. specialize (E Domain Hin). cbn [cell] in E.
  congruence.
Qed.

Lemma fold_replace_keeps_others es : forall t r,
  In Domain (pk_cols t) ->
  domain r <> VText "bunkrr" ->
  In r (rows t) -> In r (rows (fold_left replace_entry es t)).
Proof.
  induction es as [|e es IH]; intros t r Hpk Hd Hin; cbn [fold_left]; [exact Hin|].
  apply IH; auto. unfold replace_entry, insert_or_replace. cbn [rows].
  apply in_or_app. left. apply filter_In. split; auto.
  rewrite conflicts_domain_differs; auto.
  unfold renamed. cbn [domain set_cell uniq_eqb].
  destruct (domain r) as [|z|t0]; cbn [Value_eqb]; try reflexivity.
  apply String.eqb_neq. congruence.
Qed.

(** X16.  When [domain] belongs to the primary key, the pass leaves the
    records of the other domains in place: a row that is under neither
    "bunkr" nor "bunkrr" before the pass is in the table after it. *)
Theorem fix_bunkr_v4_entries_keeps_others (s : Self) (r : Row) :
  current_schema (media (db_conn s)) ->
  In Domain (pk_cols (media (db_conn s))) ->
  In r (rows (media (db_conn s))) ->
  domain r <> VText "bunkr" ->
  domain r <> VText "bunkrr" ->
  exists s1,
    fix_bunkr_v4_entries s = (Ok tt, s1) /\
    In r (rows (media (db_conn s1))).
Proof.
  intros Hs Hpk Hin Hb Hbb.
  eexists. split; [now apply fix_bunkr_v4_entries_run|].
  rewrite media_set_media. unfold bunkr_fixed, delete_where. cbn [rows].
  apply filter_In. split; [now apply fold_replace_keeps_others|].
  apply negb_true_iff. unfold under_bunkr. cbn [cell].
  destruct (domain r) as [|z|t0]; cbn [sql_eq_text]; try reflexivity.
  apply String.eqb_neq. congruence.
Qed.

Lemma fix_bunkr_v4_entries_keeps_others_witness :
  exists s1,
    fix_bunkr_v4_entries
      (ledger_of [Domain; UrlPath] [bunkr_row 1; sample_row]) = (Ok tt, s1) /\
    In sample_row (rows (media (db_conn s1))).
Proof.
  apply (fix_bunkr_v4_entries_keeps_others
           (ledger_of [Domain; UrlPath] [bunkr_row 1; sample_row]) sample_row).
  - split; [reflexivity|]. split; [|reflexivity].
    intros c. destruct c; simpl; tauto.
  - now left.
  - right. now left.
  - discriminate.
  - discriminate.
Defined.

Section Startup.

Variable create_fixed_history : Schema.
Variable choose : Row -> list Row -> Row.
Hypothesis choose_in : forall r l, In (choose r l) (r :: l).

(** X17.  [startup] on a legacy table.  When [create_fixed_history]
    declares the seven legacy columns, [startup] rebuilds the table, adds
    the four optional columns after them and runs the bunkr pass: it
    returns with an eleven-column table keyed as [create_fixed_history]
    says, with no [media_copy] left and no row under "bunkr". *)
Theorem startup_from_legacy (s : Self) :
  cols (media (db_conn s)) = legacy_columns ->
  ~ In Domain (pk_cols (media (db_conn s))) ->
  media_copy (db_conn s) = None ->
  schema_cols create_fixed_history = legacy_columns ->
  key_fits (schema_pk create_fixed_history) (rows (media (db_conn s))) ->
  exists s',
    startup create_fixed_history choose s = (Ok tt, s') /\
    cols (media (db_conn s'))
      = legacy_columns ++ [AlbumId; CreatedAt; CompletedAt; FileSize] /\
    pk_cols (media (db_conn s')) = schema_pk create_fixed_history /\
    media_copy (db_conn s') = None /\
    (forall r, In r (rows (media (db_conn s'))) -> domain r <> VText "bunkr").
Proof.
  intros Hc Hpk Hcopy Hcols Hfit. unfold startup.
  erewrite bind_ok; [|reflexivity].
  erewrite bind_ok.
  2:{ apply (fix_primary_keys_run create_fixed_history choose choose_in); auto.
      rewrite Hcols. apply incl_refl. }
  erewrite bind_ok; [|apply add_columns_media_run].
  set (s1 := rebuilt create_fixed_history choose s).
  set (t2 := add_missing (media (db_conn s1))).
  assert (Hc2 : cols t2 = legacy_columns ++ optional_columns).
  { unfold t2. rewrite cols_add_missing. unfold s1, rebuilt.
    cbn [db_conn media cols]. rewrite Hcols. reflexivity. }
  assert (Hs2 : current_schema (media (db_conn (set_media t2 s1)))).
  { rewrite media_set_media. unfold current_schema. rewrite Hc2.
    split; [reflexivity|]. split; [|reflexivity].
    intros c. destruct c; simpl; tauto. }
  rewrite (fix_bunkr_v4_entries_run _ Hs2).
  rewrite media_set_media, set_media_set_media.
  eexists. split; [reflexivity|]. rewrite media_set_media.
  unfold bunkr_fixed, delete_where. cbn [cols pk_cols rows db_conn media_copy].
  rewrite cols_fold_replace, pk_cols_fold_replace.
  split; [exact Hc2|]. split.
  - unfold t2. rewrite pk_cols_add_missing. reflexivity.
  - split; [reflexivity|].
    intros r Hr Hd. apply filter_In in Hr as [_ Hr].
    unfold under_bunkr in Hr. cbn [cell] in Hr. rewrite Hd in Hr.
    discriminate.
Qed.

End Startup.

Lemma startup_from_legacy_witness :
  exists s',
    startup fixed_schema (fun r _ => r) legacy_ledger = (Ok tt, s') /\
    cols (media (db_conn s'))
      = legacy_columns ++ [AlbumId; CreatedAt; CompletedAt; FileSize] /\
    pk_cols (media (db_conn s')) = [Domain; UrlPath; OriginalFilename] /\
    media_copy (db_conn s') = None /\
    (forall r, In r (rows (media (db_conn s'))) -> domain r <> VText "bunkr").
Proof.
  apply (startup_from_legacy fixed_schema (fun r _ => r)
           (fun r l => or_introl eq_refl) legacy_ledger).
  - reflexivity.
  - simpl. tauto.
  - reflexivity.
  - reflexivity.
  - apply grouping_key_fits, incl_refl.
Defined.

End MigrationMore.

(** ** The Coomer crawler: the flows in full *)

Module CoomerCrawlerMore.
Import CoomerCrawler EffFacts CoomerCrawlerFacts.

Section Flows.

Variable config : Config.
Variable client : Client.
Variable create_scrape_item :
  ScrapeItem -> URL -> option string -> bool -> option string -> option Z ->
  option URL -> ScrapeItem.
Variable create_title : string -> string.
Variable add_to_parent_title : ScrapeItem -> option string -> ScrapeItem.
Variable get_filename_and_ext : string -> Result Exn (string * string).
Variable strptime_timegm : string -> option Z.

#[local] Abbreviation favorites := (favorites config client create_scrape_item).
#[local] Abbreviation handle_post_content :=
  (handle_post_content config create_scrape_item create_title
                       add_to_parent_title strptime_timegm).
#[local] Abbreviation profile_pages :=
  (profile_pages config client create_scrape_item create_title
                 add_to_parent_title strptime_timegm).
#[local] Abbreviation profile :=
  (profile config client create_scrape_item create_title
           add_to_parent_title strptime_timegm).
#[local] Abbreviation spawns_one :=
  (spawns_one config create_scrape_item create_title add_to_parent_title
              strptime_timegm).
#[local] Abbreviation handle_direct_link :=
  (handle_direct_link get_filename_and_ext).

(** *** favorites *)

(** The scrape item a favourite becomes: the page of the user. *)
Definition favorite_child (si : ScrapeItem) (user : User) : ScrapeItem :=
  create_scrape_item si
    (mkURL "coomer.su" [user_service user; "user"; user_id user] [])
    None true None None None.

(** A favourite whose service and id are plain names. *)
Definition appendable (user : User) : Prop :=
  plain_name (user_service user) = true /\
  plain_name (user_id user) = true.

Lemma unreserved_not_slash c : unreserved c = true -> Ascii.eqb c "/" = false.
Proof.
  intros H. destruct (Ascii.eqb_spec c "/") as [->|]; [discriminate H | reflexivity].
Qed.

Lemma split_slash_plain s : all_unreserved s = true -> split_slash s = [s].
Proof.
  induction s as [|c s IH]; cbn [all_unreserved split_slash]; [reflexivity|].
  intros H. apply andb_true_iff in H as [Hc Hs].
  now rewrite (unreserved_not_slash c Hc), (IH Hs).
Qed.

(** *** Links written as text and parsed again *)

(** The link of the thumbnail branch for plain segments. *)
Definition without_thumbnail (u : URL) : URL :=
  mkURL (host u) (filter (fun x => negb (String.eqb x "thumbnail")) (segments u)) [].

Lemma partition_plain (c : ascii) (x rest : string) :
  unreserved c = false ->
  all_unreserved x = true ->
  partition c (x ++ rest) =
  ((x ++ fst (partition c rest))%string, snd (partition c rest)).
Proof.
  intros Hc. induction x as [|a x IH]; cbn [all_unreserved append partition].
  - intros _. now destruct (partition c rest).
  - intros H. apply andb_true_iff in H as [Ha Hx].
    destruct (Ascii.eqb a c) eqn:E.
    + apply Ascii.eqb_eq in E. subst a. congruence.
    + now rewrite (IH Hx).
Qed.

Lemma partition_plain_whole (c : ascii) (x : string) :
  unreserved c = false ->
  all_unreserved x = true ->
  partition c x = (x, None).
Proof.
  intros Hc. induction x as [|a x IH]; cbn [all_unreserved partition].
  - reflexivity.
  - intros H. apply andb_true_iff in H as [Ha Hx].
    destruct (Ascii.eqb a c) eqn:E.
    + apply Ascii.eqb_eq in E. subst a. congruence.
    + now rewrite (IH Hx).
Qed.

Lemma partition_join (c : ascii) (l : list string) :
  unreserved c = false ->
  Ascii.eqb "/" c = false ->
  Forall (fun x => all_unreserved x = true) l ->
  partition c (PyStr.join "/" l) = (PyStr.join "/" l, None).
Proof.
  intros Hc Hs. induction l as [|x [|y rest] IH]; intros H.
  - reflexivity.
  - inversion H as [|? ? Hx _]; subst. cbn [PyStr.join].
    now apply partition_plain_whole.
  - inversion H as [|? ? Hx Hrest]; subst.
    change (PyStr.join "/" (x :: y :: rest))
      with (x ++ String "/" (PyStr.join "/" (y :: rest)))%string.
    rewrite (partition_plain c x _ Hc Hx). cbn [partition]. rewrite Hs.
    now rewrite (IH Hrest).
Qed.

Lemma split_slash_app (x rest : string) :
  all_unreserved x = true ->
  split_slash (x ++ String "/" rest) = x :: split_slash rest.
Proof.
  induction x as [|a x IH]; cbn [all_unreserved append split_slash].
  - intros _. reflexivity.
  - intros H. apply andb_true_iff in H as [Ha Hx].
    now rewrite (unreserved_not_slash a Ha), (IH Hx).
Qed.

Lemma split_slash_join (x : string) (l : list string) :
  Forall (fun x => all_unreserved x = true) (x :: l) ->
  split_slash (PyStr.join "/" (x :: l)) = x :: l.
Proof.
  revert x. induction l as [|y rest IH]; intros x H;
    inversion H as [|? ? Hx Hrest]; subst.
  - cbn [PyStr.join]. now apply split_slash_plain.
  - change (PyStr.join "/" (x :: y :: rest))
      with (x ++ String "/" (PyStr.join "/" (y :: rest)))%string.
    now rewrite (split_slash_app x _ Hx), (IH y Hrest).
Qed.

Lemma join_nonempty (x : string) (l : list string) :
  x <> EmptyString -> String.eqb (PyStr.join "/" (x :: l)) "" = false.
Proof.
  intros Hx. destruct x as [|a x]; [congruence|].
  destruct l; reflexivity.
Qed.

Lemma plain_name_unreserved (l : list string) :
  Forall (fun x => plain_name x = true) l ->
  Forall (fun x => all_unreserved x = true) l.
Proof.
  apply Forall_impl. intros x H. unfold plain_name in H.
  repeat (apply andb_true_iff in H as [H _]). exact H.
Qed.

Lemma parse_link_plain (h : string) (l : list string) :
  Forall (fun x => plain_name x = true) l ->
  parse_link h (PyStr.join "/" l) = mkURL h l [].
Proof.
  intros H. pose proof (plain_name_unreserved l H) as Hu.
  unfold parse_link.
  rewrite (partition_join "#" l eq_refl eq_refl Hu). cbn [fst].
  rewrite (partition_join "?" l eq_refl eq_refl Hu). cbn [fst snd].
  destruct l as [|x l]; [reflexivity|].
  rewrite join_nonempty, (split_slash_join x l Hu); [reflexivity|].
  inversion H as [|? ? Hx _]; subst. intros ->. discriminate.
Qed.

Lemma thumbnail_link_plain (u : URL) :
  Forall (fun x => plain_name x = true) (segments u) ->
  thumbnail_link u = without_thumbnail u.
Proof.
  intros H. unfold thumbnail_link, without_thumbnail, parts.
  change (filter (fun x => negb (existsb (String.eqb x) ["thumbnail"; "/"]))
                 ("/" :: segments u))
    with (filter (fun x => negb (existsb (String.eqb x) ["thumbnail"; "/"]))
                 (segments u)).
  assert (E : filter (fun x => negb (existsb (String.eqb x) ["thumbnail"; "/"]))
                     (segments u)
              = filter (fun x => negb (String.eqb x "thumbnail")) (segments u)).
  { apply filter_ext_in. intros x Hx.
    rewrite Forall_forall in H. specialize (H x Hx).
    cbn [existsb]. rewrite orb_false_r.
    destruct (String.eqb x "/") eqn:E; [|now rewrite orb_false_r].
    apply String.eqb_eq in E. subst x. discriminate. }
  rewrite E. apply parse_link_plain.
  rewrite Forall_forall in *. intros x Hx. apply filter_In in Hx as [Hx _].
  now apply H.
Qed.

Lemma thumbnails_stays (u : URL) :
  in_parts "thumbnails" u = true ->
  In "thumbnails" (segments (without_thumbnail u)).
Proof.
  unfold in_parts, without_thumbnail, parts. intros H. cbn [segments].
  apply existsb_exists in H. destruct H as (x & Hx & Heq).
  apply String.eqb_eq in Heq. subst x.
  destruct Hx as [Hx|Hx]; [discriminate|].
  apply filter_In. split; [exact Hx | reflexivity].
Qed.

Lemma startswith_slash_plain s :
  all_unreserved s = true -> PyStr.startswith "/" s = false.
Proof.
  destruct s as [|c s]; cbn [all_unreserved PyStr.startswith]; [reflexivity|].
  intros H. apply andb_true_iff in H as [Hc _].
  rewrite Ascii.eqb_sym. now rewrite (unreserved_not_slash c Hc).
Qed.

Lemma plain_name_inv s :
  plain_name s = true -> all_unreserved s = true /\ s <> EmptyString.
Proof.
  unfold plain_name. rewrite !andb_true_iff, !negb_true_iff.
  intros [[[H1 H2] _] _]. split; [exact H1|]. now apply String.eqb_neq.
Qed.

(** Appending a plain name appends one segment. *)
Lemma truediv_plain (h : string) (segs : list string) (name : string) :
  plain_name name = true ->
  Forall (fun x => x <> EmptyString) segs ->
  truediv (mkURL h segs []) name = Ok (mkURL h (segs ++ [name]) []) /\
  Forall (fun x => x <> EmptyString) (segs ++ [name]).
Proof.
  intros Hn Hs. apply plain_name_inv in Hn as [Hn Hne].
  assert (E : strip_trailing_empty segs = segs).
  { induction Hs as [|x l Hx Hl IH]; [reflexivity|].
    cbn [strip_trailing_empty]. destruct l as [|y l'].
    - apply String.eqb_neq in Hx. now rewrite Hx.
    - now rewrite IH. }
  split.
  - unfold truediv. rewrite (startswith_slash_plain name Hn). cbn [host segments].
    now rewrite E, (split_slash_plain name Hn).
  - apply Forall_app. split; [exact Hs|]. now constructor.
Qed.

Lemma truediv_ok (u : URL) (name : string) :
  PyStr.startswith "/" name = false ->
  truediv u name =
  Ok (mkURL (host u) (strip_trailing_empty (segments u) ++ split_slash name) []).
Proof. intros H. unfold truediv. now rewrite H. Qed.

Lemma spawn_favorites_run users : forall w,
  Forall appendable users ->
  spawn_favorites create_scrape_item users w =
  (Ok tt, with_tasks (tasks w ++ map (favorite_child (scrape_item w)) users) w).
Proof.
  induction users as [|u users IH]; intros w Hall.
  - unfold spawn_favorites, with_tasks. cbn. rewrite app_nil_r. now destruct w.
  - inversion Hall as [|? ? [Hs Hi] Hrest]; subst.
    unfold spawn_favorites in *. cbn [for_each].
    destruct (truediv_plain "coomer.su" [] (user_service u) Hs (Forall_nil _))
      as [E1 F1].
    destruct (truediv_plain "coomer.su" _ "user" eq_refl F1) as [E2 F2].
    destruct (truediv_plain "coomer.su" _ (user_id u) Hi F2) as [E3 _].
    erewrite bind_ok.
    2:{ unfold bind at 1. unfold lift at 1.
        change primary_base_domain with (mkURL "coomer.su" [] []). rewrite E1.
        unfold bind at 1. unfold lift at 1. rewrite E2.
        unfold bind at 1. unfold lift at 1. rewrite E3.
        reflexivity. }
    rewrite IH by assumption. unfold with_tasks, favorite_child. cbn.
    now rewrite <- app_assoc.
Qed.

(** X18.  With a session configured and a favourites request that
    returns favourites whose service and id are plain names, [favorites]
    sends that one request with the session cookie attached, spawns one
    child per favourite, in order, for the page of the user
    (service/user/id), and ends with the cookie of the shared client
    empty and nothing logged. *)
Theorem favorites_spawns_per_user (w : World) (users : list User) :
  session config <> EmptyString ->
  get_json_users client (session config) favourites_api_url = Ok users ->
  Forall appendable users ->
  exists w',
    favorites w = (Ok tt, w') /\
    tasks w' = tasks w ++ map (favorite_child (scrape_item w)) users /\
    requests w' = requests w ++ [mkRequest favourites_api_url (session config)] /\
    session_cookie w' = EmptyString /\
    limiter_entries w' = S (limiter_entries w) /\
    logged w' = logged w.
Proof.
  intros Hs Hr Hall.
  unfold CoomerCrawler.favorites, error_handling_wrapper.
  rewrite (favorites_body_run config client create_scrape_item w Hs), Hr.
  erewrite bind_ok; [|reflexivity].
  rewrite spawn_favorites_run by assumption.
  eexists. split; [reflexivity|]. repeat split.
Qed.

End Flows.

Definition sample_users : list User :=
  [mkUser "alice" "Alice" "onlyfans"; mkUser "bob" "Bob" "fansly"].

Definition listing_client : Client :=
  mkClient (fun cookie _ => if String.eqb cookie "0123abcd" then Ok sample_users
                            else Raise (ScrapeFailure 401 "Unauthorized"))
           (get_json_posts sample_client)
           (get_json_post sample_client)
           (get_BS4 sample_client).

Lemma favorites_spawns_per_user_witness :
  exists w',
    favorites (mkConfig "0123abcd" true false false) listing_client
              sample_create_scrape_item (sample_world favorites_url) = (Ok tt, w') /\
    tasks w' = map (favorite_child sample_create_scrape_item
                      (scrape_item (sample_world favorites_url))) sample_users /\
    requests w' = [mkRequest favourites_api_url "0123abcd"] /\
    session_cookie w' = "" /\
    limiter_entries w' = 1 /\
    logged w' = [].
Proof.
  apply (favorites_spawns_per_user (mkConfig "0123abcd" true false false)
           listing_client sample_create_scrape_item
           (sample_world favorites_url) sample_users).
  - discriminate.
  - reflexivity.
  - repeat constructor.
Defined.

(** *** profile *)

Section Pagination.

Variable config : Config.
Variable client : Client.
Variable create_scrape_item :
  ScrapeItem -> URL -> option string -> bool -> option string -> option Z ->
  option URL -> ScrapeItem.
Variable create_title : string -> string.
Variable add_to_parent_title : ScrapeItem -> option string -> ScrapeItem.
Variable strptime_timegm : string -> option Z.

#[local] Abbreviation handle_post_content :=
  (handle_post_content config create_scrape_item create_title
                       add_to_parent_title strptime_timegm).
#[local] Abbreviation profile_pages :=
  (profile_pages config client create_scrape_item create_title
                 add_to_parent_title strptime_timegm).
#[local] Abbreviation profile :=
  (profile config client create_scrape_item create_title
           add_to_parent_title strptime_timegm).
#[local] Abbreviation spawns_one :=
  (spawns_one config create_scrape_item create_title add_to_parent_title
              strptime_timegm).

(** What the listing answers from [offset] on: the pages of [pages], none
    of them empty, one per request and fifty apart, then [final]. *)
Fixpoint serves (cookie : string) (api_call : URL) (offset : Z)
         (pages : list (list Post)) (final : Result Exn (list Post)) : Prop :=
  match pages with
  | [] => get_json_posts client cookie (page_url api_call (str_of_int offset)) = final
  | page :: rest =>
      get_json_posts client cookie (page_url api_call (str_of_int offset)) = Ok page /\
      page <> [] /\
      serves cookie api_call (offset + 50) rest final
  end.

(** The URLs of [n] listing requests from [offset] on. *)
Fixpoint page_urls (api_call : URL) (offset : Z) (n : nat) : list URL :=
  match n with
  | O => []
  | S n' => page_url api_call (str_of_int offset)
            :: page_urls api_call (offset + 50) n'
  end.

(** How the loop ends on the last answer. *)
Definition outcome (final : Result Exn (list Post)) : Result Exn unit :=
  match final with
  | Ok _ => Ok tt
  | Raise e => Raise e
  end.

Lemma profile_pages_fail fuel api_call user user_str offset w e :
  get_json_posts client (session_cookie w) (page_url api_call (str_of_int offset))
    = Raise e ->
  profile_pages (S fuel) api_call user user_str offset w
  = Some (Raise e, after_requests [page_url api_call (str_of_int offset)] w).
Proof.
  intros Hg. cbn [CoomerCrawler.profile_pages]. now rewrite fetch_page_run, Hg.
Qed.

Lemma profile_pages_run api_call user user_str final pages :
  (final = Ok [] \/ exists e, final = Raise e) ->
  forall fuel offset w,
    serves (session_cookie w) api_call offset pages final ->
    Forall (Forall (spawns_one user user_str)) pages ->
    List.length pages < fuel ->
    exists w',
      profile_pages fuel api_call user user_str offset w = Some (outcome final, w') /\
      session_cookie w' = session_cookie w /\
      List.length (tasks w') = List.length (tasks w) + List.length (List.concat pages) /\
      requests w' =
        requests w ++
        map (fun u => mkRequest u (session_cookie w))
            (page_urls api_call offset (S (List.length pages))).
Proof.
  intros Hfinal.
  induction pages as [|page pages IH]; intros fuel offset w Hserves Hall Hfuel;
    (destruct fuel as [|fuel]; [cbn in Hfuel; lia|]).
  - cbn [serves] in Hserves.
    exists (after_requests [page_url api_call (str_of_int offset)] w).
    split; [|split; [reflexivity | split; [cbn; lia | reflexivity]]].
    destruct Hfinal as [-> | [e ->]].
    + now apply profile_pages_stop.
    + now apply profile_pages_fail.
  - cbn [serves] in Hserves. destruct Hserves as (Hpage & Hne & Hrest).
    inversion Hall as [|? ? Hp Hps]; subst.
    destruct (profile_pages_step config client create_scrape_item create_title
                add_to_parent_title strptime_timegm fuel api_call user user_str
                offset w page Hpage Hne Hp) as (w1 & E & Hc & Hr & Ht).
    destruct (IH fuel (offset + 50)%Z w1) as (w' & E' & Hc' & Ht' & Hr').
    { rewrite Hc. exact Hrest. }
    { exact Hps. }
    { cbn [List.length] in Hfuel. lia. }
    exists w'. split; [|split; [|split]].
    + rewrite E. exact E'.
    + congruence.
    + rewrite Ht', Ht. cbn [List.concat]. rewrite length_app. lia.
    + rewrite Hr', Hr, Hc. cbn [page_urls map List.length].
      rewrite <- app_assoc. reflexivity.
Qed.

(** X19.  For a listing of any number of pages with posts, each post
    spawning one child, followed by an empty page, [profile] returns
    (given fuel for one turn of its loop more than there are pages with
    posts) with one more task per post, having asked for the page of the
    profile and then for the listing at offsets 0, 50, 100, ... up to and
    including the one answered by the empty page. *)
Theorem profile_paginates (w : World) (fuel : nat) (service user user_str : string)
        (soup : Soup) (api_call : URL) (pages : list (list Post)) :
  nth_error (parts (url (scrape_item w))) 1 = Some service ->
  nth_error (parts (url (scrape_item w))) 3 = Some user ->
  get_BS4 client (session_cookie w) (url (scrape_item w)) = Ok soup ->
  soup "span[itemprop=name]" = Some user_str ->
  profile_api_call service user = Ok api_call ->
  serves (session_cookie w) api_call 0 pages (Ok []) ->
  Forall (Forall (spawns_one user user_str)) pages ->
  List.length pages < fuel ->
  exists w',
    profile fuel w = Some (Ok tt, w') /\
    List.length (tasks w') = List.length (tasks w) + List.length (List.concat pages) /\
    requests w' =
      requests w ++
      map (fun u => mkRequest u (session_cookie w))
          (url (scrape_item w) :: page_urls api_call 0 (S (List.length pages))).
Proof.
  intros H1 H3 Hb Hs Ha Hserves Hall Hfuel.
  unfold CoomerCrawler.profile.
  rewrite (profile_prefix_run config client create_scrape_item create_title
             add_to_parent_title strptime_timegm w service user user_str soup
             api_call H1 H3 Hb Hs Ha).
  destruct (profile_pages_run api_call user user_str (Ok []) pages (or_introl eq_refl)
              fuel 0%Z (after_requests [url (scrape_item w)] w) Hserves Hall Hfuel)
    as (w' & E & _ & Ht & Hr).
  rewrite E. exists w'. split; [reflexivity|]. split; [exact Ht|].
  rewrite Hr. cbn [requests after_requests session_cookie map].
  rewrite <- app_assoc. reflexivity.
Qed.

(** X20.  When a listing request fails after any number of pages with
    posts, [profile] still returns: the failure is the last entry of the
    log, the children of the pages before it stay spawned, and the failed
    request is the last one sent. *)
Theorem profile_listing_failure (w : World) (fuel : nat)
        (service user user_str : string) (soup : Soup) (api_call : URL)
        (pages : list (list Post)) (e : Exn) :
  nth_error (parts (url (scrape_item w))) 1 = Some service ->
  nth_error (parts (url (scrape_item w))) 3 = Some user ->
  get_BS4 client (session_cookie w) (url (scrape_item w)) = Ok soup ->
  soup "span[itemprop=name]" = Some user_str ->
  profile_api_call service user = Ok api_call ->
  serves (session_cookie w) api_call 0 pages (Raise e) ->
  Forall (Forall (spawns_one user user_str)) pages ->
  List.length pages < fuel ->
  exists w',
    profile fuel w = Some (Ok tt, w') /\
    List.length (tasks w') = List.length (tasks w) + List.length (List.concat pages) /\
    requests w' =
      requests w ++
      map (fun u => mkRequest u (session_cookie w))
          (url (scrape_item w) :: page_urls api_call 0 (S (List.length pages))) /\
    exists earlier, logged w' = earlier ++ [e].
Proof.
  intros H1 H3 Hb Hs Ha Hserves Hall Hfuel.
  unfold CoomerCrawler.profile.
  rewrite (profile_prefix_run config client create_scrape_item create_title
             add_to_parent_title strptime_timegm w service user user_str soup
             api_call H1 H3 Hb Hs Ha).
  destruct (profile_pages_run api_call user user_str (Raise e) pages
              (or_intror (ex_intro _ e eq_refl))
              fuel 0%Z (after_requests [url (scrape_item w)] w) Hserves Hall Hfuel)
    as (w' & E & _ & Ht & Hr).
  rewrite E. cbn [outcome]. exists (log_error e w'). split; [reflexivity|].
  split; [exact Ht|]. split.
  - cbn [requests log_error]. rewrite Hr.
    cbn [requests after_requests session_cookie map].
    rewrite <- app_assoc. reflexivity.
  - exists (logged w'). reflexivity.
Qed.

(** Whatever the posts of a page are, handling them returns and leaves
    the traffic alone. *)
Lemma page_returns user user_str posts : forall w,
  exists w',
    for_each posts (fun post0 => handle_post_content post0 user user_str) w
      = (Ok tt, w') /\
    same_traffic w w'.
Proof.
  induction posts as [|p posts IH]; intros w; cbn [for_each].
  - exists w. split; [reflexivity | apply same_traffic_refl].
  - pose proof (wrapper_ok
                  (handle_post_content_body config create_scrape_item create_title
                     add_to_parent_title strptime_timegm p user user_str) w) as Hok.
    pose proof (quiet_handle_post_content config create_scrape_item create_title
                  add_to_parent_title strptime_timegm p user user_str w) as Hq.
    fold (handle_post_content p user user_str) in Hok.
    destruct (handle_post_content p user user_str w) as [r w1] eqn:E.
    cbn [fst snd] in *. subst r.
    destruct (IH w1) as (w' & E' & Hq').
    exists w'. split.
    + unfold bind. rewrite E. exact E'.
    + now apply (same_traffic_trans _ w1).
Qed.

Lemma profile_pages_never_breaks api_call user user_str cookie :
  (forall offset, exists page,
      get_json_posts client cookie (page_url api_call (str_of_int offset)) = Ok page /\
      page <> []) ->
  forall fuel offset w,
    session_cookie w = cookie ->
    profile_pages fuel api_call user user_str offset w = None.
Proof.
  intros Hserver. induction fuel as [|fuel IH]; intros offset w Hc; [reflexivity|].
  destruct (Hserver offset) as (page & Hpage & Hne).
  cbn [CoomerCrawler.profile_pages]. rewrite fetch_page_run, Hc, Hpage.
  destruct page as [|p ps]; [congruence|].
  destruct (page_returns user user_str (p :: ps)
              (after_requests [page_url api_call (str_of_int offset)] w))
    as (w1 & E & Hq).
  rewrite E. apply IH.
  destruct Hq as (-> & _). exact Hc.
Qed.

(** X21.  Nothing but an empty page or a failure ends the loop of
    [profile]: against a listing that answers every offset with a page
    of posts, no number of turns brings the call to its end. *)
Theorem profile_never_returns (w : World) (service user user_str : string)
        (soup : Soup) (api_call : URL) :
  nth_error (parts (url (scrape_item w))) 1 = Some service ->
  nth_error (parts (url (scrape_item w))) 3 = Some user ->
  get_BS4 client (session_cookie w) (url (scrape_item w)) = Ok soup ->
  soup "span[itemprop=name]" = Some user_str ->
  profile_api_call service user = Ok api_call ->
  (forall offset, exists page,
      get_json_posts client (session_cookie w)
                     (page_url api_call (str_of_int offset)) = Ok page /\
      page <> []) ->
  forall fuel, profile fuel w = None.
Proof.
  intros H1 H3 Hb Hs Ha Hserver fuel.
  unfold CoomerCrawler.profile.
  rewrite (profile_prefix_run config client create_scrape_item create_title
             add_to_parent_title strptime_timegm w service user user_str soup
             api_call H1 H3 Hb Hs Ha).
  now rewrite (profile_pages_never_breaks api_call user user_str (session_cookie w)
                 Hserver fuel 0%Z (after_requests [url (scrape_item w)] w) eq_refl).
Qed.

End Pagination.

(** A client that answers the listing by the offset asked for, and
    everything else as [sample_client] does. *)
Definition paging_client (answer : string -> Result Exn (list Post)) : Client :=
  mkClient (get_json_users sample_client)
           (fun _ u =>
              match query_get "o" (query u) with
              | Some o => answer o
              | None => Ok []
              end)
           (get_json_post sample_client)
           (get_BS4 sample_client).

Definition sample_config : Config := mkConfig "" true true false.

Definition alice_api_call : URL :=
  mkURL "coomer.su" ["api"; "v1"; "onlyfans"; "user"; "alice"] [].

Lemma sample_post_spawns_one :
  spawns_one sample_config sample_create_scrape_item (fun user => user)
             sample_add_to_parent_title (fun _ => Some 1709296200%Z)
             "alice" "alice" sample_post.
Proof.
  apply (single_file_spawns_one _ _ _ _ _ sample_post "alice" "alice"
           "2024-03-01T12:30:00" 1709296200%Z); reflexivity.
Qed.

(** Two posts at offset 0, one at offset 50, none after. *)
Definition short_listing (o : string) : Result Exn (list Post) :=
  if String.eqb o "0" then Ok [sample_post; sample_post]
  else if String.eqb o "50" then Ok [sample_post]
  else Ok [].

Lemma profile_paginates_witness :
  exists w',
    profile sample_config (paging_client short_listing) sample_create_scrape_item
            (fun user => user) sample_add_to_parent_title (fun _ => Some 1709296200%Z)
            3 (sample_world profile_url)
      = Some (Ok tt, w') /\
    List.length (tasks w') = 3 /\
    requests w' =
      map (fun u => mkRequest u "")
          [profile_url; page_url alice_api_call "0"; page_url alice_api_call "50";
           page_url alice_api_call "100"].
Proof.
  apply (profile_paginates sample_config (paging_client short_listing)
           sample_create_scrape_item (fun user => user) sample_add_to_parent_title
           (fun _ => Some 1709296200%Z) (sample_world profile_url) 3
           "onlyfans" "alice" "alice" (fun _ => Some "alice") alice_api_call
           [[sample_post; sample_post]; [sample_post]]);
    try reflexivity.
  - cbn. repeat split; discriminate.
  - repeat constructor; exact sample_post_spawns_one.
  - cbn. lia.
Defined.

(** One post at offset 0, then a gateway error. *)
Definition broken_listing (o : string) : Result Exn (list Post) :=
  if String.eqb o "0" then Ok [sample_post]
  else Raise (ScrapeFailure 502 "Bad Gateway").

Lemma profile_listing_failure_witness :
  exists w',
    profile sample_config (paging_client broken_listing) sample_create_scrape_item
            (fun user => user) sample_add_to_parent_title (fun _ => Some 1709296200%Z)
            2 (sample_world profile_url)
      = Some (Ok tt, w') /\
    List.length (tasks w') = 1 /\
    requests w' =
      map (fun u => mkRequest u "")
          [profile_url; page_url alice_api_call "0"; page_url alice_api_call "50"] /\
    exists earlier, logged w' = earlier ++ [ScrapeFailure 502 "Bad Gateway"].
Proof.
  apply (profile_listing_failure sample_config (paging_client broken_listing)
           sample_create_scrape_item (fun user => user) sample_add_to_parent_title
           (fun _ => Some 1709296200%Z) (sample_world profile_url) 2
           "onlyfans" "alice" "alice" (fun _ => Some "alice") alice_api_call
           [[sample_post]] (ScrapeFailure 502 "Bad Gateway"));
    try reflexivity.
  - cbn. repeat split; discriminate.
  - repeat constructor; exact sample_post_spawns_one.
  - cbn. lia.
Defined.

Lemma profile_never_returns_witness :
  profile sample_config (paging_client (fun _ => Ok [sample_post]))
          sample_create_scrape_item (fun user => user) sample_add_to_parent_title
          (fun _ => Some 1709296200%Z) 1000 (sample_world profile_url)
  = None.
Proof.
  apply (fun server =>
           profile_never_returns sample_config
             (paging_client (fun _ => Ok [sample_post]))
             sample_create_scrape_item (fun user => user) sample_add_to_parent_title
             (fun _ => Some 1709296200%Z) (sample_world profile_url)
             "onlyfans" "alice" "alice" (fun _ => Some "alice") alice_api_call
             eq_refl eq_refl eq_refl eq_refl eq_refl server 1000).
  intros offset. exists [sample_post]. split; [reflexivity | discriminate].
Defined.

(** *** post, handle_post_content and handle_direct_link *)

Section Posts.

Variable config : Config.
Variable client : Client.
Variable create_scrape_item :
  ScrapeItem -> URL -> option string -> bool -> option string -> option Z ->
  option URL -> ScrapeItem.
Variable create_title : string -> string.
Variable add_to_parent_title : ScrapeItem -> option string -> ScrapeItem.
Variable get_filename_and_ext : string -> Result Exn (string * string).
Variable strptime_timegm : string -> option Z.

#[local] Abbreviation handle_post_content :=
  (handle_post_content config create_scrape_item create_title
                       add_to_parent_title strptime_timegm).
#[local] Abbreviation handle_file_obj :=
  (handle_file_obj config create_scrape_item create_title
                   add_to_parent_title strptime_timegm).
#[local] Abbreviation post :=
  (post config client create_scrape_item create_title
        add_to_parent_title strptime_timegm).
#[local] Abbreviation child_of :=
  (child_of config create_scrape_item create_title add_to_parent_title).
#[local] Abbreviation handle_direct_link :=
  (handle_direct_link get_filename_and_ext).

(** The scrape item once a post has been read: it carries the id of the
    post as its album. *)
Definition marked (pid : string) (si : ScrapeItem) : ScrapeItem :=
  mkScrapeItem (url si) (parent_title si) true (Some pid)
               (possible_datetime si) (parents si).

(** The title a post goes by. *)
Definition title_of (p : Post) : string :=
  match title p with
  | Some t => if HistoryTable.truthy t then t else "Untitled"
  | None => "Untitled"
  end.

Lemma handle_post_content_run (p : Post) (user user_str : string) (w : World)
      (date : string) (stamp : Z) :
  PyStr.contains "#ad" (content p) && ignore_coomer_ads config = false ->
  py_or (published p) (added p) = Some date ->
  strptime_timegm (PyStr.replace_char "T" " " date) = Some stamp ->
  PyStr.startswith "/" (post_id p) = false ->
  handle_post_content p user user_str w =
  (Ok tt,
   with_tasks
     (tasks w ++
      map (child_of user_str (title_of p) (post_id p)
                    (PyStr.replace_char "T" " " date) stamp
                    (marked (post_id p) (scrape_item w)))
          (files_of p))
     (set_scrape_item (marked (post_id p) (scrape_item w)) w)).
Proof.
  intros Had Hdate Hstamp Hpid.
  unfold CoomerCrawler.handle_post_content, error_handling_wrapper,
    CoomerCrawler.handle_post_content_body.
  rewrite Had, Hdate. fold (title_of p).
  unfold bind at 1. unfold modify at 1. fold (marked (post_id p) (scrape_item w)).
  set (w1 := set_scrape_item (marked (post_id p) (scrape_item w)) w).
  unfold files_of. destruct (file p) as [f|].
  - rewrite (bind_ok _ _ _ _ _
               (handle_file_obj_run config create_scrape_item create_title
                  add_to_parent_title strptime_timegm user_str (title_of p) _ _
                  stamp f w1 Hstamp Hpid)).
    rewrite for_each_files_run with (stamp := stamp) by assumption.
    unfold with_tasks. cbn. rewrite <- app_assoc. reflexivity.
  - rewrite (bind_ok _ _ w1 tt w1) by reflexivity.
    rewrite for_each_files_run with (stamp := stamp) by assumption.
    reflexivity.
Qed.

(** [api_url / service / "user" / user / "post" / post_id] *)
Definition post_api_call (service user pid : string) : Result Exn URL :=
  match profile_api_call service user with
  | Ok u =>
      match truediv u "post" with
      | Ok u => truediv u pid
      | Raise e => Raise e
      end
  | Raise e => Raise e
  end.

Lemma post_body_run w service user pid user_str soup api_call p :
  nth_error (parts (url (scrape_item w))) 1 = Some service ->
  nth_error (parts (url (scrape_item w))) 3 = Some user ->
  nth_error (parts (url (scrape_item w))) 5 = Some pid ->
  get_BS4 client (session_cookie w) (url (scrape_item w)) = Ok soup ->
  soup "a[class=post__user-name]" = Some user_str ->
  post_api_call service user pid = Ok api_call ->
  get_json_post client (session_cookie w) api_call = Ok p ->
  post_body config client create_scrape_item create_title add_to_parent_title
            strptime_timegm w =
  handle_post_content p user user_str
                      (after_requests [url (scrape_item w); api_call] w).
Proof.
  intros H1 H3 H5 Hb Hs Ha Hp.
  unfold CoomerCrawler.post_body.
  unfold get_service_user_and_post, get_user_str_from_post, part, the_scrape_item,
    select_text, enter_limiter, modify, request, lift, bind, ret.
  cbn [scrape_item session_cookie]. rewrite H3, H1, H5.
  cbn [scrape_item session_cookie]. rewrite Hb, Hs.
  unfold post_api_call, profile_api_call in Ha.
  destruct (truediv api_url service) as [u1|]; [|discriminate].
  destruct (truediv u1 "user") as [u2|]; [|discriminate].
  destruct (truediv u2 user) as [u3|]; [|discriminate].
  destruct (truediv u3 "post") as [u4|]; [|discriminate].
  rewrite Ha. cbn [scrape_item session_cookie]. rewrite Hp.
  unfold after_requests. cbn [List.length map app].
  replace (limiter_entries w + 2) with (S (S (limiter_entries w))) by lia.
  cbn [scrape_item session_cookie limiter_entries requests tasks handled
       progress next_task_id logged].
  rewrite <- app_assoc. reflexivity.
Qed.

(** X22.  For the URL of a post whose page names the user and whose API
    entry is a post that is not filtered out, with a date that parses and
    an id that can be appended to a URL, [post] asks for the page and
    then for the API entry, spawns one child per file of the post (its
    [file] first, then its attachments), sets the album of the scrape
    item to the id the API gave, and logs nothing. *)
Theorem post_spawns_per_file (w : World) (service user pid user_str : string)
        (soup : Soup) (api_call : URL) (p : Post) (date : string) (stamp : Z) :
  nth_error (parts (url (scrape_item w))) 1 = Some service ->
  nth_error (parts (url (scrape_item w))) 3 = Some user ->
  nth_error (parts (url (scrape_item w))) 5 = Some pid ->
  get_BS4 client (session_cookie w) (url (scrape_item w)) = Ok soup ->
  soup "a[class=post__user-name]" = Some user_str ->
  post_api_call service user pid = Ok api_call ->
  get_json_post client (session_cookie w) api_call = Ok p ->
  PyStr.contains "#ad" (content p) && ignore_coomer_ads config = false ->
  py_or (published p) (added p) = Some date ->
  strptime_timegm (PyStr.replace_char "T" " " date) = Some stamp ->
  PyStr.startswith "/" (post_id p) = false ->
  exists w',
    post w = (Ok tt, w') /\
    tasks w' =
      tasks w ++
      map (child_of user_str (title_of p) (post_id p)
                    (PyStr.replace_char "T" " " date) stamp
                    (marked (post_id p) (scrape_item w)))
          (files_of p) /\
    requests w' =
      requests w ++ [mkRequest (url (scrape_item w)) (session_cookie w);
                     mkRequest api_call (session_cookie w)] /\
    scrape_item w' = marked (post_id p) (scrape_item w) /\
    logged w' = logged w.
Proof.
  intros H1 H3 H5 Hb Hs Ha Hp Had Hdate Hstamp Hpid.
  unfold CoomerCrawler.post, error_handling_wrapper.
  rewrite (post_body_run w service user pid user_str soup api_call p
             H1 H3 H5 Hb Hs Ha Hp).
  rewrite (handle_post_content_run p user user_str _ date stamp Had Hdate Hstamp Hpid).
  eexists. split; [reflexivity|]. repeat split.
Qed.

Lemma handle_file_obj_bad_date user_str post_title pid date f w :
  strptime_timegm date = None ->
  handle_file_obj user_str post_title pid date f w = (Raise ValueError, w).
Proof.
  intros Hd.
  unfold CoomerCrawler.handle_file_obj, CoomerCrawler.create_new_scrape_item.
  rewrite Hd.
  unfold bind, lift, the_scrape_item, raise.
  rewrite (truediv_ok primary_base_domain ("data" ++ file_path f) eq_refl).
  rewrite (truediv_ok (url (scrape_item w)) "post" eq_refl).
  unfold truediv at 1. destruct (PyStr.startswith "/" pid); reflexivity.
Qed.

(** X23.  A post with a file whose date does not parse spawns nothing:
    the [ValueError] is logged, and the scrape item keeps the album id
    that was set before the failure. *)
Theorem handle_post_content_bad_date (p : Post) (user user_str : string)
        (w : World) (date : string) :
  PyStr.contains "#ad" (content p) && ignore_coomer_ads config = false ->
  py_or (published p) (added p) = Some date ->
  strptime_timegm (PyStr.replace_char "T" " " date) = None ->
  files_of p <> [] ->
  exists w',
    handle_post_content p user user_str w = (Ok tt, w') /\
    tasks w' = tasks w /\
    logged w' = logged w ++ [ValueError] /\
    scrape_item w' = marked (post_id p) (scrape_item w).
Proof.
  intros Had Hdate Hstamp Hfiles.
  unfold CoomerCrawler.handle_post_content, error_handling_wrapper,
    CoomerCrawler.handle_post_content_body.
  rewrite Had, Hdate. fold (title_of p).
  unfold bind at 1. unfold modify at 1. fold (marked (post_id p) (scrape_item w)).
  set (w1 := set_scrape_item (marked (post_id p) (scrape_item w)) w).
  unfold files_of in Hfiles. destruct (file p) as [f|].
  - rewrite (bind_raise _ _ _ _ _
               (handle_file_obj_bad_date user_str (title_of p) _ _ f w1 Hstamp)).
    eexists. split; [reflexivity|]. repeat split.
  - rewrite (bind_ok _ _ w1 tt w1) by reflexivity.
    destruct (attachments p) as [|a rest]; [congruence|].
    cbn [for_each].
    rewrite (bind_raise _ _ _ _ _
               (handle_file_obj_bad_date user_str (title_of p) _ _ a w1 Hstamp)).
    eexists. split; [reflexivity|]. repeat split.
Qed.

(** Where a direct link takes the name of its file from: the query
    parameter [f] when the URL has one, else the last segment of its
    path. *)
Definition link_source (u : URL) : string :=
  match query_get "f" (query u) with
  | Some f => f
  | None => name u
  end.

Definition with_handled (l : list (URL * string * string)) (w : World) : World :=
  mkWorld (scrape_item w) (session_cookie w) (limiter_entries w) (requests w)
          (tasks w) l (progress w) (next_task_id w) (logged w).

(** X24.  [handle_direct_link] hands the URL itself to the downloader,
    under the file name and extension found in the query parameter [f],
    or in the last path segment when there is no such parameter. *)
Theorem handle_direct_link_names_file (w : World) (filename ext : string) :
  get_filename_and_ext (link_source (url (scrape_item w))) = Ok (filename, ext) ->
  handle_direct_link w =
  (Ok tt, with_handled (handled w ++ [(url (scrape_item w), filename, ext)]) w).
Proof.
  unfold link_source. intros Hg.
  unfold CoomerCrawler.handle_direct_link, error_handling_wrapper,
    CoomerCrawler.handle_direct_link_body.
  unfold bind, the_scrape_item, try_except, lift, raise, handle_file, modify.
  destruct (query_get "f" (query (url (scrape_item w)))) as [f|];
    rewrite Hg; reflexivity.
Qed.

(** X25.  When the name gives no file name and extension, the failure is
    logged and nothing is handed to the downloader. *)
Theorem handle_direct_link_logs_failure (w : World) (e : Exn) :
  get_filename_and_ext (link_source (url (scrape_item w))) = Raise e ->
  (forall key, e <> KeyError key) ->
  handle_direct_link w = (Ok tt, log_error e w).
Proof.
  unfold link_source. intros Hg Hne.
  unfold CoomerCrawler.handle_direct_link, error_handling_wrapper,
    CoomerCrawler.handle_direct_link_body.
  unfold bind, the_scrape_item, try_except, lift, raise, handle_file, modify.
  destruct (query_get "f" (query (url (scrape_item w)))) as [f|]; rewrite Hg.
  - destruct e; try reflexivity. now destruct (Hne key).
  - reflexivity.
Qed.

End Posts.

(** *** fetch *)

(** A computation that leaves the progress display alone. *)
Definition keeps_progress {A} (m : Eff A) : Prop :=
  forall w, progress (snd (m w)) = progress w /\
            next_task_id (snd (m w)) = next_task_id w.

Lemma keeps_ret {A} (a : A) : keeps_progress (ret a).
Proof. intros w. split; reflexivity. Qed.

Lemma keeps_raise {A} (e : Exn) : keeps_progress (@raise World Exn A e).
Proof. intros w. split; reflexivity. Qed.

Lemma keeps_lift {A} (r : Result Exn A) : keeps_progress (lift r).
Proof. intros w. split; reflexivity. Qed.

Lemma keeps_bind {A B} (m : Eff A) (k : A -> Eff B) :
  keeps_progress m -> (forall a, keeps_progress (k a)) -> keeps_progress (bind m k).
Proof.
  intros Hm Hk w. unfold bind. specialize (Hm w).
  destruct (m w) as [[a|e] w1]; cbn [snd] in *; [|exact Hm].
  destruct (Hk a w1) as [H1 H2]. destruct Hm as [H3 H4]. split; congruence.
Qed.

Lemma keeps_for_each {A} (l : list A) (body : A -> Eff unit) :
  (forall a, keeps_progress (body a)) -> keeps_progress (for_each l body).
Proof.
  intros Hb. induction l as [|a l IH]; cbn [for_each].
  - apply keeps_ret.
  - apply keeps_bind; auto.
Qed.

Lemma keeps_quiet {A} (m : Eff A) : quiet m -> keeps_progress m.
Proof. intros Hq w. destruct (Hq w) as (_ & _ & _ & _ & H5 & H6). now split. Qed.

Lemma keeps_enter_limiter : keeps_progress enter_limiter.
Proof. intros w. split; reflexivity. Qed.

Lemma keeps_update_cookies v : keeps_progress (update_cookies v).
Proof. intros w. split; reflexivity. Qed.

Lemma keeps_request {A} (call : string -> URL -> Result Exn A) u :
  keeps_progress (request call u).
Proof. intros w. split; reflexivity. Qed.

Lemma keeps_handle_file u filename ext : keeps_progress (handle_file u filename ext).
Proof. intros w. split; reflexivity. Qed.

Lemma keeps_part i u : keeps_progress (part i u).
Proof. unfold part. destruct (nth_error _ _); [apply keeps_ret | apply keeps_raise]. Qed.

Lemma keeps_select_text soup selector : keeps_progress (select_text soup selector).
Proof. unfold select_text. destruct (soup _); [apply keeps_ret | apply keeps_raise]. Qed.

Lemma keeps_wrapper (m : Eff unit) :
  keeps_progress m -> keeps_progress (error_handling_wrapper m).
Proof.
  intros Hm w. unfold error_handling_wrapper. specialize (Hm w).
  destruct (m w) as [[[]|e] w1]; cbn [snd] in *; exact Hm.
Qed.

Lemma keeps_try_except {A} (m : Eff A) (h : Exn -> option (Eff A)) :
  keeps_progress m ->
  (forall e k, h e = Some k -> keeps_progress k) ->
  keeps_progress (try_except m h).
Proof.
  intros Hm Hh w. unfold try_except. specialize (Hm w).
  destruct (m w) as [[a|e] w1]; cbn [snd] in *; [exact Hm|].
  destruct (h e) as [k|] eqn:E; [|exact Hm].
  destruct (Hh e k E w1) as [H1 H2]. destruct Hm as [H3 H4]. split; congruence.
Qed.

#[local] Ltac keeps :=
  repeat first
    [ apply keeps_ret | apply keeps_raise | apply keeps_lift
    | apply keeps_enter_limiter | apply keeps_update_cookies
    | apply keeps_request | apply keeps_handle_file | apply keeps_part
    | apply keeps_select_text
    | apply keeps_quiet; apply quiet_the_scrape_item
    | apply keeps_quiet; apply quiet_spawn
    | apply keeps_bind; [|intros ?]
    | apply keeps_for_each; intros ? ].

Section Fetch.

Variable config : Config.
Variable client : Client.
Variable create_scrape_item :
  ScrapeItem -> URL -> option string -> bool -> option string -> option Z ->
  option URL -> ScrapeItem.
Variable create_title : string -> string.
Variable add_to_parent_title : ScrapeItem -> option string -> ScrapeItem.
Variable get_filename_and_ext : string -> Result Exn (string * string).
Variable strptime_timegm : string -> option Z.

#[local] Abbreviation favorites := (favorites config client create_scrape_item).
#[local] Abbreviation handle_post_content :=
  (handle_post_content config create_scrape_item create_title
                       add_to_parent_title strptime_timegm).
#[local] Abbreviation profile_pages :=
  (profile_pages config client create_scrape_item create_title
                 add_to_parent_title strptime_timegm).
#[local] Abbreviation profile :=
  (profile config client create_scrape_item create_title
           add_to_parent_title strptime_timegm).
#[local] Abbreviation post :=
  (post config client create_scrape_item create_title
        add_to_parent_title strptime_timegm).
#[local] Abbreviation handle_direct_link :=
  (handle_direct_link get_filename_and_ext).
#[local] Abbreviation fetch :=
  (fetch config client create_scrape_item create_title add_to_parent_title
         get_filename_and_ext strptime_timegm).

Lemma keeps_favorites : keeps_progress favorites.
Proof.
  apply keeps_wrapper. unfold favorites_body.
  destruct (negb _); keeps.
Qed.

Lemma keeps_handle_post_content p user user_str :
  keeps_progress (handle_post_content p user user_str).
Proof. apply keeps_quiet, quiet_handle_post_content. Qed.

Lemma keeps_post : keeps_progress post.
Proof.
  apply keeps_wrapper. unfold post_body.
  apply keeps_bind; [unfold get_service_user_and_post; keeps|].
  intros [[service user] pid].
  unfold get_user_str_from_post. keeps.
  apply keeps_handle_post_content.
Qed.

Lemma keeps_handle_direct_link : keeps_progress handle_direct_link.
Proof.
  apply keeps_wrapper. unfold handle_direct_link_body.
  apply keeps_bind; [keeps|]. intros si.
  apply keeps_bind; [|intros ?; keeps].
  apply keeps_try_except.
  - destruct (query_get _ _); keeps.
  - intros e k Hk. destruct e; inversion Hk; subst. keeps.
Qed.

Lemma keeps_profile_pages api_call user user_str : forall fuel offset w r w',
  profile_pages fuel api_call user user_str offset w = Some (r, w') ->
  progress w' = progress w /\ next_task_id w' = next_task_id w.
Proof.
  induction fuel as [|fuel IH]; intros offset w r w' H; [discriminate|].
  cbn [CoomerCrawler.profile_pages] in H. rewrite fetch_page_run in H.
  destruct (get_json_posts client _ _) as [[|p ps]|e].
  - inversion H; subst. split; reflexivity.
  - pose proof (keeps_for_each (p :: ps)
                  (fun post0 => handle_post_content post0 user user_str)
                  (fun post0 => keeps_handle_post_content post0 user user_str)
                  (after_requests [page_url api_call (str_of_int offset)] w))
      as [H1 H2].
    destruct (for_each (p :: ps) _ _) as [[[]|e] w1]; cbn [snd] in *.
    + destruct (IH _ _ _ _ H) as [H3 H4].
      cbn [progress next_task_id after_requests] in H1, H2. split; congruence.
    + inversion H; subst. split; assumption.
  - inversion H; subst. split; reflexivity.
Qed.

Lemma keeps_profile fuel w r w' :
  profile fuel w = Some (r, w') ->
  r = Ok tt /\ progress w' = progress w /\ next_task_id w' = next_task_id w.
Proof.
  unfold CoomerCrawler.profile, profile_body. intros H.
  match type of H with
  | context [bind ?m ?k w] =>
      assert (Hk : keeps_progress (bind m k));
        [|specialize (Hk w); destruct (bind m k w) as [[[[user user_str] api_call]|e] w1]]
  end.
  { unfold get_service_and_user, get_user_str_from_profile. keeps. }
  - cbn [snd] in Hk.
    destruct (profile_pages fuel api_call user user_str 0%Z w1) as [[r1 w2]|] eqn:E;
      [|discriminate].
    apply keeps_profile_pages in E. destruct E as [E1 E2], Hk as [K1 K2].
    destruct r1 as [[]|e]; inversion H; subst; cbn [progress next_task_id log_error];
      (split; [reflexivity | split; congruence]).
  - inversion H; subst. cbn [snd progress next_task_id log_error] in *.
    destruct Hk. now split.
Qed.

Lemma remove_last_task (l : list (nat * URL)) (n : nat) (u : URL) :
  Forall (fun t => fst t < n) l ->
  filter (fun t => negb (Nat.eqb (fst t) n)) (l ++ [(n, u)]) = l.
Proof.
  intros Hl. rewrite filter_app. cbn [filter fst]. rewrite Nat.eqb_refl.
  cbn [negb]. rewrite app_nil_r.
  induction Hl as [|t l Ht Hl IH]; [reflexivity|].
  cbn [filter]. rewrite IH.
  replace (Nat.eqb (fst t) n) with false; [reflexivity|].
  symmetry. apply Nat.eqb_neq. lia.
Qed.

(** X26.  Whichever way [fetch] sends a scrape item, when it returns it
    returns normally, and the progress display is as it was before the
    call: the task it showed, under an id not in use, is taken away
    again, and the next id has moved by one. *)
Theorem fetch_clears_its_task (fuel : nat) (w w' : World) (r : Result Exn unit) :
  Forall (fun t => fst t < next_task_id w) (progress w) ->
  fetch fuel w = Some (r, w') ->
  r = Ok tt /\
  progress w' = progress w /\
  next_task_id w' = S (next_task_id w).
Proof.
  intros Hfresh H. unfold CoomerCrawler.fetch in H.
  unfold bind at 1, the_scrape_item at 1, add_task at 1 in H.
  cbn [scrape_item] in H.
  set (w1 := mkWorld (scrape_item w) (session_cookie w) (limiter_entries w)
                     (requests w) (tasks w) (handled w)
                     (progress w ++ [(next_task_id w, url (scrape_item w))])
                     (S (next_task_id w)) (logged w)) in *.
  assert (Hdone : forall w3,
             progress w3 = progress w1 ->
             next_task_id w3 = next_task_id w1 ->
             Some (remove_task (next_task_id w) w3) = Some (r, w') ->
             r = Ok tt /\ progress w' = progress w /\
             next_task_id w' = S (next_task_id w)).
  { intros w3 Hp Hn E. unfold remove_task, modify in E.
    inversion E; subst. cbn [progress next_task_id]. rewrite Hp, Hn.
    split; [reflexivity|]. split; [|reflexivity].
    apply remove_last_task. exact Hfresh. }
  destruct (route (url (scrape_item w))).
  - unfold some_result in H.
    match type of H with
    | context [handle_direct_link ?w2] =>
        pose proof (wrapper_ok (handle_direct_link_body get_filename_and_ext) w2) as Hok;
          pose proof (keeps_handle_direct_link w2) as [Hp Hn];
          fold handle_direct_link in Hok;
          destruct (handle_direct_link w2) as [r3 w3]
    end.
    cbn [fst snd] in *. subst r3. now apply (Hdone w3).
  - unfold some_result in H.
    pose proof (wrapper_ok (post_body config client create_scrape_item create_title
                              add_to_parent_title strptime_timegm) w1) as Hok.
    pose proof (keeps_post w1) as [Hp Hn]. fold post in Hok.
    destruct (post w1) as [r3 w3].
    cbn [fst snd] in *. subst r3. now apply (Hdone w3).
  - destruct (profile fuel w1) as [[r3 w3]|] eqn:E; [|discriminate].
    apply keeps_profile in E. destruct E as (-> & Hp & Hn).
    now apply (Hdone w3).
  - unfold some_result in H.
    pose proof (wrapper_ok (favorites_body config client create_scrape_item) w1) as Hok.
    pose proof (keeps_favorites w1) as [Hp Hn]. fold favorites in Hok.
    destruct (favorites w1) as [r3 w3].
    cbn [fst snd] in *. subst r3. now apply (Hdone w3).
  - unfold some_result in H.
    pose proof (wrapper_ok (handle_direct_link_body get_filename_and_ext) w1) as Hok.
    pose proof (keeps_handle_direct_link w1) as [Hp Hn].
    fold handle_direct_link in Hok.
    destruct (handle_direct_link w1) as [r3 w3].
    cbn [fst snd] in *. subst r3. now apply (Hdone w3).
Qed.

(** X27.  A URL with a [thumbnails] segment, all of its segments plain
    names, is sent to [handle_direct_link] under the link made of its
    host and its segments other than [thumbnail], without a query: the
    [thumbnails] segment is still there (the segment filtered out is
    [thumbnail]), and the file is named after the last path segment,
    never after a query parameter [f]; the scrape item is left pointing
    to that link. *)
Theorem fetch_thumbnail_keeps_segment (fuel : nat) (w : World)
        (filename ext : string) :
  Forall (fun x => plain_name x = true) (segments (url (scrape_item w))) ->
  in_parts "thumbnails" (url (scrape_item w)) = true ->
  get_filename_and_ext (name (without_thumbnail (url (scrape_item w))))
    = Ok (filename, ext) ->
  exists w',
    fetch fuel w = Some (Ok tt, w') /\
    handled w' =
      handled w ++ [(without_thumbnail (url (scrape_item w)), filename, ext)] /\
    url (scrape_item w') = without_thumbnail (url (scrape_item w)) /\
    In "thumbnails" (segments (url (scrape_item w'))) /\
    query (url (scrape_item w')) = [].
Proof.
  intros Hplain Hin Hg. unfold CoomerCrawler.fetch.
  unfold bind at 1, the_scrape_item at 1, add_task at 1.
  cbn [scrape_item]. unfold route. rewrite Hin.
  rewrite (thumbnail_link_plain _ Hplain).
  unfold some_result, CoomerCrawler.handle_direct_link, error_handling_wrapper,
    CoomerCrawler.handle_direct_link_body.
  unfold bind, the_scrape_item, try_except, lift, raise, handle_file, modify,
    set_scrape_item.
  cbn [scrape_item url].
  replace (query_get "f" (query (without_thumbnail (url (scrape_item w)))))
    with (@None string) by reflexivity.
  rewrite Hg.
  eexists. split; [reflexivity|].
  split; [reflexivity|]. split; [reflexivity|].
  split; [now apply thumbnails_stays | reflexivity].
Qed.

End Fetch.

(** *** Sample data *)

Definition post_url : URL :=
  mkURL "coomer.su" ["onlyfans"; "user"; "alice"; "post"; "1001"] [].

Definition alice_post_api_call : URL :=
  mkURL "coomer.su" ["api"; "v1"; "onlyfans"; "user"; "alice"; "post"; "1001"] [].

(** A post with a file and two attachments. *)
Definition album_post : Post :=
  mkPost "spring set" (Some "2024-03-01T12:30:00") None "1001" (Some "")
         (Some (mkFileObj "/ab/cd/abcd.jpg" "one.jpg"))
         [mkFileObj "/ef/01/ef01.jpg" "two.jpg"; mkFileObj "/23/45/2345.mp4" "clip.mp4"].

Definition album_client : Client :=
  mkClient (get_json_users sample_client) (get_json_posts sample_client)
           (fun _ _ => Ok album_post) (get_BS4 sample_client).

Definition sample_soup : Soup := fun _ => Some "alice".

Lemma post_spawns_per_file_witness :
  exists w',
    post sample_config album_client sample_create_scrape_item (fun user => user)
         sample_add_to_parent_title (fun _ => Some 1709296200%Z)
         (sample_world post_url) = (Ok tt, w') /\
    tasks w' =
      map (child_of sample_config sample_create_scrape_item (fun user => user)
                    sample_add_to_parent_title "alice" "Untitled" "1001"
                    "2024-03-01 12:30:00" 1709296200%Z
                    (marked "1001" (scrape_item (sample_world post_url))))
          (files_of album_post) /\
    requests w' = [mkRequest post_url ""; mkRequest alice_post_api_call ""] /\
    scrape_item w' = marked "1001" (scrape_item (sample_world post_url)) /\
    logged w' = [].
Proof.
  apply (post_spawns_per_file sample_config album_client sample_create_scrape_item
           (fun user => user) sample_add_to_parent_title (fun _ => Some 1709296200%Z)
           (sample_world post_url) "onlyfans" "alice" "1001" "alice" sample_soup
           alice_post_api_call album_post "2024-03-01T12:30:00" 1709296200%Z);
    reflexivity.
Defined.

(** A post whose date is not in the format the API uses. *)
Definition undated_post : Post :=
  mkPost "spring set" (Some "March 1st") None "1002" (Some "Spring")
         (Some (mkFileObj "/ab/cd/abcd.jpg" "one.jpg")) [].

Definition sample_strptime_timegm (date : string) : option Z :=
  if String.eqb date "2024-03-01 12:30:00" then Some 1709296200%Z else None.

Lemma handle_post_content_bad_date_witness :
  exists w',
    handle_post_content sample_config sample_create_scrape_item (fun user => user)
                        sample_add_to_parent_title sample_strptime_timegm
                        undated_post "alice" "alice" (sample_world profile_url)
      = (Ok tt, w') /\
    tasks w' = [] /\
    logged w' = [ValueError] /\
    scrape_item w' = marked "1002" (scrape_item (sample_world profile_url)).
Proof.
  apply (handle_post_content_bad_date sample_config sample_create_scrape_item
           (fun user => user) sample_add_to_parent_title sample_strptime_timegm
           undated_post "alice" "alice" (sample_world profile_url) "March 1st");
    try reflexivity.
  discriminate.
Defined.

Definition sample_get_filename_and_ext (s : string) : Result Exn (string * string) :=
  if String.eqb s "one.jpg" then Ok ("one.jpg", ".jpg")
  else if String.eqb s "abcd.jpg" then Ok ("abcd.jpg", ".jpg")
  else Raise NoExtensionFailure.

Definition direct_url : URL :=
  mkURL "coomer.su" ["data"; "ab"; "cd"; "abcd.jpg"] [("f", "one.jpg")].

Definition bare_url : URL := mkURL "coomer.su" ["data"; "ab"; "cd"; "abcd"] [].

Definition thumbnail_url : URL :=
  mkURL "coomer.su" ["thumbnails"; "data"; "ab"; "cd"; "abcd.jpg"] [("f", "one.jpg")].

Lemma handle_direct_link_names_file_witness :
  handle_direct_link sample_get_filename_and_ext (sample_world direct_url) =
  (Ok tt, with_handled [(direct_url, "one.jpg", ".jpg")] (sample_world direct_url)).
Proof.
  apply (handle_direct_link_names_file sample_get_filename_and_ext
           (sample_world direct_url) "one.jpg" ".jpg").
  reflexivity.
Defined.

Lemma handle_direct_link_logs_failure_witness :
  handle_direct_link sample_get_filename_and_ext (sample_world bare_url) =
  (Ok tt, log_error NoExtensionFailure (sample_world bare_url)).
Proof.
  apply (handle_direct_link_logs_failure sample_get_filename_and_ext
           (sample_world bare_url) NoExtensionFailure).
  - reflexivity.
  - discriminate.
Defined.

(** A world in which two tasks are on display already. *)
Definition busy_world (u : URL) : World :=
  mkWorld (mkScrapeItem u "" false None None []) "" 0 [] [] []
          [(0, profile_url); (1, post_url)] 2 [].

Definition fetched_world : World :=
  mkWorld (mkScrapeItem direct_url "" false None None []) "" 0 [] []
          [(direct_url, "one.jpg", ".jpg")]
          [(0, profile_url); (1, post_url)] 3 [].

Lemma fetch_clears_its_task_witness :
  @Ok Exn unit tt = Ok tt /\
  progress fetched_world = progress (busy_world direct_url) /\
  next_task_id fetched_world = S (next_task_id (busy_world direct_url)).
Proof.
  apply (fetch_clears_its_task sample_config sample_client sample_create_scrape_item
           (fun user => user) sample_add_to_parent_title sample_get_filename_and_ext
           sample_strptime_timegm 0 (busy_world direct_url) fetched_world (Ok tt)).
  - repeat constructor.
  - reflexivity.
Defined.

Lemma fetch_thumbnail_keeps_segment_witness :
  exists w',
    fetch sample_config sample_client sample_create_scrape_item (fun user => user)
          sample_add_to_parent_title sample_get_filename_and_ext
          sample_strptime_timegm 0 (sample_world thumbnail_url) = Some (Ok tt, w') /\
    handled w' = [(without_thumbnail thumbnail_url, "abcd.jpg", ".jpg")] /\
    url (scrape_item w') = without_thumbnail thumbnail_url /\
    In "thumbnails" (segments (url (scrape_item w'))) /\
    query (url (scrape_item w')) = [].
Proof.
  apply (fetch_thumbnail_keeps_segment sample_config sample_client
           sample_create_scrape_item (fun user => user) sample_add_to_parent_title
           sample_get_filename_and_ext sample_strptime_timegm 0
           (sample_world thumbnail_url) "abcd.jpg" ".jpg");
    [repeat constructor | reflexivity | reflexivity].
Defined.

End CoomerCrawlerMore.

(** ** The completion ledger: file names and albums *)

Module LookupsMore.
Import HistoryTable EffFacts HistoryTableFacts.

(** X28.  [insert_incompleted] followed by [get_downloaded_filename]
    for the same item gives back the download filename of the item (the
    empty string when it has none), whatever was stored before and
    whichever record under the (domain, url_path) of the item is
    fetched: the call sets the filename of all of them. *)
Theorem insert_then_get_downloaded_filename (s : Self) (now domain : string)
        (item : MediaItem.t) :
  ledger_key (pk_cols (media (db_conn s))) ->
  exists s1,
    insert_incompleted now domain item s = (Ok tt, s1) /\
    get_downloaded_filename domain item s1 = (Ok (PyStr (filename_of item)), s1).
Proof.
  intros Hk.
  set (d := get_db_domain domain).
  set (p := get_db_path (MediaItem.url item) (MediaItem.referer item)).
  destruct (inserted_present now d p item _ Hk) as (r & Hin & Kr).
  apply keyed_as_at_key in Kr.
  eexists. split; [now apply insert_incompleted_run|].
  fold d p. unfold get_downloaded_filename. fold d p.
  unfold bind, query. rewrite media_set_media.
  pose proof (fetchone_select_by [Domain; UrlPath] (at_key d p)
                (inserted now d p item (media (db_conn s)))) as Hf.
  destruct (select_by _ _ _) as [|x l]; cbn [fetchone hd_error] in Hf.
  - assert (Hr : In r (select_where (at_key d p)
                         (inserted now d p item (media (db_conn s)))))
      by (apply filter_In; now split).
    rewrite Hf in Hr. destruct Hr.
  - destruct Hf as [Hx Kx].
    cbn [map fetchone hd_error]. unfold ret, HistoryTable.item, project.
    cbn [map nth cell].
    rewrite (inserted_filenames now d p item _ x Hx Kx). reflexivity.
Qed.

Lemma insert_then_get_downloaded_filename_witness :
  exists s1,
    insert_incompleted "2024-02-02 08:00:00" "coomer"
      (MediaItem.mk (MediaItem.url sample_item) "https://coomer.su/elsewhere"
                    (Some "77") "Downloads/else" (Some "abcd (1).jpg") "abcd.jpg"
                    "Downloads/else/abcd (1).jpg")
      (ledger_of file_key [sample_row; other_file_row]) = (Ok tt, s1) /\
    get_downloaded_filename "coomer"
      (MediaItem.mk (MediaItem.url sample_item) "https://coomer.su/elsewhere"
                    (Some "77") "Downloads/else" (Some "abcd (1).jpg") "abcd.jpg"
                    "Downloads/else/abcd (1).jpg") s1
      = (Ok (PyStr "abcd (1).jpg"), s1).
Proof.
  apply (insert_then_get_downloaded_filename
           (ledger_of file_key [sample_row; other_file_row])
           "2024-02-02 08:00:00" "coomer"
           (MediaItem.mk (MediaItem.url sample_item) "https://coomer.su/elsewhere"
                    (Some "77") "Downloads/else" (Some "abcd (1).jpg") "abcd.jpg"
                    "Downloads/else/abcd (1).jpg")).
  exact ledger_key_file.
Defined.

(** *** Albums *)

(** [d[k]] on the dict [check_album] returns; [None] for a missing key. *)
Fixpoint dict_get (k : Value) (d : list (Value * Value)) : option Value :=
  match d with
  | [] => None
  | (k', v) :: rest => if Value_eqb k' k then Some v else dict_get k rest
  end.

Lemma dict_get_set_same k v d : dict_get k (dict_set k v d) = Some v.
Proof.
  induction d as [|[k' v'] d IH]; cbn [dict_set dict_get].
  - now rewrite Value_eqb_refl.
  - destruct (Value_eqb k' k) eqn:E; cbn [dict_get]; rewrite E; auto.
Qed.

Lemma dict_get_set_other k k' v d :
  Value_eqb k' k = false -> dict_get k (dict_set k' v d) = dict_get k d.
Proof.
  intros Hne. induction d as [|[k0 v0] d IH]; cbn [dict_set dict_get].
  - now rewrite Hne.
  - destruct (Value_eqb k0 k') eqn:E; cbn [dict_get].
    + apply Value_eqb_eq in E. subst k0. now rewrite Hne.
    + destruct (Value_eqb k0 k); auto.
Qed.

Lemma dict_get_fold k l : forall d,
  (forall row, In row l -> Value_eqb (nth 0 row VNull) k = false) ->
  dict_get k (fold_left (fun d row => dict_set (nth 0 row VNull) (nth 1 row VNull) d)
                        l d)
  = dict_get k d.
Proof.
  induction l as [|row l IH]; intros d Hl; cbn [fold_left]; [reflexivity|].
  rewrite IH by (intros; apply Hl; now right).
  apply dict_get_set_other. apply Hl. now left.
Qed.

(** The last pair with a key is the one the dict keeps. *)
Lemma dict_get_dict_of k l1 row l2 :
  nth 0 row VNull = k ->
  (forall x, In x l2 -> Value_eqb (nth 0 x VNull) k = false) ->
  dict_get k (dict_of (l1 ++ row :: l2)) = Some (nth 1 row VNull).
Proof.
  intros Hk Hl2. unfold dict_of. rewrite fold_left_app. cbn [fold_left].
  rewrite dict_get_fold by exact Hl2. rewrite Hk. apply dict_get_set_same.
Qed.

(** [WHERE domain = ? and album_id = ?] *)
Definition in_album (d a : string) (r : Row) : bool :=
  sql_eq_text (cell Domain r) d && sql_eq_text (cell AlbumId r) a.

Lemma filter_one_split {A} (q : A -> bool) l1 x l2 :
  q x = true -> List.length (filter q (l1 ++ x :: l2)) = 1 ->
  forall y, In y l2 -> q y = false.
Proof.
  intros Hx Hlen y Hy. rewrite filter_app in Hlen. cbn [filter] in Hlen.
  rewrite Hx, length_app in Hlen. cbn [List.length] in Hlen.
  destruct (q y) eqn:E; [|reflexivity].
  assert (Hin : In y (filter q l2)) by (apply filter_In; now split).
  destruct (filter q l2); [destruct Hin | cbn [List.length] in Hlen; lia].
Qed.

Lemma filter_filter_comm {A} (f g : A -> bool) l :
  filter f (filter g l) = filter g (filter f l).
Proof.
  induction l as [|x l IH]; [reflexivity|].
  cbn [filter]. destruct (g x) eqn:G, (f x) eqn:F; cbn [filter];
    rewrite ?G, ?F, IH; reflexivity.
Qed.

Lemma filter_perm {A} (f : A -> bool) l1 l2 :
  Permutation l1 l2 -> Permutation (filter f l1) (filter f l2).
Proof.
  intros Hp. induction Hp as [|x l1 l2 Hp IH|x y l|l1 l2 l3 H1 IH1 H2 IH2].
  - reflexivity.
  - cbn [filter]. destruct (f x); [now apply perm_skip | assumption].
  - cbn [filter]. destruct (f x), (f y); try reflexivity. apply perm_swap.
  - etransitivity; eassumption.
Qed.

Lemma check_album_lookup (s : Self) (domain a : string) (p : string) (r : Row) :
  ignore_history s = false ->
  records_at (get_db_domain domain) p s = [r] ->
  cell AlbumId r = VText a ->
  exists dict,
    check_album domain a s = (Ok (AlbumDict dict), s) /\
    dict_get (VText p) dict = Some (cell Completed r).
Proof.
  intros Hi Hone Ha.
  set (d := get_db_domain domain) in *.
  unfold check_album. fold d.
  unfold bind at 1. unfold get at 1. rewrite Hi.
  unfold bind, query, ret.
  change (fun r0 => sql_eq_text (cell Domain r0) d && sql_eq_text (cell AlbumId r0) a)
    with (in_album d a).
  eexists. split; [reflexivity|].
  set (l := select_by [Domain; AlbumId] (in_album d a) (media (db_conn s))).
  assert (Hr : In r (records_at d p s)) by (rewrite Hone; now left).
  apply filter_In in Hr as [Hin Hk].
  assert (Hq : in_album d a r = true).
  { unfold in_album. apply at_key_iff in Hk as [Hd _].
    apply andb_true_iff. split; apply sql_eq_text_iff; assumption. }
  assert (Hl : In r l) by (apply select_by_In; now split).
  assert (Hlen : List.length (filter (at_key d p) l) = 1).
  { unfold l. rewrite <- (Permutation_length
                  (filter_perm (at_key d p) _ _
                     (select_by_perm [Domain; AlbumId] (in_album d a)
                                     (media (db_conn s))))).
    unfold select_where. rewrite filter_filter_comm.
    fold (select_where (at_key d p) (media (db_conn s))).
    fold (records_at d p s). rewrite Hone. cbn [filter]. now rewrite Hq. }
  apply in_split in Hl as (l1 & l2 & E). rewrite E in *.
  rewrite map_app. cbn [map].
  rewrite (dict_get_dict_of (VText p) _ (project [UrlPath; Completed] r)).
  - reflexivity.
  - cbn. now apply at_key_iff in Hk as [_ Hp].
  - intros x Hx. apply in_map_iff in Hx as (y & <- & Hy).
    cbn [project map nth cell].
    destruct (Value_eqb (url_path y) (VText p)) eqn:Ey; [|reflexivity].
    exfalso. apply Value_eqb_eq in Ey.
    assert (Hky : at_key d p y = true).
    { apply at_key_iff. split; [|exact Ey].
      assert (Hqy : In y (select_by [Domain; AlbumId] (in_album d a) (media (db_conn s)))).
      { fold l. rewrite E. apply in_or_app. right. now right. }
      apply select_by_In in Hqy as [_ Hqy]. unfold in_album in Hqy.
      apply andb_true_iff in Hqy as [Hd _]. now apply sql_eq_text_iff in Hd. }
    rewrite (filter_one_split (at_key d p) l1 r l2 Hk Hlen y Hy) in Hky.
    discriminate.
Qed.

(** X29.  Once [set_album_id] has stored the album of an item that has
    one record under its (domain, url_path), [check_album] for that album
    lists the path of the item with the completion flag of that
    record. *)
Theorem set_album_id_then_check_album (s : Self) (domain a : string)
        (item : MediaItem.t) (r : Row) :
  ignore_history s = false ->
  ~ In AlbumId (pk_cols (media (db_conn s))) ->
  MediaItem.album_id item = Some a ->
  records_at (get_db_domain domain)
             (get_db_path (MediaItem.url item) (MediaItem.referer item)) s = [r] ->
  exists s1 dict,
    set_album_id domain item s = (Ok tt, s1) /\
    check_album domain a s1 = (Ok (AlbumDict dict), s1) /\
    dict_get (VText (get_db_path (MediaItem.url item) (MediaItem.referer item))) dict
      = Some (cell Completed r).
Proof.
  intros Hi Hpk Ha Hone.
  set (d := get_db_domain domain) in *.
  set (p := get_db_path (MediaItem.url item) (MediaItem.referer item)) in *.
  set (t1 := updated (at_key d p) (set_cell AlbumId (VText a)) (media (db_conn s))).
  assert (E1 : set_album_id domain item s = (Ok tt, set_media t1 s)).
  { unfold set_album_id. fold d p. rewrite Ha. cbn [bind_opt].
    erewrite bind_ok; [reflexivity|].
    apply execute_ok. apply update_where_nonkey.
    apply touches_pk_false. intros c [<-|[]]. exact Hpk. }
  destruct (check_album_lookup (set_media t1 s) domain a p
              (set_cell AlbumId (VText a) r)) as (dict & E2 & Hd).
  - exact Hi.
  - fold d. unfold t1. rewrite records_at_updated by reflexivity.
    now rewrite Hone.
  - apply cell_set_cell_same.
  - exists (set_media t1 s), dict. split; [exact E1|]. split; [exact E2|].
    rewrite Hd. now rewrite cell_set_cell_other by discriminate.
Qed.

Lemma set_album_id_then_check_album_witness :
  exists s1 dict,
    set_album_id "coomer"
      (MediaItem.mk (MediaItem.url sample_item) (MediaItem.referer sample_item)
                    (Some "album-9") "Downloads/alice" (Some "abcd.jpg") "abcd.jpg"
                    "Downloads/alice/abcd.jpg")
      (ledger_of file_key [sample_row; placeholder_row; other_page_row])
      = (Ok tt, s1) /\
    check_album "coomer" "album-9" s1 = (Ok (AlbumDict dict), s1) /\
    dict_get (VText "/data/ab/cd/abcd.jpg") dict = Some (VInt 0).
Proof.
  apply (set_album_id_then_check_album
           (ledger_of file_key [sample_row; placeholder_row; other_page_row])
           "coomer" "album-9"
           (MediaItem.mk (MediaItem.url sample_item) (MediaItem.referer sample_item)
                    (Some "album-9") "Downloads/alice" (Some "abcd.jpg") "abcd.jpg"
                    "Downloads/alice/abcd.jpg")
           sample_row).
  - reflexivity.
  - cbn. intuition discriminate.
  - reflexivity.
  - reflexivity.
Defined.

End LookupsMore.

(** ** The content hasher: chunks *)

Module HashManagerMore.
Import HashManager HashManagerFacts.

(** The state of the hash once [bytes] have been fed to it, chunk by
    chunk or at once: nothing is fed for an empty file. *)
Definition fed (hasher : Hasher) (bytes : list Byte.byte) : hash_state hasher :=
  match bytes with
  | [] => new hasher
  | _ :: _ => update hasher (new hasher) bytes
  end.

(** X30.  For an incremental hash, reading the file in chunks of one
    mebibyte does not show in the result: the digest [hash_file] returns
    is the digest of the whole content fed at once. *)
Theorem hash_file_digest_of_content (hasher : Hasher) (fs : FileSystem)
        (cwd filename : string) (bytes : list Byte.byte) :
  streaming hasher ->
  fs (os_path_join cwd filename) = Ok bytes ->
  hash_file hasher fs cwd filename = Ok (hexdigest hasher (fed hasher bytes)).
Proof.
  intros Hs Hf. unfold hash_file. rewrite Hf. do 2 f_equal.
  rewrite (hash_loop_whole hasher CHUNK_SIZE (new hasher) _ _ Hs)
    by discriminate.
  destruct (take CHUNK_SIZE bytes) as [|b bs] eqn:E.
  - apply take_nil_inv in E; [|discriminate]. now subst bytes.
  - rewrite <- E, take_drop. destruct bytes as [|x xs]; [discriminate|].
    reflexivity.
Qed.

Lemma sample_hasher_streaming : streaming sample_hasher.
Proof. intros h a b. cbn. now rewrite app_assoc. Qed.

Lemma hash_file_digest_of_content_witness :
  hash_file sample_hasher (sample_fs "/home/u/a.bin") "/home/u" "a.bin"
  = Ok (hexdigest sample_hasher (fed sample_hasher [Byte.x68; Byte.x69])).
Proof.
  apply (hash_file_digest_of_content sample_hasher (sample_fs "/home/u/a.bin")
           "/home/u" "a.bin" [Byte.x68; Byte.x69]).
  - exact sample_hasher_streaming.
  - reflexivity.
Defined.

End HashManagerMore.
